(** * Github-Scrapper: the repository-traversal engine of [fr10.py]

    A shallow embedding of the functions of [src/fr10.py] that discover
    repositories, resolve branch trees, locate manifests, parse requirement
    lines and extract imports, together with the properties the
    specification states about them.

    Python values are modelled as follows.
    - [str]: a list of characters ([pystr]); a character is a code point
      below 256, classified the way Python classifies it ([isspace] follows
      [str.isspace], [isword] follows the regular expression class [\w]).
    - [None] / a value: [option].
    - an exception leaving a function: the [Raise] constructor of [result].
    - [requests.get]: the next outcome of a queue of network outcomes, one
      queue per endpoint; [time.time]: the next reading of a clock, and
      [time.sleep]: a log of pauses, both carried by [World].
    - [float]: a binary64 number, computed with as the interpreter does. *)

From Stdlib Require Import Floats.
From Stdlib Require Import Ascii String.
From Stdlib Require Import List ZArith NArith QArith Bool Arith Lia.
From Stdlib Require Import Qround Qminmax.
Import ListNotations.

Set Implicit Arguments.

(** ** Python strings *)

Module PyStr.

Definition pystr := list ascii.

(** A string literal of the source. *)
Definition str (s : string) : pystr := list_ascii_of_string s.

(** [str.isspace] on one character: TAB..CR, FS..US, space, NEL and NBSP. *)
Definition isspace (c : ascii) : bool :=
  let n := N_of_ascii c in
  (((9 <=? n) && (n <=? 13)) || ((28 <=? n) && (n <=? 32))
   || (n =? 133) || (n =? 160))%N.

(** [s.lstrip()], [s.rstrip()] and [s.strip()]. *)
Fixpoint lstrip (s : pystr) : pystr :=
  match s with
  | [] => []
  | c :: s' => if isspace c then lstrip s' else s
  end.

Definition rstrip (s : pystr) : pystr := rev (lstrip (rev s)).

Definition strip (s : pystr) : pystr := rstrip (lstrip s).

(** [s.startswith(p)]. *)
Fixpoint startswith (s p : pystr) {struct p} : bool :=
  match p, s with
  | [], _ => true
  | _ :: _, [] => false
  | a :: p', b :: s' => Ascii.eqb b a && startswith s' p'
  end.

(** [s.endswith(p)]. *)
Definition endswith (s p : pystr) : bool := startswith (rev s) (rev p).

(** [s.split(sep, 1)] when [sep] occurs in [s]: the text before the first
    (leftmost) occurrence and the text after it.  [sep] is never empty in
    the source. *)
Fixpoint split_once (sep s : pystr) : option (pystr * pystr) :=
  if startswith s sep then Some ([], skipn (length sep) s)
  else match s with
       | [] => None
       | c :: s' =>
           match split_once sep s' with
           | Some (a, b) => Some (c :: a, b)
           | None => None
           end
       end.

(** [sep in s]. *)
Definition contains (sep s : pystr) : bool :=
  match split_once sep s with Some _ => true | None => false end.

(** [s.split(sep, maxsplit)]: at most [maxsplit] splits, leftmost first. *)
Fixpoint split_max (maxsplit : nat) (sep s : pystr) : list pystr :=
  match maxsplit with
  | O => [s]
  | S n =>
      match split_once sep s with
      | None => [s]
      | Some (a, b) => a :: split_max n sep b
      end
  end.

(** [s.split(sep)]: every occurrence splits; a string of length [n] has at
    most [n] occurrences of a non-empty separator. *)
Definition split (sep s : pystr) : list pystr := split_max (length s) sep s.

(** [parts[i]] where the source has established that the index exists. *)
Definition item (parts : list pystr) (i : nat) : pystr := nth i parts [].

Definition pystr_eqb (a b : pystr) : bool :=
  if list_eq_dec ascii_dec a b then true else false.

(** [s.lower()] on one character: A..Z, and the Latin-1 capitals. *)
Definition lower_char (c : ascii) : ascii :=
  let n := N_of_ascii c in
  if (((65 <=? n) && (n <=? 90))
      || ((192 <=? n) && (n <=? 222) && negb (n =? 215)))%N
  then ascii_of_N (n + 32) else c.

Definition lower (s : pystr) : pystr := map lower_char s.

End PyStr.
Import PyStr.

(** ** RequirementsParser: [parse_requirement_line] *)

Record DependencySpec := mkSpec {
  name : pystr;
  version : pystr;
  raw : pystr
}.

(** The operators in the order the source tries them. *)
Definition operators : list pystr :=
  map str ["=="; ">="; "<="; ">"; "<"; "~="; "!="]%string.

(** The [for operator in [...]] loop: the first operator of the list that
    occurs in the line splits it at its leftmost occurrence. *)
Fixpoint match_operator (ops : list pystr) (line : pystr)
  : option DependencySpec :=
  match ops with
  | [] => None
  | operator :: ops' =>
      if contains operator line then
        let parts := split_max 1 operator line in
        Some (mkSpec (strip (item parts 0))
                     (operator ++ strip (item parts 1))
                     line)
      else match_operator ops' line
  end.

(** The line once its comment is removed: [line.split('#')[0].strip()]. *)
Definition uncomment (line : pystr) : pystr :=
  strip (item (split (str "#") line) 0).

Definition parse_requirement_line (line : pystr) : option DependencySpec :=
  let line := uncomment line in
  match line with
  | [] => None
  | _ :: _ =>
      if startswith line (str "git+") || startswith line (str "http") then
        let parts := split (str "#egg=") line in
        if 1 <? length parts then
          Some (mkSpec (strip (item parts 1)) (str "git") line)
        else Some (mkSpec line (str "url") line)
      else
        match match_operator operators line with
        | Some spec => Some spec
        | None => Some (mkSpec (strip line) (str "latest") line)
        end
  end.

(** [create_branches_sheet], line 768: the text written for one package,
    the name followed by the constraint unless the constraint is "latest". *)
Definition package_text (p : DependencySpec) : pystr :=
  name p ++ (if pystr_eqb (version p) (str "latest") then [] else version p).

(** ** ImportExtractor: regular expressions

    The five patterns of [extract_imports_from_python_content] use anchors,
    literals, the classes [\s] and [\w], greedy repetition and one capturing
    group.  [run] is a backtracking matcher for that fragment: a repetition
    first tries one more iteration and falls back to none, as Python's [re]
    does; an iteration that consumes no character ends the repetition (the
    bodies of the repetitions of the five patterns always consume one). *)

Module Regex.

Inductive regex :=
| Eps
| Bol                          (* ^ under re.MULTILINE *)
| Chr (c : ascii)
| Cls (p : ascii -> bool)      (* \s, \w *)
| Seq (r1 r2 : regex)
| Star (r : regex)             (* r*, greedy *)
| Group (r : regex).           (* ( r ), the pattern's only capturing group *)

Definition Plus (r : regex) : regex := Seq r (Star r).

Fixpoint seqs (rs : list regex) : regex :=
  match rs with
  | [] => Eps
  | r :: rs' => Seq r (seqs rs')
  end.

Definition lit (s : string) : regex := seqs (map Chr (str s)).

(** The matcher's position: the character before it (none at the start of
    the text), the text still to match, and what group 1 has captured. *)
Record mstate := mkState {
  prev : option ascii;
  rest : pystr;
  group1 : pystr
}.

Definition newline : ascii := ascii_of_nat 10.

Definition step_over (st : mstate) (ok : ascii -> bool) : option mstate :=
  match rest st with
  | c :: s' => if ok c then Some (mkState (Some c) s' (group1 st)) else None
  | [] => None
  end.

Fixpoint run (A : Type) (r : regex) (st : mstate)
  (k : mstate -> option A) {struct r} : option A :=
  match r with
  | Eps => k st
  | Bol =>
      match prev st with
      | None => k st
      | Some c => if Ascii.eqb c newline then k st else None
      end
  | Chr c =>
      match step_over st (Ascii.eqb c) with
      | Some st' => k st'
      | None => None
      end
  | Cls p =>
      match step_over st p with
      | Some st' => k st'
      | None => None
      end
  | Seq r1 r2 => run r1 st (fun st1 => run r2 st1 k)
  | Star r' =>
      (fix iter (n : nat) (st : mstate) {struct n} : option A :=
         match n with
         | O => k st
         | S n' =>
             match run r' st
                     (fun st' =>
                        if length (rest st') <? length (rest st)
                        then iter n' st' else None) with
             | Some a => Some a
             | None => k st
             end
         end) (length (rest st)) st
  | Group r' =>
      run r' st
        (fun st' =>
           k (mkState (prev st') (rest st')
                (firstn (length (rest st) - length (rest st')) (rest st))))
  end.

(** A match of [r] that starts at the current position: the text of
    group 1 and the text left after the match. *)
Definition match_here (r : regex) (before : option ascii) (s : pystr)
  : option (pystr * pystr) :=
  run r (mkState before s []) (fun st => Some (group1 st, rest st)).

(** [re.findall(r, s, re.MULTILINE)] for a pattern with one group: the
    group's text for each match, scanning left to right; the search resumes
    where the previous match ended. *)
Fixpoint findall_from (r : regex) (before : option ascii) (skip : nat)
  (s : pystr) {struct s} : list pystr :=
  match skip with
  | S skip' =>
      match s with
      | [] => []
      | c :: s' => findall_from r (Some c) skip' s'
      end
  | O =>
      match match_here r before s with
      | Some (g, after) =>
          g :: match s with
               | [] => []
               | c :: s' =>
                   findall_from r (Some c) (length s - length after - 1) s'
               end
      | None =>
          match s with
          | [] => []
          | c :: s' => findall_from r (Some c) 0 s'
          end
      end
  end.

Definition findall (r : regex) (s : pystr) : list pystr :=
  findall_from r None 0 s.

End Regex.
Import Regex.

(** The class [\w] of a [str] pattern: letters, digits and the underscore,
    including the letters and digits of Latin-1. *)
Definition isword (c : ascii) : bool :=
  let n := N_of_ascii c in
  (((48 <=? n) && (n <=? 57)) || ((65 <=? n) && (n <=? 90)) || (n =? 95)
   || ((97 <=? n) && (n <=? 122))
   || (n =? 170) || (n =? 178) || (n =? 179) || (n =? 181) || (n =? 185)
   || (n =? 186) || ((188 <=? n) && (n <=? 190))
   || ((192 <=? n) && (n <=? 214)) || ((216 <=? n) && (n <=? 246))
   || (248 <=? n))%N.

Definition ws : regex := Cls isspace.
Definition w : regex := Cls isword.

(** [\w+(?:\.\w+)*] *)
Definition dotted : regex := Seq (Plus w) (Star (Seq (Chr "."%char) (Plus w))).

(** [\w+(?:\s*,\s*\w+)*] *)
Definition comma_list : regex :=
  Seq (Plus w) (Star (seqs [Star ws; Chr ","%char; Star ws; Plus w])).

(** The prefix shared by the three [from] patterns: start of line, blanks,
    [from], blanks, the dotted name as group 1, blanks, [import], blanks. *)
Definition from_import : regex :=
  seqs [Bol; Star ws; lit "from"; Plus ws; Group dotted; Plus ws;
        lit "import"; Plus ws].

Definition import_patterns : list regex :=
  [ seqs [Bol; Star ws; lit "import"; Plus ws; Group comma_list];
    from_import;
    Seq from_import (Chr "("%char);
    seqs [Bol; Star ws; lit "import"; Plus ws; Group dotted; Plus ws;
          lit "as"; Plus ws; Plus w];
    seqs [from_import; Plus w; Plus ws; lit "as"; Plus ws; Plus w] ].

Definition std_lib : list pystr :=
  map str
    ["abc"; "argparse"; "asyncio"; "collections"; "concurrent"; "contextlib";
     "copy"; "csv"; "datetime"; "decimal"; "email"; "enum"; "functools";
     "glob"; "hashlib"; "http"; "importlib"; "inspect"; "io"; "itertools";
     "json"; "logging"; "math"; "multiprocessing"; "operator"; "os";
     "pathlib"; "pickle"; "random"; "re"; "shutil"; "signal"; "socket";
     "sqlite3"; "statistics"; "string"; "subprocess"; "sys"; "tempfile";
     "threading"; "time"; "traceback"; "typing"; "uuid"; "warnings";
     "weakref"; "xml"; "zipfile"]%string.

(** [x in a_set] and [a_set.add(x)] for a set of strings, kept as a list
    without repetition in the order of insertion. *)
Definition pystr_dec : forall a b : pystr, {a = b} + {a <> b} :=
  list_eq_dec ascii_dec.

Definition set_mem (x : pystr) (s : list pystr) : bool :=
  if in_dec pystr_dec x s then true else false.

Definition set_add (x : pystr) (s : list pystr) : list pystr :=
  if set_mem x s then s else s ++ [x].

(** The innermost loop: [for module in match.split(',')]. *)
Definition add_modules (imports : list pystr) (found : pystr) : list pystr :=
  fold_left
    (fun imports module =>
       let top_level := item (split (str ".") (strip module)) 0 in
       match top_level with
       | [] => imports
       | _ :: _ => set_add top_level imports
       end)
    (split (str ",") found) imports.

Definition add_line_imports (imports : list pystr) (line : pystr)
  : list pystr :=
  if startswith (strip line) (str "#") then imports
  else
    fold_left
      (fun imports pattern =>
         fold_left add_modules (findall pattern line) imports)
      import_patterns imports.

Definition extract_imports_from_python_content (content : pystr)
  : list (pystr * bool) :=
  let imports :=
    fold_left add_line_imports (split [newline] content) [] in
  map (fun imp => (imp, set_mem imp std_lib)) imports.

(** ** Exceptions, responses and the world

    Only the classes that the source's [except] clauses tell apart are
    distinguished. *)

Inductive exn :=
| RequestException          (* ConnectionError, Timeout, ... *)
| ChunkedEncodingError      (* a RequestException *)
| RequestsJSONDecodeError   (* requests' own: a RequestException and a
                               json.JSONDecodeError *)
| JSONDecodeError           (* json.JSONDecodeError, a ValueError *)
| ValueError
| OverflowError
| OtherError.               (* TypeError, AttributeError, KeyError, ... *)

Definition isRequestException (e : exn) : bool :=
  match e with
  | RequestException | ChunkedEncodingError | RequestsJSONDecodeError => true
  | _ => false
  end.

Definition isJSONDecodeError (e : exn) : bool :=
  match e with
  | RequestsJSONDecodeError | JSONDecodeError => true
  | _ => false
  end.

Inductive result (A : Type) :=
| Ok (a : A)
| Raise (e : exn).
Arguments Ok {A} a.
Arguments Raise {A} e.

(** A response of [requests.get]: its status, its headers, its text and
    what [response.json()] gives, a body of the endpoint's shape or an
    exception. *)
Record Response (B : Type) := mkResponse {
  status_code : Z;
  headers : list (pystr * pystr);
  text : pystr;
  json : result B
}.

(** What one call of [requests.get] does: it returns a response or raises. *)
Inductive outcome (B : Type) :=
| Responds (r : Response B)
| Fails (e : exn).
Arguments Fails {B} e.

(** [requests.get]: the next outcome of the endpoint's queue.  A call on an
    exhausted queue raises (the connection is gone). *)
Definition requests_get (B : Type) (q : list (outcome B))
  : outcome B * list (outcome B) :=
  match q with
  | [] => (Fails RequestException, [])
  | o :: q' => (o, q')
  end.

(** [key in response.headers] and [response.headers.get(key)]: header names
    compare without regard to case. *)
Fixpoint header_get (h : list (pystr * pystr)) (key : pystr) : option pystr :=
  match h with
  | [] => None
  | (k, v) :: h' =>
      if pystr_eqb (lower k) (lower key) then Some v else header_get h' key
  end.

(** *** [int(text)] *)

(** The blanks [int] ignores around a number. *)
Definition int_blank (c : ascii) : bool :=
  let n := N_of_ascii c in
  (((9 <=? n) && (n <=? 13)) || (n =? 32) || (n =? 133) || (n =? 160))%N.

Definition digit_value (c : ascii) : option Z :=
  let n := N_of_ascii c in
  if ((48 <=? n) && (n <=? 57))%N then Some (Z.of_N n - 48)%Z else None.

(** Digits, with single underscores allowed between two digits.
    [after_digit] tells whether the previous character was a digit. *)
Fixpoint digits_value (acc : Z) (after_digit : bool) (s : pystr) : option Z :=
  match s with
  | [] => if after_digit then Some acc else None
  | c :: s' =>
      match digit_value c with
      | Some d => digits_value (10 * acc + d)%Z true s'
      | None =>
          if Ascii.eqb c "_"%char && after_digit then
            match s' with
            | [] => None
            | _ :: _ => digits_value acc false s'
            end
          else None
      end
  end.

Fixpoint drop_blanks (s : pystr) : pystr :=
  match s with
  | [] => []
  | c :: s' => if int_blank c then drop_blanks s' else s
  end.

(** [int(s)] for a string [s]: [None] stands for ValueError. *)
Definition py_int (s : pystr) : option Z :=
  let s := rev (drop_blanks (rev (drop_blanks s))) in
  match s with
  | [] => None
  | c :: s' =>
      if Ascii.eqb c "-"%char then option_map Z.opp (digits_value 0 false s')
      else if Ascii.eqb c "+"%char then digits_value 0 false s'
      else digits_value 0 false s
  end.

(** *** Python's floats *)

(** [float(z)] for an int [z]: the nearest float, ties to even.  [None]
    stands for the OverflowError of an int beyond the floats. *)
Definition float_of_int (z : Z) : option float :=
  let x := SF2Prim (binary_normalize prec emax z 0 false) in
  if PrimFloat.is_infinity x then None else Some x.

(** [int(x)] for a float [x]: the integer part, rounding toward zero;
    OverflowError for an infinity, ValueError for a NaN. *)
Definition int_of_float (x : float) : result Z :=
  match Prim2SF x with
  | S754_zero _ => Ok 0%Z
  | S754_finite sign m e =>
      let n := if (0 <=? e)%Z then Z.shiftl (Zpos m) e
               else Z.shiftr (Zpos m) (- e) in
      Ok (if sign then (- n)%Z else n)
  | S754_infinity _ => Raise OverflowError
  | S754_nan => Raise ValueError
  end.

(** The number a finite float stands for. *)
Definition Q_of_float (x : float) : Q :=
  match Prim2SF x with
  | S754_finite sign m e =>
      let q := if (0 <=? e)%Z then inject_Z (Z.shiftl (Zpos m) e)
               else Zpos m # (2 ^ Z.to_pos (- e)) in
      Qred (if sign then - q else q)
  | _ => 0
  end.

(** *** The world: clock, pauses and console *)

(** The two console messages of [get_all_org_repos] that tell what it does
    with the network: the one before each page request (line 84) and the
    one after each page is merged (line 117).  The other messages are not
    recorded. *)
Inductive message :=
| FetchingPage (page per_page : nat)
| AddedNew (added total : nat).

(** The clock is read, never computed: [now n] is what the call number
    [n] of [time.time()] returns.  A pause is logged with its length in
    seconds.  [too_long] tells the finite pauses that [time.sleep] refuses
    with OverflowError, a limit of the platform's timer. *)
Record World := mkWorld {
  now : nat -> float;
  reads : nat;             (* the calls of [time.time()] so far *)
  slept : list Q;          (* the durations of the [time.sleep] calls so far *)
  stdout : list message;
  too_long : float -> bool
}.

(** [time.time()] *)
Definition time_time (wd : World) : float * World :=
  (now wd (reads wd),
   mkWorld (now wd) (S (reads wd)) (slept wd) (stdout wd) (too_long wd)).

(** [time.sleep(d)] for a pause that the timer accepts: the literal pauses
    of the source (0.1, 0.5, 1, 2 and 4 seconds) are of this kind. *)
Definition time_sleep (d : Q) (wd : World) : World :=
  mkWorld (now wd) (reads wd) (slept wd ++ [d]) (stdout wd) (too_long wd).

(** [time.sleep(x)] for a computed float [x]: ValueError for a NaN or a
    negative pause, OverflowError for an infinite one or one beyond the
    timer. *)
Definition py_sleep (x : float) (wd : World) : result unit * World :=
  if PrimFloat.is_nan x then (Raise ValueError, wd)
  else if PrimFloat.is_infinity x || too_long wd x
  then (Raise OverflowError, wd)
  else if PrimFloat.ltb x 0 then (Raise ValueError, wd)
  else (Ok tt, time_sleep (Q_of_float x) wd).

Definition print (m : message) (wd : World) : World :=
  mkWorld (now wd) (reads wd) (slept wd) (stdout wd ++ [m]) (too_long wd).

(** ** RateLimiter: [handle_rate_limiting] *)

Definition rate_limit_exceeded (B : Type) (response : Response B) : bool :=
  (status_code response =? 403)%Z
  && contains (str "rate limit exceeded") (lower (text response)).

(** Line 163: the test that sends the function to its pause. *)
Definition pause_due (remaining : Z) (B : Type) (response : Response B)
  : bool :=
  (remaining =? 0)%Z || rate_limit_exceeded response.

(** [int(response.headers.get('X-RateLimit-Reset', time.time() + 3600))],
    where [t] is the reading of the clock taken for the default value (the
    call is made whether the header is there or not). *)
Definition reset_epoch (B : Type) (response : Response B) (t : float)
  : result Z :=
  match header_get (headers response) (str "X-RateLimit-Reset") with
  | Some v =>
      match py_int v with
      | Some reset_time => Ok reset_time
      | None => Raise ValueError
      end
  | None => int_of_float (PrimFloat.add t 3600)
  end.

(** [max(reset_time - t, 0) + 1] for the reading [t] of the clock: the
    int is turned into a float, [max] keeps the difference unless 0 is
    greater, and 0 + 1 is the int 1, which pauses as the float 1.0. *)
Definition wait_time (reset_time : Z) (t : float) : result float :=
  match float_of_int reset_time with
  | None => Raise OverflowError
  | Some r =>
      let ahead := PrimFloat.sub r t in
      Ok (if PrimFloat.ltb ahead 0 then 1%float else PrimFloat.add ahead 1)
  end.

(** Lines 164-168. *)
Definition pause (B : Type) (response : Response B) (wd : World)
  : result bool * World :=
  let '(t, wd) := time_time wd in
  match reset_epoch response t with
  | Raise e => (Raise e, wd)
  | Ok reset_time =>
      let '(t, wd) := time_time wd in
      match wait_time reset_time t with
      | Raise e => (Raise e, wd)
      | Ok wait =>
          match py_sleep wait wd with
          | (Raise e, wd) => (Raise e, wd)
          | (Ok _, wd) => (Ok true, wd)
          end
      end
  end.

Definition handle_rate_limiting (B : Type) (response : Response B)
  (wd : World) : result bool * World :=
  match header_get (headers response) (str "X-RateLimit-Remaining") with
  | Some v =>
      match py_int v with
      | None => (Raise ValueError, wd)
      | Some remaining =>
          if pause_due remaining response then pause response wd
          else (Ok false, wd)
      end
  | None => (Ok false, wd)
  end.

(** ** Entities of the API, as the code reads them *)

(** A repository summary of a listing page: [repo['name']],
    [r.get('owner', {}).get('login')] and the metadata copied to the
    report. *)
Record Repo := mkRepo {
  repo_name : pystr;
  repo_owner_login : option pystr;
  repo_full_name : option pystr;
  repo_language : option pystr;
  repo_default_branch : option pystr
}.

(** The body of [GET /user]. *)
Record UserData := mkUserData { login : option pystr }.

(** The body of [GET /repos/R/branches/B]:
    [branch_data.get('commit', {}).get('sha')]. *)
Record BranchData := mkBranchData { commit_sha : option pystr }.

(** A file entry, of the recursive tree or built by the directory walk. *)
Record FileEntry := mkFileEntry {
  entry_path : option pystr;
  entry_type : option pystr;
  entry_url : option pystr
}.

(** The body of [GET /repos/R/git/trees/SHA?recursive=1]:
    [tree_data.get('truncated', False)] and [tree_data.get('tree', [])]. *)
Record TreeData := mkTreeData {
  truncated : bool;
  tree : list FileEntry
}.

(** An entry of a directory listing, [GET /repos/R/contents/DIR]. *)
Record ContentItem := mkContentItem {
  item_type : option pystr;
  item_name : option pystr;
  item_path : option pystr;
  item_url : option pystr
}.

(** The body of [GET /repos/R/contents/FILE] when it is a JSON object:
    what [get('encoding')] and [get('content')] give. *)
Record FileObject := mkFileObject {
  encoding : option pystr;
  content : option pystr
}.

(** A decoded body is an object or another JSON value (the list that the
    endpoint gives for a directory, a string, a number, null), which has no
    [get]: calling it raises AttributeError. *)
Inductive FileData :=
| JsonObject (file_data : FileObject)
| JsonOther.

(** The answers of the network, one queue per endpoint. *)
Record Net := mkNet {
  user_q : list (outcome UserData);
  org_repos_q : list (outcome (list Repo));
  user_repos_q : list (outcome (list Repo));
  branch_q : list (outcome BranchData);
  tree_q : list (outcome TreeData);
  contents_q : list (outcome (list ContentItem));
  file_q : list (outcome FileData)
}.

Definition set_user_q q (n : Net) : Net :=
  mkNet q (org_repos_q n) (user_repos_q n) (branch_q n) (tree_q n)
        (contents_q n) (file_q n).
Definition set_org_repos_q q (n : Net) : Net :=
  mkNet (user_q n) q (user_repos_q n) (branch_q n) (tree_q n)
        (contents_q n) (file_q n).
Definition set_user_repos_q q (n : Net) : Net :=
  mkNet (user_q n) (org_repos_q n) q (branch_q n) (tree_q n)
        (contents_q n) (file_q n).
Definition set_branch_q q (n : Net) : Net :=
  mkNet (user_q n) (org_repos_q n) (user_repos_q n) q (tree_q n)
        (contents_q n) (file_q n).
Definition set_tree_q q (n : Net) : Net :=
  mkNet (user_q n) (org_repos_q n) (user_repos_q n) (branch_q n) q
        (contents_q n) (file_q n).
Definition set_contents_q q (n : Net) : Net :=
  mkNet (user_q n) (org_repos_q n) (user_repos_q n) (branch_q n) (tree_q n)
        q (file_q n).
Definition set_file_q q (n : Net) : Net :=
  mkNet (user_q n) (org_repos_q n) (user_repos_q n) (branch_q n) (tree_q n)
        (contents_q n) q.

(** The environment variables the functions read. *)
Record Env := mkEnv {
  GITHUB_TOKEN : option pystr;
  ORG_NAME : option pystr
}.

(** Truth value of [os.environ.get(...)]: set and not empty. *)
Definition env_value (v : option pystr) : option pystr :=
  match v with
  | Some (c :: s) => Some (c :: s)
  | _ => None
  end.

Definition opt_eqb (a : option pystr) (b : pystr) : bool :=
  match a with
  | Some x => pystr_eqb x b
  | None => false
  end.

(** [d.get(key, '')] for a key holding a string. *)
Definition or_empty (v : option pystr) : pystr :=
  match v with
  | Some x => x
  | None => []
  end.

(** ** PaginatedFetcher: [get_all_org_repos] *)

Inductive endpoint := OrgRepos | UserRepos.

(** The two addresses of lines 56-59. *)
Definition endpoint_base (org_name : pystr) (ep : endpoint) : pystr :=
  match ep with
  | OrgRepos => str "https://api.github.com/orgs/" ++ org_name ++ str "/repos"
  | UserRepos => str "https://api.github.com/user/repos"
  end.

(** ['user/repos' in endpoint_base], the test of lines 81 and 103: true of
    the second address, and of the first one too when the name of the
    organisation ends in "user". *)
Definition filters_owner (org_name : pystr) (ep : endpoint) : bool :=
  contains (str "user/repos") (endpoint_base org_name ep).

Definition per_page : nat := 100.

(** [limit and len(all_repos) >= limit] *)
Definition limit_reached (limit : option Z) (all_repos : list Repo) : bool :=
  match limit with
  | Some l => negb (l =? 0)%Z && (l <=? Z.of_nat (length all_repos))%Z
  | None => false
  end.

(** [limit and len(all_repos) > limit] *)
Definition limit_exceeded (limit : option Z) (all_repos : list Repo) : bool :=
  match limit with
  | Some l => negb (l =? 0)%Z && (l <? Z.of_nat (length all_repos))%Z
  | None => false
  end.

(** [xs[:n]] for an integer [n]; a negative [n] counts from the end. *)
Definition slice_to (A : Type) (xs : list A) (n : Z) : list A :=
  if (n <? 0)%Z then firstn (length xs - Z.to_nat (- n)) xs
  else firstn (Z.to_nat n) xs.

(** [{r['name'] for r in all_repos}] *)
Definition names_of (all_repos : list Repo) : list pystr :=
  fold_left (fun names r => set_add (repo_name r) names) all_repos [].

(** Lines 109-114: the repositories of a page whose name is new. *)
Fixpoint collect_new (repos_page : list Repo) (existing_names : list pystr)
  (new_repos : list Repo) : list Repo :=
  match repos_page with
  | [] => new_repos
  | repo :: page' =>
      if set_mem (repo_name repo) existing_names
      then collect_new page' existing_names new_repos
      else collect_new page' (set_add (repo_name repo) existing_names)
                       (new_repos ++ [repo])
  end.

Definition new_repos_of (all_repos repos_page : list Repo) : list Repo :=
  collect_new repos_page (names_of all_repos) [].

Definition dquote : ascii := ascii_of_nat 34.

(** The text [rel="next"]. *)
Definition rel_next : pystr := str "rel=" ++ [dquote] ++ str "next" ++ [dquote].

(** How one pass of the [while True] loop ends when no exception leaves
    it: with [break], or with another pass ([continue], or the end of the
    body) for the given page. *)
Inductive pass_end :=
| Break (all_repos : list Repo)
| NextPass (page : nat) (all_repos : list Repo).

(** The body of the loop from line 87 on, for the response received. *)
Definition merge_page (limit : option Z) (org_name : pystr) (ep : endpoint)
  (page : nat) (all_repos : list Repo) (response : Response (list Repo))
  (wd : World) : result pass_end * World :=
  match handle_rate_limiting response wd with
  | (Raise e, wd) => (Raise e, wd)
  | (Ok true, wd) => (Ok (NextPass page all_repos), wd)
  | (Ok false, wd) =>
      if negb (status_code response =? 200)%Z then (Ok (Break all_repos), wd)
      else
        match json response with
        | Raise e => (Raise e, wd)
        | Ok [] => (Ok (Break all_repos), wd)
        | Ok (r0 :: page0) =>
            let repos_page :=
              if filters_owner org_name ep
              then filter (fun r => opt_eqb (repo_owner_login r) org_name)
                          (r0 :: page0)
              else r0 :: page0 in
            let new_repos := new_repos_of all_repos repos_page in
            let all_repos := all_repos ++ new_repos in
            let wd :=
              print (AddedNew (length new_repos) (length all_repos)) wd in
            if limit_reached limit all_repos then (Ok (Break all_repos), wd)
            else
              let last_page :=
                match header_get (headers response) (str "Link") with
                | Some links => negb (contains rel_next links)
                | None => length repos_page <? per_page
                end in
              if last_page then (Ok (Break all_repos), wd)
              else (Ok (NextPass (page + 1) all_repos), time_sleep (1 # 2) wd)
        end
  end.

(** The [while True] loop of one endpoint.  Each pass issues one request
    and so consumes one outcome of the endpoint's queue; [break] ends the
    loop with the repositories collected so far. *)
Fixpoint fetch_pages (limit : option Z) (org_name : pystr) (ep : endpoint)
  (page : nat) (all_repos : list Repo) (q : list (outcome (list Repo)))
  (wd : World) {struct q}
  : result (list Repo) * list (outcome (list Repo)) * World :=
  let wd := print (FetchingPage page per_page) wd in
  match q with
  | [] => (Raise RequestException, [], wd)
  | Fails e :: q' => (Raise e, q', wd)
  | Responds response :: q' =>
      match merge_page limit org_name ep page all_repos response wd with
      | (Raise e, wd) => (Raise e, q', wd)
      | (Ok (Break all_repos), wd) => (Ok all_repos, q', wd)
      | (Ok (NextPass page all_repos), wd) =>
          fetch_pages limit org_name ep page all_repos q' wd
      end
  end.

Definition endpoint_q (ep : endpoint) (net : Net) :=
  match ep with
  | OrgRepos => org_repos_q net
  | UserRepos => user_repos_q net
  end.

Definition set_endpoint_q (ep : endpoint) q (net : Net) : Net :=
  match ep with
  | OrgRepos => set_org_repos_q q net
  | UserRepos => set_user_repos_q q net
  end.

(** The [for endpoint_base in endpoints] loop. *)
Fixpoint for_endpoints (endpoints : list endpoint) (limit : option Z)
  (org_name : pystr) (all_repos : list Repo) (net : Net) (wd : World)
  : result (list Repo) * Net * World :=
  match endpoints with
  | [] => (Ok all_repos, net, wd)
  | ep :: endpoints' =>
      if limit_reached limit all_repos then (Ok all_repos, net, wd)
      else
        match fetch_pages limit org_name ep 1 all_repos (endpoint_q ep net) wd
        with
        | (Raise e, q, wd) => (Raise e, set_endpoint_q ep q net, wd)
        | (Ok all_repos, q, wd) =>
            for_endpoints endpoints' limit org_name all_repos
                          (set_endpoint_q ep q net) wd
        end
  end.

(** The body of the [try] block of [get_all_org_repos]. *)
Definition list_repos (limit : option Z) (org_name : pystr) (net : Net)
  (wd : World) : result (option (list Repo)) * Net * World :=
  match requests_get (user_q net) with
  | (Fails e, q) => (Raise e, set_user_q q net, wd)
  | (Responds user_response, q) =>
      let net := set_user_q q net in
      if negb (status_code user_response =? 200)%Z then (Ok None, net, wd)
      else
        match json user_response with
        | Raise e => (Raise e, net, wd)
        | Ok user_data =>
            match for_endpoints [OrgRepos; UserRepos] limit org_name [] net wd
            with
            | (Raise e, net, wd) => (Raise e, net, wd)
            | (Ok all_repos, net, wd) =>
                let all_repos :=
                  match limit with
                  | Some l =>
                      if limit_exceeded limit all_repos
                      then slice_to all_repos l else all_repos
                  | None => all_repos
                  end in
                (Ok (Some all_repos), net, wd)
            end
        end
  end.

(** [get_all_org_repos(limit)]: [Ok None] is the source's [return None]. *)
Definition get_all_org_repos (limit : option Z) (env : Env) (net : Net)
  (wd : World) : result (option (list Repo)) * Net * World :=
  match env_value (GITHUB_TOKEN env), env_value (ORG_NAME env) with
  | Some github_token, Some org_name =>
      match list_repos limit org_name net wd with
      | (Raise e, net, wd) =>
          if isRequestException e then (Ok None, net, wd)
          else (Raise e, net, wd)
      | ok => ok
      end
  | _, _ => (Ok None, net, wd)
  end.

(** ** BranchTreeResolver: [get_branch_tree] and the directory walk *)

(** [item.get('type') == 'file' and item.get('name', '').endswith('.py')] *)
Definition is_python_file (item : ContentItem) : bool :=
  opt_eqb (item_type item) (str "file")
  && endswith (or_empty (item_name item)) (str ".py").

Definition as_blob (item : ContentItem) : FileEntry :=
  mkFileEntry (item_path item) (Some (str "blob")) (item_url item).

(** The handler [except (RequestException, json.JSONDecodeError)]. *)
Definition caught_by_walk (e : exn) : bool :=
  isRequestException e || isJSONDecodeError e.

(** [get_directory_python_files]: one request for the directory's listing,
    with no look at the rate limit. *)
Definition get_directory_python_files (dir_path : option pystr) (net : Net)
  (wd : World) : result (list FileEntry) * Net * World :=
  let '(o, q) := requests_get (contents_q net) in
  let net := set_contents_q q net in
  let handler e :=
    if caught_by_walk e then (Ok [], net, wd) else (Raise e, net, wd) in
  match o with
  | Fails e => handler e
  | Responds dir_response =>
      if negb (status_code dir_response =? 200)%Z then (Ok [], net, wd)
      else
        match json dir_response with
        | Raise e => handler e
        | Ok dir_contents =>
            (Ok (map as_blob (filter is_python_file dir_contents)), net, wd)
        end
  end.

Definition important_dirs : list pystr :=
  map str ["src"; "app"; "lib"; "core"; "models"; "utils"]%string.

(** The loop over the entries of the root directory. *)
Fixpoint walk_root (root_contents : list ContentItem)
  (python_files : list FileEntry) (net : Net) (wd : World)
  : result (list FileEntry) * Net * World :=
  match root_contents with
  | [] => (Ok python_files, net, wd)
  | item :: items' =>
      if is_python_file item then
        walk_root items' (python_files ++ [as_blob item]) net wd
      else if opt_eqb (item_type item) (str "dir") then
        if match item_name item with
           | Some n => set_mem n important_dirs
           | None => false
           end
        then
          match get_directory_python_files (item_path item) net wd with
          | (Raise e, net, wd) => (Raise e, net, wd)
          | (Ok dir_files, net, wd) =>
              walk_root items' (python_files ++ dir_files) net wd
          end
        else walk_root items' python_files net wd
      else walk_root items' python_files net wd
  end.

(** The loop [for dir_name in ['src', 'app', 'lib']]. *)
Fixpoint probe_dirs (dir_names : list pystr) (python_files : list FileEntry)
  (net : Net) (wd : World) : result (list FileEntry) * Net * World :=
  match dir_names with
  | [] => (Ok python_files, net, wd)
  | dir_name :: names' =>
      match get_directory_python_files (Some dir_name) net wd with
      | (Raise e, net, wd) => (Raise e, net, wd)
      | (Ok dir_files, net, wd) =>
          probe_dirs names' (python_files ++ dir_files) net wd
      end
  end.

(** [get_python_files_alternative]: the directory-walk fallback. *)
Definition get_python_files_alternative (net : Net) (wd : World)
  : result (list FileEntry) * Net * World :=
  let '(o, q) := requests_get (contents_q net) in
  let net := set_contents_q q net in
  let handler (st : Net * World) e :=
    if caught_by_walk e then (Ok [], fst st, snd st)
    else (Raise e, fst st, snd st) in
  match o with
  | Fails e => handler (net, wd) e
  | Responds root_response =>
      match handle_rate_limiting root_response wd with
      | (Raise e, wd) => handler (net, wd) e
      | (Ok true, wd) => (Ok [], net, wd)
      | (Ok false, wd) =>
          if negb (status_code root_response =? 200)%Z then (Ok [], net, wd)
          else
            match json root_response with
            | Raise e => handler (net, wd) e
            | Ok root_contents =>
                match walk_root root_contents [] net wd with
                | (Raise e, net, wd) => handler (net, wd) e
                | (Ok python_files, net, wd) =>
                    if length python_files <? 5 then
                      match probe_dirs (map str ["src"; "app"; "lib"]%string)
                                       python_files net wd with
                      | (Raise e, net, wd) => handler (net, wd) e
                      | ok => ok
                      end
                    else (Ok python_files, net, wd)
                end
            end
      end
  end.

(** [item.get('type') == 'blob' and item.get('path', '').endswith('.py')] *)
Definition is_python_blob (item : FileEntry) : bool :=
  opt_eqb (entry_type item) (str "blob")
  && endswith (or_empty (entry_path item)) (str ".py").

(** What one pass of the [for attempt in range(max_retries)] loop ends
    with when no exception leaves it: a [return], or the next pass
    ([continue]). *)
Inductive attempt_end :=
| Return (python_files : list FileEntry)
| NextAttempt.

(** [return get_python_files_alternative(...)] *)
Definition return_alternative (net : Net) (wd : World)
  : result attempt_end * Net * World :=
  match get_python_files_alternative net wd with
  | (Ok python_files, net, wd) => (Ok (Return python_files), net, wd)
  | (Raise e, net, wd) => (Raise e, net, wd)
  end.

(** The body of the inner [try]: the request for the recursive tree. *)
Definition try_tree (net : Net) (wd : World)
  : result attempt_end * Net * World :=
  let '(o, q) := requests_get (tree_q net) in
  let net := set_tree_q q net in
  match o with
  | Fails e => (Raise e, net, wd)
  | Responds tree_response =>
      match handle_rate_limiting tree_response wd with
      | (Raise e, wd) => (Raise e, net, wd)
      | (Ok true, wd) => (Ok NextAttempt, net, wd)
      | (Ok false, wd) =>
          if negb (status_code tree_response =? 200)%Z
          then return_alternative net wd
          else
            match json tree_response with
            | Raise e => (Raise e, net, wd)
            | Ok tree_data =>
                if truncated tree_data then return_alternative net wd
                else
                  (Ok (Return (filter is_python_blob (tree tree_data))),
                   net, wd)
            end
      end
  end.

(** The inner [try] with its handler
    [except (RequestException, ChunkedEncodingError)]. *)
Definition fetch_tree (net : Net) (wd : World)
  : result attempt_end * Net * World :=
  match try_tree net wd with
  | (Raise e, net, wd) =>
      if isRequestException e then return_alternative net wd
      else (Raise e, net, wd)
  | ok => ok
  end.

(** The outer [try]: the request for the branch reference, then the tree. *)
Definition resolve_ref (net : Net) (wd : World)
  : result attempt_end * Net * World :=
  let '(o, q) := requests_get (branch_q net) in
  let net := set_branch_q q net in
  match o with
  | Fails e => (Raise e, net, wd)
  | Responds ref_response =>
      match handle_rate_limiting ref_response wd with
      | (Raise e, wd) => (Raise e, net, wd)
      | (Ok true, wd) => (Ok NextAttempt, net, wd)
      | (Ok false, wd) =>
          if negb (status_code ref_response =? 200)%Z
          then (Ok (Return []), net, wd)
          else
            match json ref_response with
            | Raise e => (Raise e, net, wd)
            | Ok branch_data =>
                match commit_sha branch_data with
                | None | Some [] => (Ok (Return []), net, wd)
                | Some (_ :: _) => fetch_tree net wd
                end
            end
      end
  end.

Definition max_retries : nat := 3.

(** The loop [for attempt in range(max_retries)] with the handler of the
    outer [try], [except (RequestException, json.JSONDecodeError)], and the
    call that follows the loop. *)
Fixpoint attempts (todo : list nat) (net : Net) (wd : World)
  : result (list FileEntry) * Net * World :=
  match todo with
  | [] => get_python_files_alternative net wd
  | attempt :: todo' =>
      match resolve_ref net wd with
      | (Ok (Return python_files), net, wd) => (Ok python_files, net, wd)
      | (Ok NextAttempt, net, wd) => attempts todo' net wd
      | (Raise e, net, wd) =>
          if isRequestException e || isJSONDecodeError e then
            attempts todo' net (time_sleep (inject_Z (2 ^ Z.of_nat attempt)) wd)
          else (Raise e, net, wd)
      end
  end.

Definition get_branch_tree (net : Net) (wd : World)
  : result (list FileEntry) * Net * World :=
  attempts (seq 0 max_retries) net wd.

(** ** ManifestLocator: [find_file_in_branch] *)

Section ManifestLocator.

(** [base64.b64decode(text).decode('utf-8', errors='replace')], a function
    of the Python library: the decoded text, or the exception it raises. *)
Variable b64decode_utf8 : pystr -> result pystr.

(** The [try] block: any exception inside it is swallowed. *)
Definition decode_file (file_response : Response FileData) : option pystr :=
  match json file_response with
  | Raise _ => None
  | Ok JsonOther => None
  | Ok (JsonObject file_data) =>
      if opt_eqb (encoding file_data) (str "base64") then
        match content file_data with
        | None => None
        | Some text =>
            match b64decode_utf8 text with
            | Ok decoded => Some decoded
            | Raise _ => None
            end
        end
      else None
  end.

Definition find_file_in_branch (net : Net) (wd : World)
  : result (option pystr) * Net * World :=
  let '(o, q) := requests_get (file_q net) in
  let net := set_file_q q net in
  match o with
  | Fails e => (Raise e, net, wd)
  | Responds file_response =>
      match handle_rate_limiting file_response wd with
      | (Raise e, wd) => (Raise e, net, wd)
      | (Ok true, wd) => (Ok None, net, wd)
      | (Ok false, wd) =>
          if negb (status_code file_response =? 200)%Z then (Ok None, net, wd)
          else (Ok (decode_file file_response), net, wd)
      end
  end.

End ManifestLocator.

(** ** BranchLister: [get_repository_branches] *)

(** An entry of [GET /repos/R/branches]: [branch.get('name')]. *)
Record BranchSummary := mkBranchSummary { branch_name : option pystr }.

(** The [while True] loop of [get_repository_branches].  Each pass issues
    one request and consumes one outcome of the queue of the endpoint; the
    page number only enters the address of the request.  Nothing is caught:
    an exception of the request, of the rate limiter or of the JSON decoder
    leaves the function. *)
Fixpoint branch_pages (all_branches : list BranchSummary)
  (q : list (outcome (list BranchSummary))) (wd : World) {struct q}
  : result (list BranchSummary) * list (outcome (list BranchSummary)) * World :=
  match q with
  | [] => (Raise RequestException, [], wd)
  | Fails e :: q' => (Raise e, q', wd)
  | Responds branches_response :: q' =>
      match handle_rate_limiting branches_response wd with
      | (Raise e, wd) => (Raise e, q', wd)
      | (Ok true, wd) => branch_pages all_branches q' wd
      | (Ok false, wd) =>
          if negb (status_code branches_response =? 200)%Z
          then (Ok all_branches, q', wd)
          else
            match json branches_response with
            | Raise e => (Raise e, q', wd)
            | Ok [] => (Ok all_branches, q', wd)
            | Ok (b0 :: page0) =>
                let branches_page := b0 :: page0 in
                let all_branches := all_branches ++ branches_page in
                if length branches_page <? per_page
                then (Ok all_branches, q', wd)
                else branch_pages all_branches q' (time_sleep (1 # 2) wd)
            end
      end
  end.

Definition get_repository_branches
  (q : list (outcome (list BranchSummary))) (wd : World)
  : result (list BranchSummary) * list (outcome (list BranchSummary)) * World :=
  branch_pages [] q wd.

(** ** Requirement files: lines 570-576 of [find_python_project_files] *)

(** The line boundaries of [str.splitlines]: LF, VT, FF, CR, FS, GS, RS and
    NEL; CR followed by LF is one boundary. *)
Definition line_break (c : ascii) : bool :=
  let n := N_of_ascii c in
  (((10 <=? n) && (n <=? 13)) || ((28 <=? n) && (n <=? 30)) || (n =? 133))%N.

Definition carriage_return : ascii := ascii_of_nat 13.

(** [s.splitlines()], with [line] the part of the current line already
    read.  A text that ends with a boundary has no empty last line. *)
Fixpoint splitlines_from (line s : pystr) {struct s} : list pystr :=
  match s with
  | [] => match line with [] => [] | _ :: _ => [line] end
  | c :: s' =>
      if line_break c then
        line :: match s' with
                | d :: s'' =>
                    if Ascii.eqb c carriage_return && Ascii.eqb d newline
                    then splitlines_from [] s''
                    else splitlines_from [] s'
                | [] => []
                end
      else splitlines_from (line ++ [c]) s'
  end.

Definition splitlines (s : pystr) : list pystr := splitlines_from [] s.

(** The test of line 573 on a stripped line:
    [line and not line.startswith('#')]. *)
Definition is_requirement (line : pystr) : bool :=
  match line with
  | [] => false
  | _ :: _ => negb (startswith line (str "#"))
  end.

(** The loop of lines 571-576.  A [package_info] is a dictionary of three
    keys, so [if package_info] tells a result from [None]. *)
Definition requirements_packages_of (requirements_content : pystr)
  : list DependencySpec :=
  fold_left
    (fun packages line =>
       let line := strip line in
       if is_requirement line then
         match parse_requirement_line line with
         | Some package_info => packages ++ [package_info]
         | None => packages
         end
       else packages)
    (splitlines requirements_content) [].

(** ** ImportAnalyzer and the scan of the repositories *)

(** [branch_data] of [find_python_project_files]. *)
Record BranchInfo := mkBranchInfo {
  info_name : option pystr;
  is_default : bool;
  has_pyproject : bool;
  has_requirements : bool;
  has_setup_py : bool;
  requirements_content : option pystr;
  requirements_packages : list DependencySpec;
  pyproject_content : option pystr;
  python_imports : list (pystr * bool);
  python_files_analyzed : bool       (* 0 until it is set to True *)
}.

(** [repo_data] of [find_python_project_files].  The keys that copy a field
    of the listing ('name', 'url', 'description', 'language', 'last_updated',
    'created_at', 'stars', 'forks', 'default_branch') are read through
    [listing]. *)
Record RepoData := mkRepoData {
  listing : Repo;
  full_name : pystr;
  branches : list BranchInfo;
  has_python_files : bool
}.

(** The answers of the network to a scan: the branch listings, and the
    endpoints of [Net]. *)
Record Scan := mkScan {
  branch_list_q : list (outcome (list BranchSummary));
  api : Net
}.

(** The truth value of a string that may be [None]. *)
Definition nonempty (v : option pystr) : bool :=
  match v with
  | Some (_ :: _) => true
  | _ => false
  end.

(** [a == b] for two values that are a string or [None]. *)
Definition option_eqb (a b : option pystr) : bool :=
  match a, b with
  | Some x, Some y => pystr_eqb x y
  | None, None => true
  | _, _ => false
  end.

Definition import_dec : forall a b : pystr * bool, {a = b} + {a <> b}.
Proof. decide equality; [apply bool_dec | apply pystr_dec]. Defined.

(** [all_imports.update(file_imports)] for a set of pairs, kept as a list
    without repetition. *)
Definition update_imports (all_imports file_imports : list (pystr * bool))
  : list (pystr * bool) :=
  fold_left
    (fun s p => if in_dec import_dec p s then s else s ++ [p])
    file_imports all_imports.

Definition max_files : nat := 50.

Section Scanner.

Variable b64decode_utf8 : pystr -> result pystr.

(** What the [if] of lines 449-454 makes of a decoded JSON body. *)
Definition decode_content (content_data : FileObject) : option pystr :=
  if opt_eqb (encoding content_data) (str "base64") then
    match content content_data with
    | None => None
    | Some text =>
        match b64decode_utf8 text with
        | Ok decoded => Some decoded
        | Raise _ => None
        end
    end
  else None.

(** [get_python_file_content]: as [find_file_in_branch], but the JSON body
    is decoded, and its [get] called, outside the [try]. *)
Definition get_python_file_content (net : Net) (wd : World)
  : result (option pystr) * Net * World :=
  let '(o, q) := requests_get (file_q net) in
  let net := set_file_q q net in
  match o with
  | Fails e => (Raise e, net, wd)
  | Responds content_response =>
      match handle_rate_limiting content_response wd with
      | (Raise e, wd) => (Raise e, net, wd)
      | (Ok true, wd) => (Ok None, net, wd)
      | (Ok false, wd) =>
          if negb (status_code content_response =? 200)%Z
          then (Ok None, net, wd)
          else
            match json content_response with
            | Raise e => (Raise e, net, wd)
            | Ok JsonOther => (Raise OtherError, net, wd)
            | Ok (JsonObject content_data) =>
                (Ok (decode_content content_data), net, wd)
            end
      end
  end.

(** The loop [for python_file in python_files] of
    [analyze_python_files_in_branch]. *)
Fixpoint analyze_files (python_files : list FileEntry)
  (all_imports : list (pystr * bool)) (net : Net) (wd : World)
  : result (list (pystr * bool)) * Net * World :=
  match python_files with
  | [] => (Ok all_imports, net, wd)
  | python_file :: files' =>
      if nonempty (entry_path python_file) then
        match get_python_file_content net wd with
        | (Raise e, net, wd) => (Raise e, net, wd)
        | (Ok content, net, wd) =>
            match content with
            | Some (c :: s) =>
                let file_imports :=
                  extract_imports_from_python_content (c :: s) in
                analyze_files files' (update_imports all_imports file_imports)
                              net (time_sleep (1 # 10) wd)
            | _ => analyze_files files' all_imports net wd
            end
        end
      else analyze_files files' all_imports net wd
  end.

(** [analyze_python_files_in_branch]; the order of the returned list is
    that of a Python set, which the callers do not rely on. *)
Definition analyze_python_files_in_branch (net : Net) (wd : World)
  : result (list (pystr * bool)) * Net * World :=
  match get_branch_tree net wd with
  | (Raise e, net, wd) => (Raise e, net, wd)
  | (Ok [], net, wd) => (Ok [], net, wd)
  | (Ok (f :: files), net, wd) =>
      let python_files := f :: files in
      let python_files :=
        if max_files <? length python_files
        then firstn max_files python_files else python_files in
      analyze_files python_files [] net wd
  end.

(** The body of the loop [for branch in branches], lines 547-606: the
    record of the branch when it is appended to [repo_data['branches']]. *)
Definition check_branch (repo : Repo) (branch : BranchSummary) (net : Net)
  (wd : World) : result (option BranchInfo) * Net * World :=
  let branch_name := branch_name branch in
  match find_file_in_branch b64decode_utf8 net wd with
  | (Raise e, net, wd) => (Raise e, net, wd)
  | (Ok requirements, net, wd) =>
      match find_file_in_branch b64decode_utf8 net wd with
      | (Raise e, net, wd) => (Raise e, net, wd)
      | (Ok pyproject, net, wd) =>
          match find_file_in_branch b64decode_utf8 net wd with
          | (Raise e, net, wd) => (Raise e, net, wd)
          | (Ok setup_py, net, wd) =>
              let branch_data :=
                mkBranchInfo
                  branch_name
                  (option_eqb branch_name (repo_default_branch repo))
                  (nonempty pyproject)
                  (nonempty requirements)
                  (nonempty setup_py)
                  (if nonempty requirements then requirements else None)
                  (if nonempty requirements
                   then requirements_packages_of (or_empty requirements)
                   else [])
                  (if nonempty pyproject then pyproject else None)
                  [] false in
              let project_files :=
                has_pyproject branch_data || has_requirements branch_data
                || has_setup_py branch_data in
              if opt_eqb (repo_language repo) (str "Python") || project_files
              then
                match analyze_python_files_in_branch net wd with
                | (Raise e, net, wd) => (Raise e, net, wd)
                | (Ok imports, net, wd) =>
                    let branch_data :=
                      mkBranchInfo
                        (info_name branch_data) (is_default branch_data)
                        (has_pyproject branch_data)
                        (has_requirements branch_data)
                        (has_setup_py branch_data)
                        (requirements_content branch_data)
                        (requirements_packages branch_data)
                        (pyproject_content branch_data)
                        imports true in
                    if negb (length imports =? 0) || project_files
                    then (Ok (Some branch_data), net, wd)
                    else (Ok None, net, wd)
                end
              else (Ok None, net, wd)
          end
      end
  end.

(** The loop [for branch in branches]. *)
Fixpoint check_branches (repo : Repo) (todo : list BranchSummary)
  (repo_data : RepoData) (net : Net) (wd : World)
  : result RepoData * Net * World :=
  match todo with
  | [] => (Ok repo_data, net, wd)
  | branch :: todo' =>
      match check_branch repo branch net wd with
      | (Raise e, net, wd) => (Raise e, net, wd)
      | (Ok None, net, wd) => check_branches repo todo' repo_data net wd
      | (Ok (Some branch_data), net, wd) =>
          check_branches repo todo'
            (mkRepoData (listing repo_data) (full_name repo_data)
                        (branches repo_data ++ [branch_data]) true)
            net wd
      end
  end.

(** [repo.get('full_name', f"{org_name}/{repo_name}")], where [org_name] is
    [os.environ.get('ORG_NAME')]. *)
Definition full_name_of (env : Env) (repo : Repo) : pystr :=
  match repo_full_name repo with
  | Some n => n
  | None =>
      match ORG_NAME env with Some org_name => org_name | None => str "None" end
      ++ str "/" ++ repo_name repo
  end.

(** The loop [for index, repo in enumerate(repos, 1)]. *)
Fixpoint scan_repos (env : Env) (repos : list Repo)
  (python_repos : list RepoData) (sc : Scan) (wd : World)
  : result (list RepoData) * Scan * World :=
  match repos with
  | [] => (Ok python_repos, sc, wd)
  | repo :: repos' =>
      match get_repository_branches (branch_list_q sc) wd with
      | (Raise e, q, wd) => (Raise e, mkScan q (api sc), wd)
      | (Ok found, q, wd) =>
          let repo_data := mkRepoData repo (full_name_of env repo) [] false in
          match check_branches repo found repo_data (api sc) wd with
          | (Raise e, net, wd) => (Raise e, mkScan q net, wd)
          | (Ok repo_data, net, wd) =>
              scan_repos env repos'
                (if has_python_files repo_data
                 then python_repos ++ [repo_data] else python_repos)
                (mkScan q net) wd
          end
      end
  end.

Definition find_python_project_files (env : Env) (repos : list Repo)
  (sc : Scan) (wd : World) : result (list RepoData) * Scan * World :=
  scan_repos env repos [] sc wd.

End Scanner.

(** * Definitions used to state the properties *)

(** ** Shapes of strings *)

(** The first, or the last, character of a text is a blank. *)
Definition first_space (s : pystr) : bool :=
  match s with [] => false | c :: _ => isspace c end.

Definition last_space (s : pystr) : bool := first_space (rev s).

(** The first, or the last, character of a text is [c]. *)
Definition first_is (c : ascii) (s : pystr) : bool :=
  match s with [] => false | x :: _ => Ascii.eqb x c end.

Definition last_is (c : ascii) (s : pystr) : bool :=
  match rev s with [] => false | x :: _ => Ascii.eqb x c end.

(** [c1] stands right before [c2] somewhere in the text: an occurrence of
    a separator of two characters. *)
Fixpoint adj (c1 c2 : ascii) (s : pystr) : bool :=
  match s with
  | [] => false
  | x :: s' =>
      match s' with
      | [] => false
      | y :: _ => (Ascii.eqb x c1 && Ascii.eqb y c2) || adj c1 c2 s'
      end
  end.

(** [v] starts with [p], and a blank follows. *)
Definition blank_after (p v : pystr) : bool :=
  startswith v p && first_space (skipn (length p) v).

Definition hash : ascii := "#"%char.
Definition dot : ascii := "."%char.
Definition eq_sign : ascii := "="%char.

(** [l1] is [l2] with some of its elements left out. *)
Inductive subseq (A : Type) : list A -> list A -> Prop :=
| subseq_nil : subseq [] []
| subseq_skip (x : A) (l1 l2 : list A) : subseq l1 l2 -> subseq l1 (x :: l2)
| subseq_take (x : A) (l1 l2 : list A) :
    subseq l1 l2 -> subseq (x :: l1) (x :: l2).

(** ** Requirement lines *)

(** The test of line 623. *)
Definition url_like (line : pystr) : bool :=
  startswith line (str "git+") || startswith line (str "http").

(** The operator the loop of line 631 stops at: the first of the list that
    occurs in the line. *)
Definition matched_operator (line : pystr) : option pystr :=
  find (fun operator => contains operator line) operators.

(** The specifications in which a [=] has come to stand next to the
    operator because the blanks between them were stripped: the name ends
    with [=] before the operator [==]; the constraint starts with [>==],
    [<==], [~==] or [!==]; or it starts with [>=] or [<=] and a blank. *)
Definition glued (spec : DependencySpec) : bool :=
  (endswith (name spec) (str "=") && startswith (version spec) (str "=="))
  || existsb (startswith (version spec))
             (map str [">=="; "<=="; "~=="; "!=="]%string)
  || existsb (fun p => blank_after p (version spec))
             (map str [">="; "<="]%string).

(** What stands before the first '#' of a line. *)
Fixpoint before_hash (s : pystr) : pystr :=
  match s with
  | [] => []
  | c :: s' => if Ascii.eqb c hash then [] else c :: before_hash s'
  end.

Definition has_hash (s : pystr) : bool := existsb (fun x => Ascii.eqb x hash) s.

(** A text that the parser's stripping leaves as it is: no '#', no blank
    at either end. *)
Definition clean (s : pystr) : Prop :=
  has_hash s = false /\ first_space s = false /\ last_space s = false.

(** ** Imports *)



(** ** Repository lists *)

Definition names (repos : list Repo) : list pystr := map repo_name repos.

(** The first entry of a list that bears a given name. *)
Definition find_name (n : pystr) (repos : list Repo) : option Repo :=
  find (fun r => pystr_eqb (repo_name r) n) repos.

(** The limiter's decision to pause, which the clock has no part in. *)
Definition pauses (B : Type) (response : Response B) : bool :=
  match header_get (headers response) (str "X-RateLimit-Remaining") with
  | Some v =>
      match py_int v with
      | Some remaining => pause_due remaining response
      | None => false
      end
  | None => false
  end.

(** The repositories of an answer that the merge looks at: the body of a
    response with status 200 that causes no pause, filtered by owner where
    the address holds "user/repos" (lines 103-106); nothing for any other
    answer. *)
Definition visible (ep : endpoint) (org_name : pystr)
  (o : outcome (list Repo)) : list Repo :=
  match o with
  | Responds response =>
      if pauses response || negb (status_code response =? 200)%Z then []
      else
        match json response with
        | Ok body =>
            if filters_owner org_name ep
            then filter (fun r => opt_eqb (repo_owner_login r) org_name) body
            else body
        | Raise _ => []
        end
  | Fails _ => []
  end.

(** Pages merged one after the other into a list. *)
Definition merge_from (all_repos : list Repo) (pages : list (list Repo))
  : list Repo :=
  fold_left (fun collected repos_page =>
               collected ++ new_repos_of collected repos_page)
            pages all_repos.

(** The cut of lines 137-139. *)
Definition trimmed (limit : option Z) (all_repos : list Repo) : list Repo :=
  match limit with
  | Some l =>
      if limit_exceeded limit all_repos then slice_to all_repos l
      else all_repos
  | None => all_repos
  end.

(** What the merge looks at in the answers taken from the two endpoints,
    those of the organisation's endpoint first. *)
Definition pages_of (org_name : pystr)
  (asked1 asked2 : list (outcome (list Repo))) : list (list Repo) :=
  map (visible OrgRepos org_name) asked1
  ++ map (visible UserRepos org_name) asked2.

(** What a list of repositories may turn into: it keeps its entries, in
    place, and names stay unique. *)
Definition grows (all_repos all_repos' : list Repo) : Prop :=
  (exists more, all_repos' = all_repos ++ more)
  /\ (NoDup (names all_repos) -> NoDup (names all_repos')).



(** ** Files of a branch *)

(** [f] is a Python file of a directory listing among the answers [q]:
    the image of an entry of type file whose name ends with ".py", in the
    body of a response with status 200. *)
Definition walked_file (q : list (outcome (list ContentItem))) (f : FileEntry)
  : Prop :=
  exists response dir_contents item,
    In (Responds response) q /\ status_code response = 200%Z
    /\ json response = Ok dir_contents /\ In item dir_contents
    /\ is_python_file item = true /\ f = as_blob item.

(** [f] is a Python file of a recursive tree among the answers [q]: an
    entry of type blob whose path ends with ".py", in the body, not flagged
    as truncated, of a response with status 200. *)
Definition tree_file (q : list (outcome TreeData)) (f : FileEntry) : Prop :=
  exists response tree_data,
    In (Responds response) q /\ status_code response = 200%Z
    /\ json response = Ok tree_data /\ truncated tree_data = false
    /\ In f (tree tree_data) /\ is_python_blob f = true.

(** What the directory walk does to the network: it takes answers from
    the front of the queue of directory listings and leaves the rest. *)
Definition walk_step (net net' : Net) : Prop :=
  net' = set_contents_q (contents_q net') net
  /\ exists asked, contents_q net = asked ++ contents_q net'.

(** What the resolution of a tree does to the network: [refs] and [trees]
    are the answers it takes from the reference and the tree endpoints. *)
Definition tree_step (net net' : Net)
  (refs : list (outcome BranchData)) (trees : list (outcome TreeData))
  : Prop :=
  branch_q net = refs ++ branch_q net'
  /\ tree_q net = trees ++ tree_q net'
  /\ (exists asked, contents_q net = asked ++ contents_q net')
  /\ net' = set_contents_q (contents_q net')
              (set_tree_q (tree_q net') (set_branch_q (branch_q net') net)).
(** Where the files of a result come from. *)
Definition found_in (net : Net) (f : FileEntry) : Prop :=
  tree_file (tree_q net) f \/ walked_file (contents_q net) f.

(** What a pass, or the whole resolution, may end with. *)
Definition pass_ok (net : Net) (r : result attempt_end) : Prop :=
  forall files, r = Ok (Return files) -> forall f, In f files -> found_in net f.

(** ** The clock *)

(** The world after [n] more readings of the clock. *)
Definition read_clock (n : nat) (wd : World) : World :=
  Nat.iter n (fun wd => snd (time_time wd)) wd.

(** The pause that [handle_rate_limiting] computes for a reset time [r]
    (as a float) and a reading [t] of the clock: max(r - t, 0) + 1 in
    binary64 arithmetic. *)
Definition pause_length (r t : float) : float :=
  let ahead := PrimFloat.sub r t in
  if PrimFloat.ltb ahead 0 then 1%float else PrimFloat.add ahead 1.

(** ** Branch listings *)

(** A response that the rate limiter lets through, whatever the clock
    reads. *)
Definition lets_through (B : Type) (response : Response B) : Prop :=
  forall wd, handle_rate_limiting response wd = (Ok false, wd).

(** A page of branches after which the listing goes on: status 200, no
    pause, and [per_page] entries or more in its body. *)
Definition full_page (response : Response (list BranchSummary))
  (branches_page : list BranchSummary) : Prop :=
  lets_through response /\ status_code response = 200%Z
  /\ json response = Ok branches_page
  /\ (per_page <= length branches_page)%nat.

(** The world after [n] pauses of half a second. *)
Definition after_pauses (n : nat) (wd : World) : World :=
  Nat.iter n (time_sleep (1 # 2)) wd.

(** ** Files read for their imports *)

(** [text] is what [decode] makes of the body of a response with status
    200 among the answers [q] of the file endpoint. *)
Definition file_text (decode : FileObject -> option pystr)
  (q : list (outcome FileData)) (text : pystr) : Prop :=
  exists response content_data,
    In (Responds response) q /\ status_code response = 200%Z
    /\ json response = Ok (JsonObject content_data)
    /\ decode content_data = Some text.

(** What reading files does to the network: it takes the answers [asked]
    from the front of the queue of the file endpoint, and nothing else. *)
Definition file_step (net net' : Net) (asked : list (outcome FileData))
  : Prop :=
  net' = set_file_q (file_q net') net /\ file_q net = asked ++ file_q net'.

(** ** Records of the scan *)

(** The branch shows a project file, or an import was found in it: the
    test of line 601. *)
Definition python_evidence (b : BranchInfo) : Prop :=
  (has_pyproject b || has_requirements b || has_setup_py b = true)
  \/ python_imports b <> [].

(** The fields of a branch record agree with each other and with the
    repository: the flags tell whether the texts are there, the packages
    are those of the text of requirements.txt, and no module is named
    twice among the imports. *)
Definition consistent_branch (repo : Repo) (b : BranchInfo) : Prop :=
  is_default b = option_eqb (info_name b) (repo_default_branch repo)
  /\ has_requirements b = nonempty (requirements_content b)
  /\ has_pyproject b = nonempty (pyproject_content b)
  /\ requirements_packages b
     = requirements_packages_of (or_empty (requirements_content b))
  /\ python_files_analyzed b = true
  /\ NoDup (map fst (python_imports b)).

(** ** Matches of the import patterns *)

(** A match of [r] leads from one position of the matcher to another. *)
Inductive ends : regex -> mstate -> mstate -> Prop :=
| ends_eps st : ends Eps st st
| ends_bol st : ends Bol st st
| ends_chr c st st' :
    step_over st (Ascii.eqb c) = Some st' -> ends (Chr c) st st'
| ends_cls p st st' : step_over st p = Some st' -> ends (Cls p) st st'
| ends_seq r1 r2 st st1 st' :
    ends r1 st st1 -> ends r2 st1 st' -> ends (Seq r1 r2) st st'
| ends_star_nil r st : ends (Star r) st st
| ends_star_cons r st st1 st' :
    ends r st st1 -> ends (Star r) st1 st' -> ends (Star r) st st'
| ends_group r st st1 :
    ends r st st1 ->
    ends (Group r) st
         (mkState (prev st1) (rest st1)
            (firstn (length (rest st) - length (rest st1)) (rest st))).

(** The texts a pattern matches. *)
Inductive lang : regex -> pystr -> Prop :=
| lang_eps : lang Eps []
| lang_bol : lang Bol []
| lang_chr c : lang (Chr c) [c]
| lang_cls (p : ascii -> bool) c : p c = true -> lang (Cls p) [c]
| lang_seq r1 r2 u v : lang r1 u -> lang r2 v -> lang (Seq r1 r2) (u ++ v)
| lang_star_nil r : lang (Star r) []
| lang_star_cons r u v : lang r u -> lang (Star r) v -> lang (Star r) (u ++ v)
| lang_group r u : lang r u -> lang (Group r) u.

Fixpoint has_group (r : regex) : bool :=
  match r with
  | Group _ => true
  | Seq r1 r2 => has_group r1 || has_group r2
  | Star r' => has_group r'
  | _ => false
  end.

(** The group of [r] that holds the captured text when a match ends is
    [g]. *)
Inductive captures : regex -> regex -> Prop :=
| captures_group g : captures (Group g) g
| captures_left r1 r2 g :
    captures r1 g -> has_group r2 = false -> captures (Seq r1 r2) g
| captures_right r1 r2 g : captures r2 g -> captures (Seq r1 r2) g.

(** A name: one word character or more. *)
Definition word (s : pystr) : Prop := s <> [] /\ forallb isword s = true.

(** A piece of a found text from which a name is taken. *)
Definition names_word (module : pystr) : Prop :=
  word (item (split (str ".") (strip module)) 0).

(** The names that follow the first one in a list of names. *)
Inductive comma_tail : pystr -> Prop :=
| comma_tail_nil : comma_tail []
| comma_tail_cons s1 s2 W t :
    forallb isspace s1 = true -> forallb isspace s2 = true -> word W ->
    comma_tail t -> comma_tail (s1 ++ ","%char :: s2 ++ W ++ t).

















(** * Data of the examples *)

(** The limit of CPython's timer, which counts a pause in nanoseconds on
    63 bits. *)
Definition timer_limit (x : float) : bool :=
  negb (PrimFloat.ltb (PrimFloat.mul x 1e9) 9223372036854775808).

(** A world whose clock reads 1000 at every call. *)
Definition world0 : World :=
  mkWorld (fun _ => 1000%float) 0 [] [] timer_limit.

Definition no_net : Net := mkNet [] [] [] [] [] [] [].

(** A response with the given status, headers and text, whose JSON body
    is not looked at. *)
Definition plain_response (status : Z) (h : list (string * string))
  (body : string) : Response unit :=
  mkResponse status (map (fun kv => (str (fst kv), str (snd kv))) h)
             (str body) (Ok tt).

Definition quota_spent : list (pystr * pystr) :=
  [(str "X-RateLimit-Remaining", str "0");
   (str "X-RateLimit-Reset", str "1005")].

(** A requirements.txt that exists, sent with the given remaining quota. *)
Definition manifest_response (remaining : string) : Response FileData :=
  mkResponse 200
    [(str "X-RateLimit-Remaining", str remaining);
     (str "X-RateLimit-Reset", str "1005")]
    (str "")
    (Ok (JsonObject (mkFileObject (Some (str "base64"))
                                  (Some (str "Zmxhc2sK"))))).

(** A stand-in for the library's decoder that is enough to tell a found
    file from a missing one. *)
Definition decoded_as_is (encoded : pystr) : result pystr := Ok encoded.

(** A branch reference that resolves, and one that is not found. *)
Definition ref_ok : Response BranchData :=
  mkResponse 200 [] (str "") (Ok (mkBranchData (Some (str "4f2a9c1")))).

Definition ref_missing : Response BranchData :=
  mkResponse 404 [] (str "Not Found") (Raise RequestsJSONDecodeError).

(** A recursive tree flagged as truncated, sent with the given headers. *)
Definition partial_tree : TreeData :=
  mkTreeData true
    [mkFileEntry (Some (str "pkg/a.py")) (Some (str "blob")) None].

Definition tree_truncated (h : list (pystr * pystr)) : Response TreeData :=
  mkResponse 200 h (str "") (Ok partial_tree).

(** The answers to the directory walk: a root directory that holds
    main.py, and no src, app or lib directory. *)
Definition root_listing : Response (list ContentItem) :=
  mkResponse 200 [] (str "")
    (Ok [mkContentItem (Some (str "file")) (Some (str "main.py"))
           (Some (str "main.py")) None]).

Definition main_py : FileEntry :=
  mkFileEntry (Some (str "main.py")) (Some (str "blob")) None.

Definition dir_missing : Response (list ContentItem) :=
  mkResponse 404 [] (str "Not Found") (Raise RequestsJSONDecodeError).

Definition walk_answers : list (outcome (list ContentItem)) :=
  [Responds root_listing; Responds dir_missing; Responds dir_missing;
   Responds dir_missing].

Definition net_truncated (h : list (pystr * pystr))
  (refs : list (outcome BranchData)) : Net :=
  mkNet [] [] [] refs [Responds (tree_truncated h)] walk_answers [].

Definition net_ref (refs : list (outcome BranchData)) : Net :=
  mkNet [] [] [] refs [] walk_answers [].

(** The two lines of the specification's example. *)
Definition two_lines : pystr :=
  str "import os, sys" ++ [newline] ++ str "from numpy.linalg import inv".

(** The organisation "acme", whose repository "api" is listed by both
    endpoints, with another language each time; the user endpoint also
    lists a repository of another owner. *)
Definition acme : pystr := str "acme".

Definition repo (n : string) (owner : string) (language : string) : Repo :=
  mkRepo (str n) (Some (str owner)) (Some (str owner ++ str "/" ++ str n))
         (Some (str language)) (Some (str "main")).

Definition page_of (repos : list Repo) : outcome (list Repo) :=
  Responds (mkResponse 200 [] (str "") (Ok repos)).

Definition user_ok : outcome UserData :=
  Responds (mkResponse 200 [] (str "") (Ok (mkUserData (Some (str "bot"))))).

Definition acme_env : Env := mkEnv (Some (str "t0ken")) (Some acme).

Definition acme_net : Net :=
  mkNet [user_ok]
        [page_of [repo "api" "acme" "Python"; repo "web" "acme" "Go"]]
        [page_of [repo "api" "acme" "Rust"; repo "cli" "acme" "Python";
                  repo "cli" "other" "C"]]
        [] [] [] [].

(** A branch reference sent with a quota header that is not a number. *)
Definition ref_bad_quota : Response BranchData :=
  mkResponse 200 [(str "X-RateLimit-Remaining", str "soon")] (str "")
    (Ok (mkBranchData (Some (str "4f2a9c1")))).

(** A page of branches: [n] entries, sent with status 200. *)
Definition branches_named (n : nat) : list BranchSummary :=
  map (fun i => mkBranchSummary (Some (str "b" ++ repeat "x"%char i))) (seq 0 n).

Definition branch_page (n : nat) : Response (list BranchSummary) :=
  mkResponse 200 [] (str "") (Ok (branches_named n)).

Definition branches_gone : Response (list BranchSummary) :=
  mkResponse 502 [] (str "Bad Gateway") (Raise RequestsJSONDecodeError).

(** A branch with one Python file, app.py, whose text is the two lines of
    the specification's example. *)
Definition tree_ok : Response TreeData :=
  mkResponse 200 [] (str "")
    (Ok (mkTreeData false
           [mkFileEntry (Some (str "app.py")) (Some (str "blob")) None;
            mkFileEntry (Some (str "README.md")) (Some (str "blob")) None])).

Definition app_py : Response FileData :=
  mkResponse 200 [] (str "")
    (Ok (JsonObject (mkFileObject (Some (str "base64")) (Some two_lines)))).

Definition net_app : Net :=
  mkNet [] [] [] [Responds ref_ok] [Responds tree_ok] [] [Responds app_py].

(** A file answered with status 200 and a body that is not JSON. *)
Definition not_json : Response FileData :=
  mkResponse 200 [] (str "<html>") (Raise RequestsJSONDecodeError).

(** The scan of one repository, "api", with one branch, "main", that holds
    a requirements.txt and the file app.py; pyproject.toml and setup.py
    are missing. *)
Definition main_branch : BranchSummary := mkBranchSummary (Some (str "main")).

Definition requirements_txt : Response FileData :=
  mkResponse 200 [] (str "")
    (Ok (JsonObject (mkFileObject (Some (str "base64"))
           (Some (str "flask==2.0" ++ [newline] ++ str "# tools"
                  ++ [newline] ++ str "requests"))))).

Definition file_missing : Response FileData :=
  mkResponse 404 [] (str "Not Found") (Raise RequestsJSONDecodeError).

Definition scan_api : Scan :=
  mkScan [Responds (mkResponse 200 [] (str "") (Ok [main_branch]))]
         (mkNet [] [] [] [Responds ref_ok] [Responds tree_ok] []
                [Responds requirements_txt; Responds file_missing;
                 Responds file_missing; Responds app_py]).

Definition main_record : BranchInfo :=
  mkBranchInfo (Some (str "main")) true false true false
    (Some (str "flask==2.0" ++ [newline] ++ str "# tools" ++ [newline]
           ++ str "requests"))
    [mkSpec (str "flask") (str "==2.0") (str "flask==2.0");
     mkSpec (str "requests") (str "latest") (str "requests")]
    None
    [(str "os", true); (str "sys", true); (str "numpy", false)]
    true.

Definition api_record : RepoData :=
  mkRepoData (repo "api" "acme" "Python") (str "acme/api") [main_record] true.

(** * Properties *)

(** ** Facts about the string operations *)

(** Every disjunction known to be false, taken apart. *)
Ltac split_orb :=
  repeat match goal with
         | H : _ || _ = false |- _ => apply orb_false_iff in H; destruct H
         end.

Section StringFacts.

Lemma startswith_app (p t : pystr) : startswith (p ++ t) p = true.
Proof.
  induction p as [| a p IH]; [destruct t; reflexivity|].
  cbn. rewrite Ascii.eqb_refl. exact IH.
Qed.

Lemma startswith_inv (p : pystr) : forall s,
  startswith s p = true -> s = p ++ skipn (length p) s.
Proof.
  induction p as [| a p IH]; intros s H; [reflexivity|].
  destruct s as [| b s]; [discriminate|].
  cbn in H. apply andb_true_iff in H. destruct H as [Hab Hs].
  apply Ascii.eqb_eq in Hab. subst b. cbn. f_equal. apply IH, Hs.
Qed.

(** [split_once] cuts the text at an occurrence of the separator. *)
Lemma split_once_some (sep : pystr) : forall s a b,
  split_once sep s = Some (a, b) -> s = a ++ sep ++ b.
Proof.
  induction s as [| c s IH]; intros a b H.
  - cbn [split_once] in H. destruct (startswith [] sep) eqn:E; [|discriminate].
    inversion H; subst. apply startswith_inv in E. exact E.
  - cbn [split_once] in H.
    destruct (startswith (c :: s) sep) eqn:E.
    + inversion H; subst. apply startswith_inv in E. exact E.
    + destruct (split_once sep s) as [[a' b'] |] eqn:E'; [|discriminate].
      inversion H; subst. cbn. f_equal. apply IH. reflexivity.
Qed.

(** What [s.split(sep)[0]] is. *)
Lemma split_head (sep s : pystr) :
  item (split sep s) 0
  = match split_once sep s with Some (a, _) => a | None => s end.
Proof.
  unfold split, item. destruct s as [| c s].
  - cbn [length split_max]. destruct (split_once sep []) as [[a b] |] eqn:E.
    + apply split_once_some in E. destruct a; [reflexivity | discriminate].
    + reflexivity.
  - cbn [length split_max].
    destruct (split_once sep (c :: s)) as [[a b] |]; reflexivity.
Qed.

(** Separators of one character. *)
Lemma split_once_char (c : ascii) : forall s,
  split_once [c] s
  = match s with
    | [] => None
    | x :: s' =>
        if Ascii.eqb x c then Some ([], s')
        else match split_once [c] s' with
             | Some (a, b) => Some (x :: a, b)
             | None => None
             end
    end.
Proof.
  intros [| x s']; [reflexivity|].
  cbn [split_once startswith]. rewrite andb_true_r.
  destruct (Ascii.eqb x c); reflexivity.
Qed.

Lemma contains_char (c : ascii) : forall s,
  contains [c] s = existsb (fun x => Ascii.eqb x c) s.
Proof.
  unfold contains. induction s as [| x s IH]; [reflexivity|].
  rewrite split_once_char. cbn [existsb].
  destruct (Ascii.eqb x c); [reflexivity|]. cbn [orb]. rewrite <- IH.
  destruct (split_once [c] s) as [[a b] |]; reflexivity.
Qed.

Lemma split_once_char_before (c : ascii) : forall s a b,
  split_once [c] s = Some (a, b) ->
  existsb (fun x => Ascii.eqb x c) a = false.
Proof.
  induction s as [| x s IH]; intros a b H; rewrite split_once_char in H.
  - discriminate.
  - destruct (Ascii.eqb x c) eqn:E.
    + inversion H; reflexivity.
    + destruct (split_once [c] s) as [[a' b'] |] eqn:E'; [|discriminate].
      inversion H; subst. cbn. rewrite E. eapply IH; reflexivity.
Qed.

Lemma split_once_char_at (c : ascii) : forall x y,
  existsb (fun z => Ascii.eqb z c) x = false ->
  split_once [c] (x ++ c :: y) = Some (x, y).
Proof.
  induction x as [| z x IH]; intros y H; cbn [app]; rewrite split_once_char.
  - rewrite Ascii.eqb_refl. reflexivity.
  - cbn in H. apply orb_false_iff in H. destruct H as [Hz Hx].
    rewrite Hz, IH by exact Hx. reflexivity.
Qed.

Lemma split_once_pair (c1 c2 : ascii) : forall s,
  split_once [c1; c2] s
  = match s with
    | [] => None
    | x :: s' =>
        if Ascii.eqb x c1 && startswith s' [c2] then Some ([], skipn 1 s')
        else match split_once [c1; c2] s' with
             | Some (a, b) => Some (x :: a, b)
             | None => None
             end
    end.
Proof. intros [| x s']; reflexivity. Qed.

Lemma startswith_char (c : ascii) (s : pystr) :
  startswith s [c]
  = match s with [] => false | y :: _ => Ascii.eqb y c end.
Proof. destruct s; cbn; [reflexivity | apply andb_true_r]. Qed.

Lemma contains_pair (c1 c2 : ascii) : forall s,
  contains [c1; c2] s = adj c1 c2 s.
Proof.
  unfold contains. induction s as [| x s IH]; [reflexivity|].
  rewrite split_once_pair. cbn [adj]. rewrite startswith_char.
  destruct s as [| y s'].
  - rewrite andb_false_r. reflexivity.
  - destruct (Ascii.eqb x c1 && Ascii.eqb y c2); [reflexivity|].
    cbn [orb]. rewrite <- IH.
    destruct (split_once [c1; c2] (y :: s')) as [[a b] |]; reflexivity.
Qed.

Lemma last_is_cons (c x y : ascii) (s : pystr) :
  last_is c (x :: y :: s) = last_is c (y :: s).
Proof.
  unfold last_is. cbn [rev]. destruct (rev s ++ [y]) eqn:E.
  - destruct (rev s); discriminate.
  - reflexivity.
Qed.

Lemma adj_app (c1 c2 : ascii) : forall x y,
  adj c1 c2 (x ++ y)
  = adj c1 c2 x || (last_is c1 x && first_is c2 y) || adj c1 c2 y.
Proof.
  induction x as [| a x IH]; intros y; [reflexivity|].
  destruct x as [| b x].
  - cbn [app adj]. unfold last_is. cbn [rev app].
    destruct y as [| z y]; [rewrite andb_false_r; reflexivity|].
    reflexivity.
  - change ((a :: b :: x) ++ y) with (a :: (b :: x) ++ y).
    cbn [adj]. cbn [app]. change (b :: x ++ y) with ((b :: x) ++ y).
    rewrite IH, last_is_cons. cbn [adj].
    rewrite !orb_assoc. reflexivity.
Qed.

Lemma adj_cons (c1 c2 x : ascii) (s : pystr) :
  adj c1 c2 (x :: s) = (Ascii.eqb x c1 && first_is c2 s) || adj c1 c2 s.
Proof.
  destruct s as [| y s]; [cbn; rewrite andb_false_r; reflexivity|].
  reflexivity.
Qed.

Lemma first_is_app_char (c c1 : ascii) (x y : pystr) :
  first_is c (x ++ c1 :: y) = first_is c (x ++ [c1]).
Proof. destruct x; reflexivity. Qed.

Lemma split_once_pair_before (c1 c2 : ascii) : forall s a b,
  split_once [c1; c2] s = Some (a, b) -> adj c1 c2 (a ++ [c1]) = false.
Proof.
  induction s as [| x s IH]; intros a b H; rewrite split_once_pair in H.
  - discriminate.
  - destruct (Ascii.eqb x c1 && startswith s [c2]) eqn:E.
    + inversion H; reflexivity.
    + destruct (split_once [c1; c2] s) as [[a' b'] |] eqn:E';
        [|discriminate].
      inversion H; subst a b. specialize (IH _ _ eq_refl).
      pose proof (split_once_some _ _ E') as Hs. subst s.
      rewrite startswith_char in E.
      change (match a' ++ [c1; c2] ++ b' with
              | [] => false | y :: _ => Ascii.eqb y c2 end)
        with (first_is c2 (a' ++ [c1; c2] ++ b')) in E.
      cbn [app] in E. rewrite first_is_app_char in E.
      cbn [app]. rewrite adj_cons, E, IH. reflexivity.
Qed.

Lemma split_once_pair_at (c1 c2 : ascii) : forall x y,
  adj c1 c2 (x ++ [c1]) = false ->
  split_once [c1; c2] (x ++ c1 :: c2 :: y) = Some (x, y).
Proof.
  induction x as [| z x IH]; intros y H; cbn [app]; rewrite split_once_pair.
  - rewrite Ascii.eqb_refl. cbn. rewrite Ascii.eqb_refl. reflexivity.
  - cbn [app] in H. rewrite adj_cons in H. apply orb_false_iff in H.
    destruct H as [Hz Hx]. rewrite IH by exact Hx.
    rewrite startswith_char.
    change (match x ++ c1 :: c2 :: y with
            | [] => false | y0 :: _ => Ascii.eqb y0 c2 end)
      with (first_is c2 (x ++ c1 :: c2 :: y)).
    rewrite first_is_app_char, Hz. reflexivity.
Qed.

Lemma pystr_eqb_eq (a b : pystr) : pystr_eqb a b = true <-> a = b.
Proof.
  unfold pystr_eqb. destruct (list_eq_dec ascii_dec a b); split; auto.
  discriminate.
Qed.

Lemma pystr_eqb_neq (a b : pystr) : a <> b -> pystr_eqb a b = false.
Proof.
  intros H. destruct (pystr_eqb a b) eqn:E; [|reflexivity].
  apply pystr_eqb_eq in E. contradiction.
Qed.

End StringFacts.

(** *** Stripping *)

Section StripFacts.

Lemma lstrip_split (s : pystr) :
  exists w, s = w ++ lstrip s /\ forallb isspace w = true.
Proof.
  induction s as [| c s [w [Hs Hw]]]; [exists []; split; reflexivity|].
  cbn [lstrip]. destruct (isspace c) eqn:E.
  - exists (c :: w). split; [cbn; f_equal; exact Hs|].
    cbn. rewrite E, Hw. reflexivity.
  - exists []. split; reflexivity.
Qed.

Lemma lstrip_first (s : pystr) : first_space (lstrip s) = false.
Proof.
  induction s as [| c s IH]; [reflexivity|].
  cbn [lstrip]. destruct (isspace c) eqn:E; [exact IH | exact E].
Qed.

Lemma lstrip_id (s : pystr) : first_space s = false -> lstrip s = s.
Proof. destruct s as [| c s]; [reflexivity|]. cbn. intros ->. reflexivity. Qed.

Lemma rstrip_split (s : pystr) :
  exists w, s = rstrip s ++ w /\ forallb isspace w = true.
Proof.
  unfold rstrip. destruct (lstrip_split (rev s)) as [w [Hs Hw]].
  exists (rev w). split.
  - rewrite <- rev_app_distr, <- Hs, rev_involutive. reflexivity.
  - rewrite forallb_forall in *. intros x Hx. apply Hw, in_rev, Hx.
Qed.

Lemma rstrip_last (s : pystr) : last_space (rstrip s) = false.
Proof.
  unfold last_space, rstrip. rewrite rev_involutive. apply lstrip_first.
Qed.

Lemma rstrip_id (s : pystr) : last_space s = false -> rstrip s = s.
Proof.
  unfold last_space, rstrip. intros H. rewrite lstrip_id by exact H.
  apply rev_involutive.
Qed.

Lemma first_space_app (x y : pystr) :
  first_space (x ++ y) = match x with [] => first_space y | c :: _ => isspace c end.
Proof. destruct x; reflexivity. Qed.

Lemma last_space_app (x y : pystr) :
  last_space (x ++ y) = match y with [] => last_space x | _ :: _ => last_space y end.
Proof.
  unfold last_space. rewrite rev_app_distr. rewrite first_space_app.
  destruct y as [| c y]; [reflexivity|].
  cbn [rev]. destruct (rev y ++ [c]) eqn:E; [destruct (rev y); discriminate|].
  reflexivity.
Qed.

(** A text whose first character is not a blank keeps it when its end is
    stripped. *)
Lemma rstrip_first (s : pystr) :
  first_space s = false -> first_space (rstrip s) = false.
Proof.
  intros H. destruct (rstrip_split s) as [w [Hs Hw]].
  destruct (rstrip s) as [| c t] eqn:E; [reflexivity|].
  rewrite Hs in H. exact H.
Qed.

Lemma strip_ends (s : pystr) :
  first_space (strip s) = false /\ last_space (strip s) = false.
Proof.
  unfold strip. split; [apply rstrip_first, lstrip_first | apply rstrip_last].
Qed.

Lemma strip_id (s : pystr) :
  first_space s = false -> last_space s = false -> strip s = s.
Proof.
  intros H1 H2. unfold strip. rewrite lstrip_id by exact H1.
  apply rstrip_id, H2.
Qed.

Lemma strip_idem (s : pystr) : strip (strip s) = strip s.
Proof. destruct (strip_ends s). apply strip_id; assumption. Qed.

Lemma strip_split (s : pystr) :
  exists w1 w2, s = w1 ++ strip s ++ w2
                /\ forallb isspace w1 = true /\ forallb isspace w2 = true.
Proof.
  destruct (lstrip_split s) as [w1 [H1 Hw1]].
  destruct (rstrip_split (lstrip s)) as [w2 [H2 Hw2]].
  exists w1, w2. unfold strip. rewrite <- H2. auto.
Qed.

(** A blank text that does not start with a blank is empty. *)
Lemma blank_nil (w : pystr) :
  forallb isspace w = true -> first_space w = false -> w = [].
Proof.
  destruct w as [| c w]; [reflexivity|]. cbn. intros H1 H2.
  rewrite H2 in H1. discriminate.
Qed.

Lemma blank_nil_r (w : pystr) :
  forallb isspace w = true -> last_space w = false -> w = [].
Proof.
  intros H1 H2. assert (E : rev w = []).
  { apply blank_nil; [|exact H2].
    rewrite forallb_forall in *. intros x Hx. apply H1, in_rev, Hx. }
  rewrite <- (rev_involutive w), E. reflexivity.
Qed.

(** The front part of a stripped text: stripping removes only the blanks
    at its end. *)
Lemma strip_front (a : pystr) :
  first_space a = false ->
  exists w, a = strip a ++ w /\ forallb isspace w = true.
Proof.
  intros H. unfold strip. rewrite lstrip_id by exact H. apply rstrip_split.
Qed.

(** The back part of a stripped text: stripping removes only the blanks at
    its start. *)
Lemma strip_back (b : pystr) :
  last_space b = false ->
  exists w, b = w ++ strip b /\ forallb isspace w = true.
Proof.
  intros H. destruct (lstrip_split b) as [w [Hb Hw]]. exists w.
  split; [|exact Hw]. unfold strip. rewrite rstrip_id; [exact Hb|].
  rewrite Hb in H. rewrite last_space_app in H.
  destruct (lstrip b) as [| c t] eqn:E; [reflexivity | exact H].
Qed.

Lemma strip_nil_front (a : pystr) :
  first_space a = false -> strip a = [] -> a = [].
Proof.
  intros H E. destruct (strip_front a H) as [w [Ha Hw]].
  rewrite E in Ha. cbn in Ha. subst w. apply blank_nil; assumption.
Qed.

End StripFacts.

(** ** RateLimiter *)

(** Rounding to the nearest float keeps the sign. *)
Lemma round_not_negative (m : Z) (e : Z) (l : location) :
  SFltb (binary_round_aux prec emax false m e l) (S754_zero false) = false.
Proof.
  unfold binary_round_aux.
  destruct (shr_fexp prec emax m e l) as [mrs' e'].
  destruct (shr_fexp prec emax _ e' loc_Exact) as [mrs'' e''].
  destruct (shr_m mrs''); [reflexivity | | reflexivity].
  destruct (Z.leb e'' _); reflexivity.
Qed.

(** The pause is never negative, so that [time.sleep] does not refuse it
    for its sign. *)
Lemma pause_length_not_negative (r t : float) :
  PrimFloat.ltb (pause_length r t) 0 = false.
Proof.
  unfold pause_length. cbv zeta.
  destruct (PrimFloat.ltb (PrimFloat.sub r t) 0) eqn:E; [reflexivity|].
  rewrite ltb_spec in *. rewrite add_spec.
  change (Prim2SF 0) with (S754_zero false) in *.
  destruct (Prim2SF (PrimFloat.sub r t)) as [s | s | | s m e];
    try reflexivity.
  - destruct s; [discriminate E | reflexivity].
  - destruct s; [discriminate E|].
    change (Prim2SF 1) with (S754_finite false 4503599627370496 (-52)).
    unfold SF64add, SFadd, binary_normalize. cbn [cond_Zopp].
    cbn [Z.add]. unfold binary_round.
    destruct (shl_align _ _ _). apply round_not_negative.
Qed.

(** What the limiter raises is a ValueError or an OverflowError. *)
Lemma handle_rate_limiting_raises (B : Type) (response : Response B)
  (wd wd' : World) (e : exn) :
  handle_rate_limiting response wd = (Raise e, wd') ->
  e = ValueError \/ e = OverflowError.
Proof.
  unfold handle_rate_limiting.
  destruct (header_get (headers response) (str "X-RateLimit-Remaining"));
    [|discriminate].
  destruct (py_int p); [|intros H; inversion H; left; reflexivity].
  destruct (pause_due z response); [|discriminate].
  unfold pause, reset_epoch. cbn [time_time].
  assert (Hw : forall reset_time wd0,
             match wait_time reset_time (now wd (S (reads wd))) with
             | Ok wait =>
                 match py_sleep wait wd0 with
                 | (Ok _, wd1) => (Ok true, wd1)
                 | (Raise e0, wd1) => (Raise e0, wd1)
                 end
             | Raise e0 => (Raise e0, wd0)
             end = (Raise e, wd') ->
             e = ValueError \/ e = OverflowError).
  { intros reset_time wd0. unfold wait_time.
    destruct (float_of_int reset_time);
      [|intros H; inversion H; right; reflexivity].
    unfold py_sleep.
    destruct (PrimFloat.is_nan _); [intros H; inversion H; left; reflexivity|].
    destruct (_ || _); [intros H; inversion H; right; reflexivity|].
    destruct (PrimFloat.ltb _ 0); [intros H; inversion H; left; reflexivity|].
    discriminate. }
  destruct (header_get (headers response) (str "X-RateLimit-Reset")).
  - destruct (py_int p0); [|intros H; inversion H; left; reflexivity].
    apply Hw.
  - unfold int_of_float.
    destruct (Prim2SF _);
      try (intros H; inversion H; auto; fail); apply Hw.
Qed.

(** The limiter answers True exactly for the responses that make it
    pause, and leaves the world alone when it answers False. *)
Lemma handle_rate_limiting_answer (B : Type) (response : Response B)
  (wd wd' : World) (b : bool) :
  handle_rate_limiting response wd = (Ok b, wd') ->
  b = pauses response /\ (b = false -> wd' = wd).
Proof.
  unfold handle_rate_limiting, pauses.
  destruct (header_get (headers response) (str "X-RateLimit-Remaining"));
    [|intros H; inversion H; auto].
  destruct (py_int p); [|discriminate].
  destruct (pause_due z response); [|intros H; inversion H; auto].
  unfold pause. cbn [time_time].
  destruct (reset_epoch _ _); [|discriminate].
  destruct (wait_time _ _); [|discriminate].
  destruct (py_sleep _ _) as [[[] | e] wd1]; [|discriminate].
  intros H; inversion H; subst. split; [reflexivity | discriminate].
Qed.

(** C4, as the code has it, for every response and every world.  Without
    an X-RateLimit-Remaining header the answer is False and nothing
    happens.  With a header that is no integer the call raises ValueError.
    With an integer header the call pauses exactly when the remaining
    quota is zero or the response is a 403 whose text holds "rate limit
    exceeded"; otherwise it returns False and leaves the world as it was.
    On the way to the pause the clock is read twice: [t1] gives the
    default reset time int(t1 + 3600) of a response without
    X-RateLimit-Reset, [t2] is the "now" of the waiting time.  A reset
    header that is no integer raises ValueError; a reset time beyond the
    floats raises OverflowError; otherwise the pause is the float
    max(reset - t2, 0) + 1, and the call sleeps for it once and returns
    True, unless [time.sleep] refuses it (ValueError for a NaN,
    OverflowError for a pause that is infinite or too long for the
    timer). *)
Theorem handle_rate_limiting_with_quota_header
  (B : Type) (response : Response B) (wd : World) :
  let quota := header_get (headers response) (str "X-RateLimit-Remaining") in
  let reset := header_get (headers response) (str "X-RateLimit-Reset") in
  let t1 := now wd (reads wd) in
  let t2 := now wd (S (reads wd)) in
  (quota = None -> handle_rate_limiting response wd = (Ok false, wd))
  /\ (forall v, quota = Some v -> py_int v = None ->
      handle_rate_limiting response wd = (Raise ValueError, wd))
  /\ (forall v remaining, quota = Some v -> py_int v = Some remaining ->
      remaining <> 0%Z -> rate_limit_exceeded response = false ->
      handle_rate_limiting response wd = (Ok false, wd))
  /\ (forall v remaining, quota = Some v -> py_int v = Some remaining ->
      remaining = 0%Z \/ rate_limit_exceeded response = true ->
      (forall r, reset = Some r -> py_int r = None ->
         handle_rate_limiting response wd
         = (Raise ValueError, read_clock 1 wd))
      /\ (forall e, reset = None ->
          int_of_float (PrimFloat.add t1 3600) = Raise e ->
          handle_rate_limiting response wd = (Raise e, read_clock 1 wd))
      /\ (forall reset_time,
          (exists r, reset = Some r /\ py_int r = Some reset_time)
          \/ (reset = None
              /\ int_of_float (PrimFloat.add t1 3600) = Ok reset_time) ->
          handle_rate_limiting response wd
          = match float_of_int reset_time with
            | None => (Raise OverflowError, read_clock 2 wd)
            | Some r =>
                let wait := pause_length r t2 in
                if PrimFloat.is_nan wait
                then (Raise ValueError, read_clock 2 wd)
                else if PrimFloat.is_infinity wait || too_long wd wait
                then (Raise OverflowError, read_clock 2 wd)
                else (Ok true, time_sleep (Q_of_float wait) (read_clock 2 wd))
            end)).
Proof.
  cbv zeta. unfold handle_rate_limiting.
  destruct (header_get (headers response) (str "X-RateLimit-Remaining"))
    as [v0 |] eqn:Hq.
  2: { repeat split; try reflexivity; intros; discriminate. }
  split; [discriminate|]. split.
  { intros v E Hv. injection E as <-. rewrite Hv. reflexivity. }
  split.
  { intros v remaining E Hv Hne Hex. injection E as <-. rewrite Hv.
    unfold pause_due. rewrite Hex.
    destruct (Z.eqb_spec remaining 0) as [E0 | _];
      [contradiction | reflexivity]. }
  intros v remaining E Hv Hpause. injection E as <-. rewrite Hv.
  assert (Hc : pause_due remaining response = true).
  { unfold pause_due. destruct Hpause as [-> | ->];
      [reflexivity | apply orb_true_r]. }
  rewrite Hc. unfold pause, reset_epoch. cbn [time_time].
  split; [|split].
  - intros r Hr Hi. rewrite Hr, Hi. reflexivity.
  - intros e Hr Hi. rewrite Hr, Hi. reflexivity.
  - intros reset_time [[r [Hr Hi]] | [Hr Hi]]; rewrite Hr, Hi;
      cbn [now reads slept stdout too_long]; unfold wait_time;
      (destruct (float_of_int reset_time) as [r0 |]; [|reflexivity]);
      fold (pause_length r0 (now wd (S (reads wd))));
      unfold py_sleep; cbn [now reads slept stdout too_long];
      (destruct (PrimFloat.is_nan _); [reflexivity|]);
      (destruct (_ || _); [reflexivity|]);
      rewrite pause_length_not_negative; reflexivity.
Qed.

(** The specification's two examples.  With remaining=0 and reset=now+5
    the call sleeps 6 seconds and asks for a retry. *)
Lemma handle_rate_limiting_quota_zero :
  handle_rate_limiting
    (plain_response 200
       [("X-RateLimit-Remaining", "0"); ("X-RateLimit-Reset", "1005")]%string
       "")
    world0
  = (Ok true, time_sleep 6 (read_clock 2 world0)).
Proof.
  destruct (@handle_rate_limiting_with_quota_header unit
              (plain_response 200
                 [("X-RateLimit-Remaining", "0");
                  ("X-RateLimit-Reset", "1005")]%string "")
              world0) as (_ & _ & _ & H).
  destruct (H (str "0") 0%Z eq_refl eq_refl (or_introl eq_refl))
    as (_ & _ & H3).
  exact (H3 1005%Z (or_introl (ex_intro _ (str "1005") (conj eq_refl eq_refl)))).
Defined.

(** With remaining=50 the call returns at once. *)
Example handle_rate_limiting_quota_left :
  handle_rate_limiting
    (plain_response 200 [("X-RateLimit-Remaining", "50")]%string "") world0
  = (Ok false, world0).
Proof. reflexivity. Qed.

(** When the reset header is missing the pause runs to one hour from the
    first reading of the clock. *)
Example handle_rate_limiting_default_reset :
  handle_rate_limiting
    (plain_response 200 [("x-ratelimit-remaining", "0")]%string "") world0
  = (Ok true, time_sleep 3601 (read_clock 2 world0)).
Proof. vm_compute. reflexivity. Qed.

(** The default reset time is the integer part of a float sum: with the
    clock just below 1 (0x1.fffffffffffffp-1) the sum is 3601.0, and the
    pause 3601 seconds. *)
Example handle_rate_limiting_default_reset_rounds :
  let wd := mkWorld (fun _ => 0x1.fffffffffffffp-1%float) 0 [] [] timer_limit in
  handle_rate_limiting
    (plain_response 200 [("X-RateLimit-Remaining", "0")]%string "") wd
  = (Ok true, time_sleep 3601 (read_clock 2 wd)).
Proof. vm_compute. reflexivity. Qed.

(** A reset header that is no integer: ValueError, after one reading of the
    clock. *)
Example handle_rate_limiting_bad_reset :
  handle_rate_limiting
    (plain_response 200
       [("X-RateLimit-Remaining", "0"); ("X-RateLimit-Reset", "soon")]%string
       "")
    world0
  = (Raise ValueError, read_clock 1 world0).
Proof. reflexivity. Qed.

(** A reset time too far ahead for the timer: OverflowError, and no
    pause. *)
Example handle_rate_limiting_far_reset :
  handle_rate_limiting
    (plain_response 200
       [("X-RateLimit-Remaining", "0");
        ("X-RateLimit-Reset", "10000000000")]%string "")
    world0
  = (Raise OverflowError, read_clock 2 world0).
Proof. vm_compute. reflexivity. Qed.


(** C4 as stated fails: a 403 response whose text says that the rate limit
    is exceeded, but which carries no X-RateLimit-Remaining header, is
    answered with False and no pause. *)
Lemma handle_rate_limiting_needs_header :
  rate_limit_exceeded
    (plain_response 403 [] "API rate limit exceeded for user") = true
  /\ handle_rate_limiting
       (plain_response 403 [] "API rate limit exceeded for user") world0
     = (Ok false, world0).
Proof. split; reflexivity. Qed.

(** ** ManifestLocator *)

Section ManifestLocatorFacts.

Variable b64decode_utf8 : pystr -> result pystr.

(** C10: when the response to the file request triggers a rate-limit pause,
    [find_file_in_branch] returns None, the value it also returns for a
    missing file, after that one request: the queue of file responses has
    lost its first entry only, and nothing else of the network was read. *)
Theorem find_file_none_after_pause
  (net : Net) (wd wd' : World) (file_response : Response FileData)
  (q : list (outcome FileData)) :
  file_q net = Responds file_response :: q ->
  handle_rate_limiting file_response wd = (Ok true, wd') ->
  find_file_in_branch b64decode_utf8 net wd
  = (Ok None, set_file_q q net, wd').
Proof.
  intros Hq Hpause. unfold find_file_in_branch. rewrite Hq. simpl.
  rewrite Hpause. reflexivity.
Qed.

(** A file that is not there gives the same None. *)
Lemma find_file_none_when_absent
  (net : Net) (wd : World) (file_response : Response FileData)
  (q : list (outcome FileData)) :
  file_q net = Responds file_response :: q ->
  handle_rate_limiting file_response wd = (Ok false, wd) ->
  status_code file_response <> 200%Z ->
  find_file_in_branch b64decode_utf8 net wd = (Ok None, set_file_q q net, wd).
Proof.
  intros Hq Hpause Hstatus. unfold find_file_in_branch. rewrite Hq. simpl.
  rewrite Hpause.
  destruct (Z.eqb_spec (status_code file_response) 200); [contradiction|].
  reflexivity.
Qed.

End ManifestLocatorFacts.

(** The manifest exists, and is reported absent after the pause. *)
Lemma manifest_lost_after_pause :
  find_file_in_branch decoded_as_is
    (set_file_q [Responds (manifest_response "0")] no_net) world0
  = (Ok None,
     set_file_q [] (set_file_q [Responds (manifest_response "0")] no_net),
     time_sleep 6 (read_clock 2 world0)).
Proof.
  exact (@find_file_none_after_pause decoded_as_is
           (set_file_q [Responds (manifest_response "0")] no_net)
           world0 (time_sleep 6 (read_clock 2 world0))
           (manifest_response "0") [] eq_refl eq_refl).
Defined.

(** The same response with quota left is a found file. *)
Example manifest_found :
  fst (fst (find_file_in_branch decoded_as_is
              (set_file_q [Responds (manifest_response "7")] no_net) world0))
  = Ok (Some (str "Zmxhc2sK")).
Proof. reflexivity. Qed.

(** ** BranchTreeResolver *)

(** The directory walk catches the exceptions of [requests] and of JSON
    decoding itself: what leaves it is of another class. *)
Lemma directory_files_raises dir_path net wd e net' wd' :
  get_directory_python_files dir_path net wd = (Raise e, net', wd') ->
  caught_by_walk e = false.
Proof.
  unfold get_directory_python_files.
  destruct (requests_get (contents_q net)) as [o q].
  destruct o as [r | e0].
  - destruct (negb (status_code r =? 200)%Z); [discriminate|].
    destruct (json r) as [items | e0]; [discriminate|].
    destruct (caught_by_walk e0) eqn:E; [discriminate|].
    intros H; inversion H; subst; exact E.
  - destruct (caught_by_walk e0) eqn:E; [discriminate|].
    intros H; inversion H; subst; exact E.
Qed.

Lemma walk_root_raises items : forall files net wd e net' wd',
  walk_root items files net wd = (Raise e, net', wd') ->
  caught_by_walk e = false.
Proof.
  induction items as [| item items IH]; intros files net wd e net' wd';
    cbn [walk_root].
  - discriminate.
  - destruct (is_python_file item); [apply IH|].
    destruct (opt_eqb (item_type item) (str "dir")); [|apply IH].
    destruct (match item_name item with
              | Some n => set_mem n important_dirs
              | None => false
              end); [|apply IH].
    destruct (get_directory_python_files (item_path item) net wd)
      as [[[dir_files | e0] net0] wd0] eqn:E.
    + apply IH.
    + intros H; inversion H; subst.
      eapply directory_files_raises; eauto.
Qed.

Lemma probe_dirs_raises names : forall files net wd e net' wd',
  probe_dirs names files net wd = (Raise e, net', wd') ->
  caught_by_walk e = false.
Proof.
  induction names as [| n names IH]; intros files net wd e net' wd';
    cbn [probe_dirs].
  - discriminate.
  - destruct (get_directory_python_files (Some n) net wd)
      as [[[dir_files | e0] net0] wd0] eqn:E.
    + apply IH.
    + intros H; inversion H; subst.
      eapply directory_files_raises; eauto.
Qed.

Lemma alternative_raises net wd e net' wd' :
  get_python_files_alternative net wd = (Raise e, net', wd') ->
  caught_by_walk e = false.
Proof.
  unfold get_python_files_alternative.
  destruct (requests_get (contents_q net)) as [o q].
  assert (Hh : forall (st : Net * World) e0,
             (if caught_by_walk e0
              then (Ok (@nil FileEntry), fst st, snd st)
              else (Raise e0, fst st, snd st)) = (Raise e, net', wd') ->
             caught_by_walk e = false).
  { intros st e0. destruct (caught_by_walk e0) eqn:E; [discriminate|].
    intros H; inversion H; subst; exact E. }
  destruct o as [r | e0]; [|apply Hh].
  destruct (handle_rate_limiting r wd) as [[[|] | e0] wd0];
    [discriminate | | apply Hh].
  destruct (negb (status_code r =? 200)%Z); [discriminate|].
  destruct (json r) as [items | e0]; [|apply Hh].
  destruct (walk_root items [] (set_contents_q q net) wd0)
    as [[[files | e0] net1] wd1] eqn:E1; [|apply Hh].
  destruct (length files <? 5); [|discriminate].
  destruct (probe_dirs _ files net1 wd1) as [[[files2 | e0] net2] wd2] eqn:E2;
    [discriminate | apply Hh].
Qed.

(** A second call of the fallback from the handler of the inner [try] does
    not happen: what the fallback raises is not a RequestException. *)
Lemma return_alternative_not_caught net wd e net' wd' :
  return_alternative net wd = (Raise e, net', wd') ->
  isRequestException e = false.
Proof.
  unfold return_alternative.
  destruct (get_python_files_alternative net wd)
    as [[[files | e0] net0] wd0] eqn:E; [discriminate|].
  intros H; inversion H; subst.
  apply alternative_raises in E. unfold caught_by_walk in E.
  apply orb_false_iff in E. tauto.
Qed.

Lemma fetch_tree_of_alternative net wd net1 wd1 :
  try_tree net wd = return_alternative net1 wd1 ->
  fetch_tree net wd = return_alternative net1 wd1.
Proof.
  intros H. unfold fetch_tree. rewrite H.
  destruct (return_alternative net1 wd1) as [[[a | e] net2] wd2] eqn:E;
    [reflexivity|].
  apply return_alternative_not_caught in E. rewrite E. reflexivity.
Qed.

Lemma attempts_of_return_alternative attempt todo net wd net1 wd1 :
  resolve_ref net wd = return_alternative net1 wd1 ->
  attempts (attempt :: todo) net wd = get_python_files_alternative net1 wd1.
Proof.
  intros H. cbn [attempts]. rewrite H. unfold return_alternative.
  destruct (get_python_files_alternative net1 wd1)
    as [[[files | e] net2] wd2] eqn:E; [reflexivity|].
  apply alternative_raises in E. unfold caught_by_walk in E.
  rewrite E. reflexivity.
Qed.

(** A tree response flagged as truncated is never the source of the
    returned list: the pass ends in the fallback, in a rate-limit pause
    followed by the next pass, or in an exception of the limiter. *)
Lemma truncated_tree_never_returned
  (net : Net) (wd : World) (tree_response : Response TreeData)
  (tq : list (outcome TreeData)) (tree_data : TreeData) :
  tree_q net = Responds tree_response :: tq ->
  json tree_response = Ok tree_data ->
  truncated tree_data = true ->
  exists wd',
    try_tree net wd = return_alternative (set_tree_q tq net) wd'
    \/ try_tree net wd = (Ok NextAttempt, set_tree_q tq net, wd')
    \/ exists e, try_tree net wd = (Raise e, set_tree_q tq net, wd')
                 /\ (e = ValueError \/ e = OverflowError).
Proof.
  intros Hq Hjson Htrunc. unfold try_tree. rewrite Hq. cbn [requests_get].
  destruct (handle_rate_limiting tree_response wd) as [[[|] | e] wd'] eqn:E;
    exists wd'.
  - right; left; reflexivity.
  - left. rewrite Hjson, Htrunc.
    destruct (negb (status_code tree_response =? 200)%Z); reflexivity.
  - right; right. exists e. split; [reflexivity|].
    exact (handle_rate_limiting_raises _ _ E).
Qed.

(** C1, as the code has it.  The branch reference is resolved and the
    recursive-tree response carries truncated=true.  What a pass of the
    retry loop, the first one of [get_branch_tree] included, then does
    depends on the limiter alone, and never on the partial list.  When the
    limiter answers False, the function returns what the directory walk
    returns on the rest of the network.  When it answers True (a pause),
    the loop goes on with the passes that are left, on the rest of the
    network: after the third pass that is the directory walk.  When it
    raises, the exception leaves the function and nothing more is asked
    for. *)
Theorem truncated_tree_uses_fallback
  (net : Net) (wd wd1 : World)
  (ref_response : Response BranchData) (bq : list (outcome BranchData))
  (branch_data : BranchData) (c : ascii) (sha : pystr)
  (tree_response : Response TreeData) (tq : list (outcome TreeData))
  (tree_data : TreeData) :
  branch_q net = Responds ref_response :: bq ->
  handle_rate_limiting ref_response wd = (Ok false, wd1) ->
  status_code ref_response = 200%Z ->
  json ref_response = Ok branch_data ->
  commit_sha branch_data = Some (c :: sha) ->
  tree_q net = Responds tree_response :: tq ->
  json tree_response = Ok tree_data ->
  truncated tree_data = true ->
  let net' := set_tree_q tq (set_branch_q bq net) in
  get_branch_tree net wd = attempts [0; 1; 2]%nat net wd
  /\ (forall wd2,
        attempts [] net' wd2 = get_python_files_alternative net' wd2)
  /\ forall attempt todo,
       match handle_rate_limiting tree_response wd1 with
       | (Ok false, wd2) =>
           attempts (attempt :: todo) net wd
           = get_python_files_alternative net' wd2
       | (Ok true, wd2) =>
           attempts (attempt :: todo) net wd = attempts todo net' wd2
       | (Raise e, wd2) =>
           attempts (attempt :: todo) net wd = (Raise e, net', wd2)
           /\ (e = ValueError \/ e = OverflowError)
       end.
Proof.
  intros Hbq Hr1 Hs Hj Hsha Htq Hjt Htr net'.
  split; [reflexivity|]. split; [reflexivity|].
  intros attempt todo.
  assert (Hres : resolve_ref net wd = fetch_tree (set_branch_q bq net) wd1).
  { unfold resolve_ref. rewrite Hbq. cbn [requests_get]. rewrite Hr1, Hs.
    cbn [Z.eqb Pos.eqb negb]. rewrite Hj, Hsha. reflexivity. }
  assert (Htry : try_tree (set_branch_q bq net) wd1
                 = match handle_rate_limiting tree_response wd1 with
                   | (Ok false, wd2) => return_alternative net' wd2
                   | (Ok true, wd2) => (Ok NextAttempt, net', wd2)
                   | (Raise e, wd2) => (Raise e, net', wd2)
                   end).
  { unfold try_tree. cbn [tree_q set_branch_q]. rewrite Htq.
    cbn [requests_get].
    destruct (handle_rate_limiting tree_response wd1) as [[[|] | e] wd2];
      try reflexivity.
    rewrite Hjt, Htr.
    destruct (negb (status_code tree_response =? 200)%Z); reflexivity. }
  destruct (handle_rate_limiting tree_response wd1) as [[[|] | e] wd2] eqn:E.
  - cbn [attempts]. rewrite Hres. unfold fetch_tree. rewrite Htry.
    reflexivity.
  - apply attempts_of_return_alternative. rewrite Hres.
    apply fetch_tree_of_alternative, Htry.
  - pose proof (handle_rate_limiting_raises _ _ E) as He.
    split; [|exact He].
    cbn [attempts]. rewrite Hres. unfold fetch_tree. rewrite Htry.
    destruct He as [-> | ->]; reflexivity.
Qed.

Lemma truncated_tree_uses_fallback_example :
  let net := net_truncated [] [Responds ref_ok] in
  let net' := set_tree_q [] (set_branch_q [] net) in
  get_branch_tree net world0 = attempts [0; 1; 2]%nat net world0
  /\ (forall wd2,
        attempts [] net' wd2 = get_python_files_alternative net' wd2)
  /\ forall attempt todo,
       attempts (attempt :: todo) net world0
       = get_python_files_alternative net' world0.
Proof.
  exact (@truncated_tree_uses_fallback
           (net_truncated [] [Responds ref_ok]) world0 world0
           ref_ok [] (mkBranchData (Some (str "4f2a9c1"))) "4"%char
           (str "f2a9c1") (tree_truncated []) [] partial_tree
           eq_refl eq_refl eq_refl eq_refl eq_refl eq_refl eq_refl eq_refl).
Defined.

(** Three passes, each with a truncated tree that comes with the quota
    spent: the partial lists are dropped, and the directory walk after the
    loop finds main.py. *)
Example truncated_tree_paused_three_times :
  fst (fst (get_branch_tree
              (mkNet [] [] [] [Responds ref_ok; Responds ref_ok; Responds ref_ok]
                 [Responds (tree_truncated quota_spent);
                  Responds (tree_truncated quota_spent);
                  Responds (tree_truncated quota_spent)]
                 walk_answers [])
              world0))
  = Ok [main_py].
Proof. vm_compute. reflexivity. Qed.

Example fallback_finds_main_py :
  fst (fst (get_python_files_alternative
              (net_truncated [] [Responds ref_ok]) world0))
  = Ok [main_py].
Proof. reflexivity. Qed.

(** C1 as stated fails: the truncated tree arrives with the quota spent;
    the pass pauses and the next one finds the branch gone.  The result is
    the empty list, the directory listings were never asked for, and the
    walk would have found main.py. *)
Lemma truncated_tree_paused_no_fallback :
  fst (fst (get_branch_tree
              (net_truncated quota_spent [Responds ref_ok; Responds ref_missing])
              world0))
  = Ok []
  /\ contents_q
       (snd (fst (get_branch_tree
                    (net_truncated quota_spent
                       [Responds ref_ok; Responds ref_missing])
                    world0)))
     = walk_answers
  /\ fst (fst (get_python_files_alternative
                 (net_truncated quota_spent
                    [Responds ref_ok; Responds ref_missing])
                 world0))
     = Ok [main_py].
Proof. repeat split; reflexivity. Qed.

(** C3, as the code has it.  When the three requests for the branch
    reference all fail with a transient network error, [get_branch_tree]
    pauses 1, 2 and 4 seconds and returns what the directory walk returns.
    When the reference lookup is answered with a status other than 200 (and
    no rate-limit pause), it returns the empty list and asks for no
    directory listing. *)
Theorem ref_failure_outcomes
  (net : Net) (wd : World) (bq : list (outcome BranchData)) :
  (forall e1 e2 e3,
      branch_q net = Fails e1 :: Fails e2 :: Fails e3 :: bq ->
      isRequestException e1 = true ->
      isRequestException e2 = true ->
      isRequestException e3 = true ->
      get_branch_tree net wd
      = get_python_files_alternative (set_branch_q bq net)
          (time_sleep 4 (time_sleep 2 (time_sleep 1 wd))))
  /\ (forall ref_response wd1,
         branch_q net = Responds ref_response :: bq ->
         handle_rate_limiting ref_response wd = (Ok false, wd1) ->
         status_code ref_response <> 200%Z ->
         get_branch_tree net wd = (Ok [], set_branch_q bq net, wd1)).
Proof.
  split.
  - intros e1 e2 e3 Hq H1 H2 H3.
    unfold get_branch_tree. cbn [max_retries seq attempts].
    unfold resolve_ref at 1. rewrite Hq. cbn [requests_get]. rewrite H1.
    cbn [orb].
    unfold resolve_ref at 1. cbn [branch_q set_branch_q requests_get].
    rewrite H2. cbn [orb].
    unfold resolve_ref at 1. cbn [branch_q set_branch_q requests_get].
    rewrite H3. cbn [orb].
    destruct net; reflexivity.
  - intros ref_response wd1 Hq Hr Hs.
    unfold get_branch_tree. cbn [max_retries seq attempts].
    unfold resolve_ref. rewrite Hq. cbn [requests_get]. rewrite Hr.
    destruct (Z.eqb_spec (status_code ref_response) 200); [contradiction|].
    reflexivity.
Qed.

Lemma ref_failure_outcomes_example :
  get_branch_tree
    (net_ref [Fails RequestException; Fails RequestException;
              Fails ChunkedEncodingError]) world0
  = get_python_files_alternative (net_ref [])
      (time_sleep 4 (time_sleep 2 (time_sleep 1 world0)))
  /\ get_branch_tree (net_ref [Responds ref_missing]) world0
     = (Ok [], net_ref [], world0).
Proof.
  split.
  - exact (proj1 (@ref_failure_outcomes
             (net_ref [Fails RequestException; Fails RequestException;
                       Fails ChunkedEncodingError]) world0 [])
             RequestException RequestException ChunkedEncodingError
             eq_refl eq_refl eq_refl eq_refl).
  - apply (proj2 (@ref_failure_outcomes
             (net_ref [Responds ref_missing]) world0 []) ref_missing world0);
      [reflexivity | reflexivity | discriminate].
Defined.

(** C3 as stated fails: the reference lookup answers 404; the result is the
    empty list, no directory listing was asked for, and the walk would have
    found main.py. *)
Lemma ref_not_found_no_fallback :
  get_branch_tree (net_ref [Responds ref_missing]) world0
  = (Ok [], net_ref [], world0)
  /\ fst (fst (get_python_files_alternative
                 (net_ref [Responds ref_missing]) world0))
     = Ok [main_py].
Proof. split; reflexivity. Qed.

(** ** RequirementsParser *)

(** Lines of a requirements file, as the specification gives them. *)
Example parse_pinned :
  parse_requirement_line (str "requests==2.31.0  # pinned")
  = Some (mkSpec (str "requests") (str "==2.31.0") (str "requests==2.31.0")).
Proof. vm_compute. reflexivity. Qed.

Example parse_bare :
  parse_requirement_line (str "  flask  ")
  = Some (mkSpec (str "flask") (str "latest") (str "flask")).
Proof. vm_compute. reflexivity. Qed.

(** [>=] is tried before [>]. *)
Example parse_ge_not_gt :
  parse_requirement_line (str "numpy >= 1.20")
  = Some (mkSpec (str "numpy") (str ">=1.20") (str "numpy >= 1.20")).
Proof. vm_compute. reflexivity. Qed.

Example parse_comment_only :
  parse_requirement_line (str "   # nothing here") = None.
Proof. vm_compute. reflexivity. Qed.

Section ParserFacts.

Lemma existsb_strip (p : ascii -> bool) (s : pystr) :
  existsb p s = false -> existsb p (strip s) = false.
Proof.
  destruct (strip_split s) as [w1 [w2 [Hs _]]]. intros H. rewrite Hs in H.
  rewrite !existsb_app in H. apply orb_false_iff in H. destruct H as [_ H].
  apply orb_false_iff in H. tauto.
Qed.

Lemma uncomment_no_hash (line : pystr) :
  existsb (fun x => Ascii.eqb x hash) (uncomment line) = false.
Proof.
  unfold uncomment. apply existsb_strip. rewrite split_head.
  change (str "#") with [hash].
  destruct (split_once [hash] line) as [[a b] |] eqn:E.
  - eapply split_once_char_before, E.
  - rewrite <- contains_char. unfold contains. rewrite E. reflexivity.
Qed.

Lemma uncomment_ends (line : pystr) :
  first_space (uncomment line) = false /\ last_space (uncomment line) = false.
Proof. apply strip_ends. Qed.

(** A text without '#' does not hold "#egg=": the test of line 626 fails. *)
Lemma no_egg_fragment (line : pystr) :
  existsb (fun x => Ascii.eqb x hash) line = false ->
  split (str "#egg=") line = [line].
Proof.
  intros H. unfold split.
  assert (E : split_once (str "#egg=") line = None).
  { destruct (split_once (str "#egg=") line) as [[a b] |] eqn:E;
      [|reflexivity].
    apply split_once_some in E. rewrite E in H.
    rewrite existsb_app in H. apply orb_false_iff in H. destruct H as [_ H].
    cbn in H. discriminate. }
  destruct (length line); cbn [split_max]; [reflexivity|].
  rewrite E. reflexivity.
Qed.

Lemma match_operator_find (line : pystr) : forall ops,
  match_operator ops line
  = match find (fun operator => contains operator line) ops with
    | Some operator =>
        let parts := split_max 1 operator line in
        Some (mkSpec (strip (item parts 0))
                     (operator ++ strip (item parts 1)) line)
    | None => None
    end.
Proof.
  induction ops as [| op ops IH]; [reflexivity|].
  cbn [match_operator find]. destruct (contains op line); [reflexivity|].
  exact IH.
Qed.

(** The three results [parse_requirement_line] can give, by the shape of
    the line once its comment is removed. *)
Lemma parse_cases (line : pystr) (spec : DependencySpec) :
  parse_requirement_line line = Some spec ->
  let body := uncomment line in
  body <> []
  /\ ((url_like body = true /\ spec = mkSpec body (str "url") body)
      \/ (url_like body = false
          /\ exists operator before after,
               matched_operator body = Some operator
               /\ split_once operator body = Some (before, after)
               /\ spec = mkSpec (strip before) (operator ++ strip after) body)
      \/ (url_like body = false /\ matched_operator body = None
          /\ spec = mkSpec body (str "latest") body)).
Proof.
  intros H. cbv zeta. unfold parse_requirement_line in H. cbv zeta in H.
  pose proof (uncomment_no_hash line) as Hh.
  destruct (uncomment_ends line) as [Hf Hl].
  remember (uncomment line) as body eqn:Eb. clear Eb.
  destruct body as [| c t] eqn:Et; [discriminate|]. rewrite <- Et in *.
  split; [rewrite Et; discriminate|].
  fold (url_like body) in H. destruct (url_like body) eqn:Eu.
  - left. split; [reflexivity|].
    rewrite no_egg_fragment in H by exact Hh.
    cbn in H. inversion H; reflexivity.
  - right. rewrite match_operator_find in H. fold (matched_operator body) in H.
    destruct (matched_operator body) as [op |] eqn:Em.
    + left. split; [reflexivity|].
      assert (Hc : contains op body = true).
      { unfold matched_operator in Em. apply find_some in Em. tauto. }
      unfold contains in Hc.
      destruct (split_once op body) as [[a b] |] eqn:Es; [|discriminate].
      exists op, a, b. split; [reflexivity|]. split; [exact Es|].
      cbv zeta in H. cbn [split_max] in H. rewrite Es in H.
      cbn [item nth] in H. inversion H; reflexivity.
    + right. split; [reflexivity|]. split; [reflexivity|].
      inversion H. f_equal. apply strip_id; assumption.
Qed.

End ParserFacts.

(** The seven operators, one goal each. *)
Ltac each_operator H :=
  unfold operators in H; cbn [map In str list_ascii_of_string] in H;
  repeat (destruct H as [H | H]; [subst | ]); try contradiction.

Section ParserProperties.

Lemma matched_operator_some (body operator : pystr) :
  matched_operator body = Some operator ->
  In operator operators /\ contains operator body = true.
Proof.
  unfold matched_operator. intros H. apply find_some in H. exact H.
Qed.

Lemma split_once_nil_iff (sep s a b : pystr) :
  split_once sep s = Some (a, b) -> (a = [] <-> startswith s sep = true).
Proof.
  destruct s as [| c s]; cbn [split_once].
  - destruct (startswith [] sep); [|discriminate].
    intros H; inversion H; tauto.
  - destruct (startswith (c :: s) sep).
    + intros H; inversion H; tauto.
    + destruct (split_once sep s) as [[a' b'] |]; [|discriminate].
      intros H; inversion H. split; discriminate.
Qed.

Lemma front_first_space (a rest : pystr) :
  first_space (a ++ rest) = false -> a <> [] -> first_space a = false.
Proof. destruct a; [contradiction | intros H _; exact H]. Qed.

(** A line that starts with an operator is not a URL line. *)
Lemma operator_start_not_url (body operator : pystr) :
  In operator operators -> startswith body operator = true ->
  url_like body = false.
Proof.
  intros Hin Hs. apply startswith_inv in Hs. rewrite Hs.
  each_operator Hin; reflexivity.
Qed.

(** C8, as the code has it: the name of a parsed specification is empty
    exactly when the line, its comment and surrounding blanks removed,
    starts with the operator the parser matches (as in "==1.0"); in every
    other case the name is not empty. *)
Theorem name_empty_iff (line : pystr) (spec : DependencySpec) :
  parse_requirement_line line = Some spec ->
  (name spec = [] <->
   exists operator,
     matched_operator (uncomment line) = Some operator
     /\ startswith (uncomment line) operator = true).
Proof.
  intros H. apply parse_cases in H. cbv zeta in H.
  destruct (uncomment_ends line) as [Hf _].
  remember (uncomment line) as body eqn:Eb. clear Eb.
  destruct H as [Hne [[Hu ->] | [[Hu [op [a [b [Hm [Hs ->]]]]]] | [Hu [Hm ->]]]]];
    cbn [name].
  - split; [intros E; contradiction|].
    intros [op [Hm Hs]]. apply matched_operator_some in Hm.
    rewrite (@operator_start_not_url body op) in Hu by tauto. discriminate.
  - pose proof (@split_once_nil_iff _ _ _ _ Hs) as Hnil.
    pose proof (@split_once_some _ _ _ _ Hs) as Hbody.
    split.
    + intros E. exists op. split; [exact Hm|]. apply Hnil.
      destruct a as [| c a]; [reflexivity|].
      apply strip_nil_front; [|exact E].
      rewrite Hbody in Hf. exact Hf.
    + intros [op' [Hm' Hs']]. rewrite Hm in Hm'. inversion Hm'; subst op'.
      apply Hnil in Hs'. subst a. reflexivity.
  - split; [intros E; contradiction|].
    intros [op [Hm' _]]. rewrite Hm in Hm'. discriminate.
Qed.

Lemma name_empty_iff_example :
  name (mkSpec [] (str "==1.0") (str "==1.0")) = [] <->
  exists operator,
    matched_operator (uncomment (str "==1.0  # any")) = Some operator
    /\ startswith (uncomment (str "==1.0  # any")) operator = true.
Proof.
  exact (@name_empty_iff (str "==1.0  # any")
           (mkSpec [] (str "==1.0") (str "==1.0")) eq_refl).
Defined.

(** C8 as stated fails: the line "==1.0" is parsed, and its name is the
    empty string. *)
Lemma operator_only_line_has_empty_name :
  parse_requirement_line (str "==1.0")
  = Some (mkSpec [] (str "==1.0") (str "==1.0")).
Proof. vm_compute. reflexivity. Qed.

(** C2: the code removes everything from the first '#' before it looks for
    the "#egg=" fragment, so the fragment is never seen: the whole URL
    becomes the name and the sentinel is "url". *)
Theorem egg_fragment_is_lost :
  parse_requirement_line (str "git+https://example.com/x.git#egg=foo")
  = Some (mkSpec (str "git+https://example.com/x.git") (str "url")
                 (str "git+https://example.com/x.git")).
Proof. vm_compute. reflexivity. Qed.

(** X5: no line at all is given the sentinel "git": the branch of lines
    626-627 that reads the "#egg=" fragment is never taken. *)
Lemma git_sentinel_never (line : pystr) (spec : DependencySpec) :
  parse_requirement_line line = Some spec -> version spec <> str "git".
Proof.
  intros H. apply parse_cases in H. cbv zeta in H.
  destruct H as [_ [[_ ->] | [[_ [op [a [b [Hm [_ ->]]]]]] | [_ [_ ->]]]]];
    cbn [version]; try discriminate.
  apply matched_operator_some in Hm. destruct Hm as [Hin _].
  each_operator Hin; discriminate.
Qed.

End ParserProperties.

(** *** Re-parsing the text written for a package *)

Lemma existsb_adj (c1 c2 : ascii) : forall s,
  existsb (fun x => Ascii.eqb x c1) s = false -> adj c1 c2 s = false.
Proof.
  induction s as [| x s IH]; [reflexivity|]. cbn [existsb]. intros H.
  apply orb_false_iff in H. destruct H as [Hx Hs].
  rewrite adj_cons, Hx, IH by exact Hs. reflexivity.
Qed.

Lemma existsb_last_is (c : ascii) (s : pystr) :
  existsb (fun x => Ascii.eqb x c) s = false -> last_is c s = false.
Proof.
  intros H. unfold last_is. destruct (rev s) as [| x t] eqn:E; [reflexivity|].
  assert (Hin : In x s) by (apply in_rev; rewrite E; left; reflexivity).
  destruct (Ascii.eqb x c) eqn:Ex; [|reflexivity].
  assert (existsb (fun x => Ascii.eqb x c) s = true).
  { apply existsb_exists. exists x. auto. }
  congruence.
Qed.

(** What the absence of a two-character operator from the line says about
    the name and the constraint. *)
Lemma pair_absent (c1 c2 : ascii) (n w1 op w2 v : pystr) :
  contains [c1; c2] (n ++ w1 ++ op ++ w2 ++ v) = false ->
  adj c1 c2 n = false /\ adj c1 c2 v = false.
Proof.
  rewrite contains_pair. rewrite !adj_app. intros H. split_orb.
  split; assumption.
Qed.

Lemma char_absent (c : ascii) (n w1 op w2 v : pystr) :
  contains [c] (n ++ w1 ++ op ++ w2 ++ v) = false ->
  existsb (fun x => Ascii.eqb x c) n = false
  /\ existsb (fun x => Ascii.eqb x c) v = false.
Proof.
  rewrite contains_char. rewrite !existsb_app. intros H. split_orb.
  split; assumption.
Qed.

Lemma pair_first (c1 c2 : ascii) (body n w1 b : pystr) :
  split_once [c1; c2] body = Some (n ++ w1, b) -> adj c1 c2 n = false.
Proof.
  intros H. apply split_once_pair_before in H. rewrite <- app_assoc in H.
  rewrite adj_app in H. split_orb. assumption.
Qed.

Lemma char_first (c : ascii) (body n w1 b : pystr) :
  split_once [c] body = Some (n ++ w1, b) ->
  existsb (fun x => Ascii.eqb x c) n = false.
Proof.
  intros H. apply split_once_char_before in H. rewrite existsb_app in H.
  apply orb_false_iff in H. tauto.
Qed.

Lemma endswith_char (c : ascii) (s : pystr) : endswith s [c] = last_is c s.
Proof. unfold endswith, last_is. cbn [rev app]. apply startswith_char. Qed.

Lemma uncomment_id (s : pystr) :
  existsb (fun x => Ascii.eqb x hash) s = false ->
  first_space s = false -> last_space s = false -> uncomment s = s.
Proof.
  intros Hh Hf Hl. unfold uncomment. rewrite split_head.
  change (str "#") with [hash].
  assert (E : split_once [hash] s = None).
  { pose proof (contains_char hash s) as Hc. rewrite Hh in Hc.
    unfold contains in Hc. destruct (split_once [hash] s); [discriminate|].
    reflexivity. }
  rewrite E. apply strip_id; assumption.
Qed.

(** Occurrences of a pair in a name, an operator and a constraint put side
    by side. *)
Lemma contains_pair_at2 (d1 d2 c1 c2 : ascii) (n v : pystr) :
  contains [d1; d2] (n ++ c1 :: c2 :: v)
  = adj d1 d2 n || (last_is d1 n && Ascii.eqb c1 d2)
    || (Ascii.eqb c1 d1 && Ascii.eqb c2 d2)
    || (Ascii.eqb c2 d1 && first_is d2 v) || adj d1 d2 v.
Proof.
  rewrite contains_pair, adj_app, !adj_cons. cbn [first_is].
  rewrite !orb_assoc. reflexivity.
Qed.

Lemma contains_pair_at1 (d1 d2 c : ascii) (n v : pystr) :
  contains [d1; d2] (n ++ c :: v)
  = adj d1 d2 n || (last_is d1 n && Ascii.eqb c d2)
    || (Ascii.eqb c d1 && first_is d2 v) || adj d1 d2 v.
Proof.
  rewrite contains_pair, adj_app, !adj_cons. cbn [first_is].
  rewrite !orb_assoc. reflexivity.
Qed.

Lemma contains_char_at (d : ascii) (n t : pystr) :
  contains [d] (n ++ t)
  = existsb (fun x => Ascii.eqb x d) n || existsb (fun x => Ascii.eqb x d) t.
Proof. rewrite contains_char. apply existsb_app. Qed.

(** The name, the operator and the constraint put side by side: a line
    that is its own stripped, comment-free form, and no URL line. *)
Lemma glued_line (body n w1 op w2 v : pystr) :
  In op operators ->
  body = n ++ w1 ++ op ++ w2 ++ v ->
  url_like body = false ->
  existsb (fun x => Ascii.eqb x hash) n = false ->
  existsb (fun x => Ascii.eqb x hash) v = false ->
  first_space n = false -> last_space v = false ->
  uncomment (n ++ op ++ v) = n ++ op ++ v
  /\ url_like (n ++ op ++ v) = false
  /\ n ++ op ++ v <> [].
Proof.
  intros Hin -> Hu Hhn Hhv Hfn Hlv. split; [|split].
  - apply uncomment_id.
    + rewrite !existsb_app, Hhn, Hhv. each_operator Hin; reflexivity.
    + rewrite first_space_app. destruct n; [|exact Hfn].
      each_operator Hin; reflexivity.
    + rewrite app_assoc, last_space_app. destruct v; [|exact Hlv].
      rewrite last_space_app. each_operator Hin; reflexivity.
  - unfold url_like in *.
    destruct n as [| n1 [| n2 [| n3 [| n4 n]]]];
      each_operator Hin; cbn in *; rewrite ?andb_false_r; try reflexivity;
      exact Hu.
  - destruct n; each_operator Hin; discriminate.
Qed.

Lemma parse_of_line (s : pystr) :
  uncomment s = s -> s <> [] -> url_like s = false ->
  parse_requirement_line s
  = match match_operator operators s with
    | Some spec => Some spec
    | None => Some (mkSpec (strip s) (str "latest") s)
    end.
Proof.
  intros Hid Hne Hu. unfold parse_requirement_line. cbv zeta. rewrite Hid.
  destruct s as [| c s]; [contradiction|]. fold (url_like (c :: s)).
  rewrite Hu. reflexivity.
Qed.

Arguments last_is : simpl never.
Arguments first_is c !s /.

(** Rewriting with the truth values known of boolean terms. *)
Ltac use_facts :=
  repeat match goal with
         | H : ?x = ?b |- context [?x] =>
             lazymatch b with true => idtac | false => idtac end;
             lazymatch x with true => fail | false => fail | _ => idtac end;
             rewrite H
         end.

Ltac tidy :=
  cbn [Ascii.eqb Bool.eqb andb orb negb existsb first_is app];
  rewrite ?andb_false_r, ?orb_false_r, ?andb_true_r, ?orb_true_r.

Ltac tidy_in H :=
  cbn [Ascii.eqb Bool.eqb andb orb negb existsb first_is app] in H;
  rewrite ?andb_false_r, ?orb_false_r, ?andb_true_r, ?orb_true_r in H.

Ltac absent :=
  repeat match goal with
         | E : contains [_; _] _ = false |- _ =>
             apply pair_absent in E; destruct E
         | E : contains [_] _ = false |- _ =>
             apply char_absent in E; destruct E
         end.

Lemma split_pair_items (c1 c2 : ascii) (n v : pystr) :
  adj c1 c2 n = false -> last_is c1 n && Ascii.eqb c1 c2 = false ->
  split_max 1 [c1; c2] (n ++ c1 :: c2 :: v) = [n; v].
Proof.
  intros Hn Hl. cbn [split_max]. rewrite split_once_pair_at; [reflexivity|].
  rewrite adj_app, Hn. cbn [adj first_is orb]. rewrite Hl. reflexivity.
Qed.

Lemma split_char_items (c : ascii) (n v : pystr) :
  existsb (fun x => Ascii.eqb x c) n = false ->
  split_max 1 [c] (n ++ c :: v) = [n; v].
Proof.
  intros Hn. cbn [split_max]. rewrite split_once_char_at; [reflexivity|].
  exact Hn.
Qed.

Lemma reparse_operator (body op a b : pystr) :
  first_space body = false -> last_space body = false ->
  existsb (fun x => Ascii.eqb x hash) body = false ->
  url_like body = false ->
  matched_operator body = Some op ->
  split_once op body = Some (a, b) ->
  glued (mkSpec (strip a) (op ++ strip b) body) = false ->
  exists spec',
    parse_requirement_line (strip a ++ op ++ strip b) = Some spec'
    /\ name spec' = strip a /\ version spec' = op ++ strip b.
Proof.
  intros Hf Hl Hh Hu Hm Hs Hg.
  pose proof (split_once_some _ _ Hs) as Hbody.
  assert (Hfa : first_space a = false).
  { rewrite Hbody in Hf. destruct a; [reflexivity | exact Hf]. }
  assert (Hlb : last_space b = false).
  { rewrite Hbody, app_assoc, last_space_app in Hl.
    destruct b; [reflexivity | exact Hl]. }
  destruct (strip_front a Hfa) as [w1 [Ha Hw1]].
  destruct (strip_back b Hlb) as [w2 [Hb Hw2]].
  destruct (strip_ends a) as [Hfn Hln].
  destruct (strip_ends b) as [Hfv Hlv].
  assert (Hhn : existsb (fun x => Ascii.eqb x hash) (strip a) = false
                /\ existsb (fun x => Ascii.eqb x hash) (strip b) = false).
  { rewrite Hbody, !existsb_app in Hh. split_orb.
    split; apply existsb_strip; assumption. }
  destruct Hhn as [Hhn Hhv].
  assert (Hsn : strip (strip a) = strip a) by apply strip_idem.
  assert (Hsv : strip (strip b) = strip b) by apply strip_idem.
  remember (strip a) as n eqn:En. remember (strip b) as v eqn:Ev.
  clear En Ev. subst a b.
  rewrite <- !app_assoc in Hbody.
  pose proof (@matched_operator_some body op Hm) as [Hin _].
  destruct (@glued_line body n w1 op w2 v Hin Hbody Hu Hhn Hhv Hfn Hlv)
    as [Hid [Hur Hne]].
  rewrite (@parse_of_line _ Hid Hne Hur).
  clear Hid Hur Hne Hu Hh Hf Hl Hfa Hlb Hhn Hhv Hin Hw1 Hw2 Hfn Hln.
  cbn [name version] in Hg. unfold glued in Hg. cbn [name version] in Hg.
  change (str "=") with [eq_sign] in Hg. rewrite endswith_char in Hg.
  unfold eq_sign in Hg.
  unfold matched_operator, operators in Hm.
  cbn [map find str list_ascii_of_string] in Hm.
  subst body.
  rewrite match_operator_find. unfold operators.
  cbn [map find str list_ascii_of_string].
  repeat match type of Hm with
         | (if ?c then _ else _) = _ =>
             let E := fresh "E" in destruct c eqn:E; [inversion Hm; subst op|]
         end; try discriminate; clear Hm.
  all: absent.
  all: cbn [app]; rewrite ?contains_pair_at2, ?contains_pair_at1, ?contains_char_at.
  all: destruct v as [| x v];
    [| destruct (Ascii.eqb x "=") eqn:Ex;
       [apply Ascii.eqb_eq in Ex; subst x|]].
  all: cbn in Hg; rewrite ?Ex in Hg; tidy_in Hg; try discriminate Hg.
  all: cbn [existsb] in *; split_orb.
  all: repeat match goal with
              | |- context [if ?c then Some _ else _] =>
                  let Hc := fresh "Hc" in
                  first
                    [ assert (Hc : c = false)
                        by (use_facts; tidy; use_facts; tidy; reflexivity)
                    | assert (Hc : c = true)
                        by (use_facts; tidy; use_facts; tidy; reflexivity) ];
                  rewrite Hc; clear Hc
              end.
  all: eexists; (split; [reflexivity|]); cbn [name version].
  all: try (apply pair_first in Hs); try (apply char_first in Hs).
  all: first
         [ rewrite split_pair_items
             by (first [assumption | use_facts; tidy; reflexivity])
         | rewrite split_char_items by assumption ].
  all: cbn [item nth app]; rewrite ?Hsn, ?Hsv; split; try reflexivity.
  all: do 2 f_equal; apply strip_id; [assumption|].
  all: change ("="%char :: v) with (["="%char] ++ v) in Hlv;
    rewrite last_space_app in Hlv; destruct v; [reflexivity | exact Hlv].
Qed.

(** C7, as the code has it: for a specification parsed from a line that is
    no URL line, and in which no [=] has come to stand next to the operator
    (see [glued]), parsing the text written for the package, the name
    followed by the constraint or the bare name when the constraint is
    "latest", gives the same name and the same constraint again. *)
Theorem reparse_recovers (line : pystr) (spec : DependencySpec) :
  parse_requirement_line line = Some spec ->
  version spec <> str "url" ->
  glued spec = false ->
  exists spec',
    parse_requirement_line (package_text spec) = Some spec'
    /\ name spec' = name spec /\ version spec' = version spec.
Proof.
  intros H Hurl Hg. apply parse_cases in H. cbv zeta in H.
  pose proof (uncomment_no_hash line) as Hh.
  destruct (uncomment_ends line) as [Hf Hl].
  remember (uncomment line) as body eqn:Eb. clear Eb.
  destruct H as [Hne [[Hu ->] | [[Hu [op [a [b [Hm [Hs ->]]]]]] | [Hu [Hm ->]]]]].
  - cbn [version] in Hurl. contradiction.
  - unfold package_text. cbn [name version].
    rewrite pystr_eqb_neq.
    + apply (@reparse_operator body op a b); assumption.
    + apply matched_operator_some in Hm. destruct Hm as [Hin _].
      each_operator Hin; discriminate.
  - unfold package_text. cbn [name version]. rewrite app_nil_r.
    rewrite parse_of_line; try assumption.
    + rewrite match_operator_find.
      unfold matched_operator in Hm. rewrite Hm.
      rewrite strip_id by assumption. eauto.
    + apply uncomment_id; assumption.
Qed.

Lemma reparse_recovers_example :
  exists spec',
    parse_requirement_line
      (package_text (mkSpec (str "numpy") (str ">=1.20") (str "numpy >= 1.20")))
    = Some spec'
    /\ name spec' = str "numpy" /\ version spec' = str ">=1.20".
Proof.
  apply (@reparse_recovers (str "numpy >= 1.20  # arrays")
           (mkSpec (str "numpy") (str ">=1.20") (str "numpy >= 1.20"))).
  - vm_compute. reflexivity.
  - discriminate.
  - vm_compute. reflexivity.
Defined.

(** C7 as stated fails on a URL line: the sentinel "url" is written after
    the name, and the text parses to another name. *)
Lemma url_line_not_recovered :
  parse_requirement_line (str "http://host/pkg.tar.gz")
  = Some (mkSpec (str "http://host/pkg.tar.gz") (str "url")
                 (str "http://host/pkg.tar.gz"))
  /\ parse_requirement_line
       (package_text (mkSpec (str "http://host/pkg.tar.gz") (str "url")
                             (str "http://host/pkg.tar.gz")))
     = Some (mkSpec (str "http://host/pkg.tar.gzurl") (str "url")
                    (str "http://host/pkg.tar.gzurl")).
Proof. split; vm_compute; reflexivity. Qed.

(** The three shapes set apart by [glued] do fail. *)
Example glued_name_not_recovered :
  parse_requirement_line (str "a= ==1")
  = Some (mkSpec (str "a=") (str "==1") (str "a= ==1"))
  /\ parse_requirement_line (str "a===1")
     = Some (mkSpec (str "a") (str "===1") (str "a===1")).
Proof. split; vm_compute; reflexivity. Qed.

Example glued_constraint_not_recovered :
  parse_requirement_line (str "a>= =1")
  = Some (mkSpec (str "a") (str ">==1") (str "a>= =1"))
  /\ parse_requirement_line (str "a>==1")
     = Some (mkSpec (str "a>") (str "==1") (str "a>==1")).
Proof. split; vm_compute; reflexivity. Qed.

Example glued_blank_not_recovered :
  parse_requirement_line (str "a> = 1")
  = Some (mkSpec (str "a") (str ">= 1") (str "a> = 1"))
  /\ parse_requirement_line (str "a>= 1")
     = Some (mkSpec (str "a") (str ">=1") (str "a>= 1")).
Proof. split; vm_compute; reflexivity. Qed.

(** ** ImportExtractor *)

Section ImportFacts.

Lemma fold_left_inv (A B : Type) (P : A -> Prop) (f : A -> B -> A) :
  (forall acc x, P acc -> P (f acc x)) ->
  forall l init, P init -> P (fold_left f l init).
Proof.
  intros Hf. induction l as [| x l IH]; intros init H; [exact H|].
  cbn. apply IH, Hf, H.
Qed.

Lemma set_mem_true (x : pystr) (s : list pystr) : set_mem x s = true <-> In x s.
Proof.
  unfold set_mem. destruct (in_dec pystr_dec x s); split; auto; discriminate.
Qed.


Lemma set_add_forall (P : pystr -> Prop) (x : pystr) (s : list pystr) :
  P x -> Forall P s -> Forall P (set_add x s).
Proof.
  intros Hx H. unfold set_add. destruct (set_mem x s); [exact H|].
  apply Forall_app. split; [exact H | constructor; [exact Hx | constructor]].
Qed.




(** A comment line and a line that imports nothing add nothing; the alias
    and the parenthesised forms give the module's first segment. *)
Example extract_imports_other_forms :
  extract_imports_from_python_content
    (str "# import secret" ++ [newline] ++ str "x = 1" ++ [newline]
     ++ str "import numpy.random as rnd" ++ [newline]
     ++ str "from os.path import (join, split)")
  = [(str "numpy", false); (str "os", true)].
Proof. vm_compute. reflexivity. Qed.

End ImportFacts.

(** ** PaginatedFetcher *)

Section DedupFacts.

Lemma set_add_in (x y : pystr) (s : list pystr) :
  In y (set_add x s) <-> y = x \/ In y s.
Proof.
  unfold set_add. destruct (set_mem x s) eqn:E.
  - apply set_mem_true in E. split; [auto|]. intros [-> | H]; assumption.
  - rewrite in_app_iff. cbn. split.
    + intros [H | [<- | []]]; auto.
    + intros [-> | H]; auto.
Qed.

Lemma names_of_in (n : pystr) (all_repos : list Repo) :
  In n (names_of all_repos) <-> In n (names all_repos).
Proof.
  unfold names_of.
  assert (G : forall l acc,
             In n (fold_left (fun s r => set_add (repo_name r) s) l acc)
             <-> In n acc \/ In n (names l)).
  { induction l as [| r l IH]; intros acc; cbn; [tauto|].
    rewrite IH, set_add_in. split.
    - intros [[-> | H] | H]; auto.
    - intros [H | [<- | H]]; auto. }
  rewrite G. cbn. tauto.
Qed.

Lemma find_name_none (n : pystr) (repos : list Repo) :
  ~ In n (names repos) -> find_name n repos = None.
Proof.
  induction repos as [| r repos IH]; [reflexivity|]. cbn. intros H.
  destruct (pystr_eqb (repo_name r) n) eqn:E.
  - apply pystr_eqb_eq in E. tauto.
  - apply IH. tauto.
Qed.

Lemma find_name_app (n : pystr) (a b : list Repo) :
  find_name n (a ++ b)
  = match find_name n a with Some r => Some r | None => find_name n b end.
Proof.
  unfold find_name. induction a as [| r a IH]; [reflexivity|]. cbn.
  destruct (pystr_eqb (repo_name r) n); [reflexivity | exact IH].
Qed.

Lemma find_name_some_in (n : pystr) (repos : list Repo) :
  In n (names repos) -> find_name n repos <> None.
Proof.
  induction repos as [| x repos IH]; [contradiction|]. cbn.
  destruct (pystr_eqb (repo_name x) n) eqn:E; [discriminate|].
  intros [H | H]; [|apply IH, H].
  subst n. unfold pystr_eqb in E.
  destruct (list_eq_dec ascii_dec (repo_name x) (repo_name x));
    [discriminate | contradiction].
Qed.

(** The loop of lines 111-114, started with the names of [seen] as the
    known names and [added] collected so far. *)
Lemma collect_new_spec (seen : list Repo) :
  forall (repos_page : list Repo) (existing_names : list pystr)
         (added : list Repo),
    (forall n, In n existing_names <-> In n (names (seen ++ added))) ->
    NoDup (names (seen ++ added)) ->
    let result := collect_new repos_page existing_names added in
    NoDup (names (seen ++ result))
    /\ (exists more, result = added ++ more)
    /\ forall n, find_name n (seen ++ result)
                 = find_name n ((seen ++ added) ++ repos_page).
Proof.
  induction repos_page as [| r repos_page IH]; intros existing added He Hn;
    cbn [collect_new]; cbv zeta.
  - split; [exact Hn|]. split; [exists []; rewrite app_nil_r; reflexivity|].
    intros n. rewrite app_nil_r. reflexivity.
  - destruct (set_mem (repo_name r) existing) eqn:Em.
    + destruct (IH existing added He Hn) as [H1 [H2 H3]].
      split; [exact H1|]. split; [exact H2|].
      intros n. rewrite H3. rewrite !(find_name_app n (seen ++ added)).
      destruct (find_name n (seen ++ added)) eqn:Ef; [reflexivity|].
      cbn. destruct (pystr_eqb (repo_name r) n) eqn:E; [|reflexivity].
      apply pystr_eqb_eq in E. subst n.
      apply set_mem_true, He in Em.
      apply find_name_some_in in Em. contradiction.
    + assert (Hnew : ~ In (repo_name r) (names (seen ++ added))).
      { intros H. apply He, set_mem_true in H. rewrite H in Em.
        discriminate. }
      destruct (IH (set_add (repo_name r) existing) (added ++ [r])) as [H1 [H2 H3]].
      * intros n. rewrite set_add_in, He. unfold names.
        rewrite !map_app, !in_app_iff. cbn. intuition.
      * unfold names in *. rewrite app_assoc, map_app. cbn.
        apply NoDup_app; [exact Hn | repeat constructor; intros [] |].
        intros a Ha [<- | []]. contradiction.
      * split; [exact H1|]. split.
        { destruct H2 as [more H2]. exists (r :: more). rewrite H2.
          rewrite <- app_assoc. reflexivity. }
        intros n. rewrite H3. rewrite (app_assoc seen), <- app_assoc.
        reflexivity.
Qed.

(** Merging a page: no name twice, what was there stays in place, and
    every name is borne by its first entry in the old list followed by the
    page. *)
Lemma merge_first_seen (all_repos repos_page : list Repo) :
  NoDup (names all_repos) ->
  let merged := all_repos ++ new_repos_of all_repos repos_page in
  NoDup (names merged)
  /\ forall n, find_name n merged = find_name n (all_repos ++ repos_page).
Proof.
  intros Hn. cbv zeta. unfold new_repos_of.
  destruct (@collect_new_spec all_repos repos_page (names_of all_repos) [])
    as [H1 [_ H3]].
  - intros n. rewrite app_nil_r. apply names_of_in.
  - rewrite app_nil_r. exact Hn.
  - split; [exact H1|]. intros n. rewrite H3, app_nil_r. reflexivity.
Qed.

End DedupFacts.

Section FetchFacts.

Variable org_name : pystr.

Lemma handle_rate_limiting_stdout (B : Type) (response : Response B)
  (wd wd' : World) (r : result bool) :
  handle_rate_limiting response wd = (r, wd') -> stdout wd' = stdout wd.
Proof.
  unfold handle_rate_limiting.
  destruct (header_get (headers response) (str "X-RateLimit-Remaining"));
    [|intros H; inversion H; reflexivity].
  destruct (py_int p); [|intros H; inversion H; reflexivity].
  destruct (pause_due z response); [|intros H; inversion H; reflexivity].
  unfold pause. cbn [time_time].
  destruct (reset_epoch _ _); [|intros H; inversion H; reflexivity].
  destruct (wait_time _ _); [|intros H; inversion H; reflexivity].
  unfold py_sleep.
  destruct (PrimFloat.is_nan _); [intros H; inversion H; reflexivity|].
  destruct (_ || _); [intros H; inversion H; reflexivity|].
  destruct (PrimFloat.ltb _ 0); intros H; inversion H; reflexivity.
Qed.

(** The ways one pass of the page loop can end. *)
Lemma merge_page_cases (limit : option Z) (ep : endpoint) (page : nat)
  (all_repos : list Repo) (response : Response (list Repo))
  (wd wd' : World) (r : result pass_end) :
  merge_page limit org_name ep page all_repos response wd = (r, wd') ->
  (stdout wd' = stdout wd
   /\ ((exists e, r = Raise e)
       \/ r = Ok (NextPass page all_repos)
       \/ r = Ok (Break all_repos)))
  \/ (let repos_page := visible ep org_name (Responds response) in
      let merged := all_repos ++ new_repos_of all_repos repos_page in
      stdout wd'
      = stdout wd
          ++ [AddedNew (length (new_repos_of all_repos repos_page))
                       (length merged)]
      /\ (r = Ok (Break merged)
          \/ (r = Ok (NextPass (page + 1) merged)
              /\ limit_reached limit merged = false))).
Proof.
  unfold merge_page, visible.
  destruct (handle_rate_limiting response wd) as [[[|] | e] wd0] eqn:Eh;
    try (pose proof (handle_rate_limiting_answer _ _ Eh) as [Hp _]);
    apply handle_rate_limiting_stdout in Eh.
  - intros H; inversion H; subst. left. auto.
  - rewrite <- Hp. cbn [orb].
    destruct (negb (status_code response =? 200)%Z).
    { intros H; inversion H; subst. left. auto. }
    destruct (json response) as [[| r0 page0] | e].
    + intros H; inversion H; subst. left. auto.
    + set (repos_page := if filters_owner org_name ep then _
                         else r0 :: page0).
      cbv zeta. intros H. right.
      destruct (limit_reached limit _) eqn:El.
      * inversion H; subst. cbn [stdout print]. rewrite Eh. auto.
      * destruct (match header_get (headers response) (str "Link") with
                  | Some links => negb (contains rel_next links)
                  | None => length repos_page <? per_page
                  end); inversion H; subst; cbn [stdout print time_sleep];
          rewrite Eh; auto.
    + intros H; inversion H; subst. left. split; [exact Eh|]. left. eauto.
  - intros H; inversion H; subst. left. split; [exact Eh|]. left. eauto.
Qed.

Lemma grows_refl (a : list Repo) : grows a a.
Proof. split; [exists []; rewrite app_nil_r; reflexivity | auto]. Qed.

Lemma grows_trans (a b c : list Repo) : grows a b -> grows b c -> grows a c.
Proof.
  intros [[m1 ->] H1] [[m2 ->] H2]. split; [|auto].
  exists (m1 ++ m2). rewrite app_assoc. reflexivity.
Qed.

Lemma grows_merge (all_repos repos_page : list Repo) :
  grows all_repos (all_repos ++ new_repos_of all_repos repos_page).
Proof.
  split; [eexists; reflexivity|]. intros H.
  apply (@merge_first_seen all_repos repos_page H).
Qed.

Lemma merge_page_grows (limit : option Z) (ep : endpoint) (page : nat)
  (all_repos : list Repo) (response : Response (list Repo))
  (wd wd' : World) (e : pass_end) :
  merge_page limit org_name ep page all_repos response wd = (Ok e, wd') ->
  match e with
  | Break all_repos' | NextPass _ all_repos' => grows all_repos all_repos'
  end.
Proof.
  intros H. apply merge_page_cases in H.
  destruct H as [[_ [[x H] | [H | H]]] | [_ [H | [H _]]]];
    inversion H; subst; try apply grows_refl; apply grows_merge.
Qed.

Lemma fetch_pages_grows (limit : option Z) (ep : endpoint) :
  forall q page all_repos wd all_repos' q' wd',
    fetch_pages limit org_name ep page all_repos q wd
    = (Ok all_repos', q', wd') ->
    grows all_repos all_repos'.
Proof.
  induction q as [| o q IH]; intros page all_repos wd all_repos' q' wd';
    cbn [fetch_pages]; [discriminate|].
  destruct o as [response | e]; [|discriminate].
  destruct (merge_page limit org_name ep page all_repos response _)
    as [[[a | p a] | e] wd0] eqn:Em; [| |discriminate].
  - intros H; inversion H; subst. exact (merge_page_grows _ _ _ _ _ _ Em).
  - intros H. apply IH in H. eapply grows_trans; [|exact H].
    exact (merge_page_grows _ _ _ _ _ _ Em).
Qed.

Lemma for_endpoints_grows (limit : option Z) :
  forall endpoints all_repos net wd all_repos' net' wd',
    for_endpoints endpoints limit org_name all_repos net wd
    = (Ok all_repos', net', wd') ->
    grows all_repos all_repos'.
Proof.
  induction endpoints as [| ep endpoints IH];
    intros all_repos net wd all_repos' net' wd'; cbn [for_endpoints].
  - intros H; inversion H; subst. apply grows_refl.
  - destruct (limit_reached limit all_repos).
    { intros H; inversion H; subst. apply grows_refl. }
    destruct (fetch_pages limit org_name ep 1 all_repos (endpoint_q ep net) wd)
      as [[[a | e] q0] wd0] eqn:Ef; [|discriminate].
    intros H. apply IH in H. eapply grows_trans; [|exact H].
    eapply fetch_pages_grows, Ef.
Qed.


Lemma merge_nothing (all_repos : list Repo) :
  merge_from all_repos [[]] = all_repos.
Proof. unfold merge_from, new_repos_of. cbn. apply app_nil_r. Qed.

(** A pass that raises nothing merges what is visible of its answer, and
    lets the loop go on only below the limit. *)
Lemma merge_page_step (limit : option Z) (ep : endpoint) (page : nat)
  (all_repos : list Repo) (response : Response (list Repo))
  (wd wd' : World) (e : pass_end) :
  merge_page limit org_name ep page all_repos response wd = (Ok e, wd') ->
  let merged :=
    merge_from all_repos [visible ep org_name (Responds response)] in
  match e with
  | Break a => a = merged
  | NextPass _ a =>
      a = merged
      /\ (limit_reached limit all_repos = false ->
          limit_reached limit a = false)
  end.
Proof.
  unfold merge_page, visible.
  destruct (handle_rate_limiting response wd) as [[[|] | e0] wd0] eqn:Eh;
    [| |discriminate];
    pose proof (handle_rate_limiting_answer _ _ Eh) as [Hp _];
    rewrite <- Hp; cbn [orb].
  - intros H; inversion H; subst. cbv zeta. rewrite merge_nothing. auto.
  - destruct (negb (status_code response =? 200)%Z).
    { intros H; inversion H; subst. cbv zeta. apply eq_sym, merge_nothing. }
    destruct (json response) as [[| r0 page0] | e0]; [| |discriminate].
    { intros H; inversion H; subst. cbv zeta.
      destruct (filters_owner org_name ep); apply eq_sym, merge_nothing. }
    set (repos_page := if filters_owner org_name ep then _ else r0 :: page0).
    cbv zeta.
    destruct (limit_reached limit _) eqn:El.
    { intros H; inversion H; subst. reflexivity. }
    destruct (match header_get (headers response) (str "Link") with
              | Some links => negb (contains rel_next links)
              | None => length repos_page <? per_page
              end); intros H; inversion H; subst.
    + reflexivity.
    + split; [reflexivity|]. intros _. exact El.
Qed.


(** The page loop takes its answers from the front of the queue; each one
    is asked for below the limit, and the list the loop ends with is the
    list it started with, merged with what is visible of each answer. *)
Lemma fetch_pages_asked (limit : option Z) (ep : endpoint) :
  forall q page all_repos wd r q' wd',
    fetch_pages limit org_name ep page all_repos q wd = (r, q', wd') ->
    limit_reached limit all_repos = false ->
    exists asked,
      q = asked ++ q'
      /\ (forall k, (k < length asked)%nat ->
            limit_reached limit
              (merge_from all_repos
                 (map (visible ep org_name) (firstn k asked))) = false)
      /\ forall all_repos',
           r = Ok all_repos' ->
           all_repos' = merge_from all_repos (map (visible ep org_name) asked).
Proof.
  induction q as [| o q IH]; intros page all_repos wd r q' wd';
    cbn [fetch_pages].
  { intros H Hl; inversion H; subst. exists []. split; [reflexivity|].
    split; [cbn; intros; lia | discriminate]. }
  assert (Hone : forall k, (k < 1)%nat ->
             limit_reached limit all_repos = false ->
             limit_reached limit
               (merge_from all_repos
                  (map (visible ep org_name) (firstn k [o]))) = false).
  { intros k Hk Hl. replace k with 0%nat by lia. exact Hl. }
  destruct o as [response | e].
  2:{ intros H Hl; inversion H; subst. exists [Fails e].
      split; [reflexivity|]. split; [|discriminate].
      intros k Hk. apply Hone; assumption. }
  destruct (merge_page limit org_name ep page all_repos response _)
    as [[[a | p a] | e] wd0] eqn:Em.
  - intros H Hl; inversion H; subst. exists [Responds response].
    split; [reflexivity|]. split; [intros k Hk; apply Hone; assumption|].
    intros a' Ha; inversion Ha; subst.
    exact (merge_page_step _ _ _ _ _ _ Em).
  - intros H Hl. destruct (merge_page_step _ _ _ _ _ _ Em) as [Ha Hl'].
    apply IH in H; [|apply Hl', Hl].
    destruct H as [asked [Hq [Hk Hr]]].
    exists (Responds response :: asked). split; [rewrite Hq; reflexivity|].
    split.
    + intros [| k] Hlen; [exact Hl|]. cbn [firstn map].
      cbn [length] in Hlen. specialize (Hk k ltac:(lia)).
      rewrite Ha in Hk. exact Hk.
    + intros a' Ha'. rewrite (Hr a' Ha'), Ha. reflexivity.
  - intros H Hl; inversion H; subst. exists [Responds response].
    split; [reflexivity|]. split; [|discriminate].
    intros k Hk. apply Hone; assumption.
Qed.


End FetchFacts.

Section ListingProperties.

Lemma NoDup_firstn (A : Type) (n : nat) : forall l : list A,
  NoDup l -> NoDup (firstn n l).
Proof.
  induction n as [| n IH]; intros [| x l] H; cbn; try constructor.
  - inversion H; subst. intros Hx. apply H2.
    rewrite <- (firstn_skipn n l). apply in_or_app. left. exact Hx.
  - inversion H; subst. apply IH. assumption.
Qed.

Lemma slice_to_names_nodup (repos : list Repo) (n : Z) :
  NoDup (names repos) -> NoDup (names (slice_to repos n)).
Proof.
  intros H. unfold slice_to, names.
  destruct (n <? 0)%Z; rewrite <- firstn_map; apply NoDup_firstn, H.
Qed.

Lemma list_repos_nodup (limit : option Z) (org_name : pystr) (net net' : Net)
  (wd wd' : World) (repos : list Repo) :
  list_repos limit org_name net wd = (Ok (Some repos), net', wd') ->
  NoDup (names repos).
Proof.
  unfold list_repos. destruct (requests_get (user_q net)) as [[r | e] q];
    [|discriminate].
  destruct (negb (status_code r =? 200)%Z); [discriminate|].
  destruct (json r); [|discriminate].
  destruct (for_endpoints _ limit org_name [] _ wd)
    as [[[all_repos | e] net0] wd0] eqn:Ef; [|discriminate].
  apply for_endpoints_grows in Ef. destruct Ef as [_ Hn].
  specialize (Hn (NoDup_nil _)).
  intros H; inversion H; subst. destruct limit as [l |]; [|exact Hn].
  destruct (limit_exceeded (Some l) all_repos); [|exact Hn].
  apply slice_to_names_nodup, Hn.
Qed.

Lemma find_name_in_nodup (r : Repo) : forall repos,
  NoDup (names repos) -> In r repos -> find_name (repo_name r) repos = Some r.
Proof.
  induction repos as [| x repos IH]; [intros _ []|].
  cbn. intros Hn [-> | Hin].
  - rewrite (proj2 (pystr_eqb_eq _ _) eq_refl). reflexivity.
  - inversion Hn; subst. destruct (pystr_eqb (repo_name x) (repo_name r)) eqn:E.
    + apply pystr_eqb_eq in E. exfalso. apply H1. rewrite E.
      apply in_map, Hin.
    + apply IH; assumption.
Qed.

(** Merging pages one after the other lets every name be borne by its
    first entry in the list followed by the pages. *)
Lemma merge_from_first_seen : forall pages all_repos,
  NoDup (names all_repos) ->
  NoDup (names (merge_from all_repos pages))
  /\ forall n, find_name n (merge_from all_repos pages)
               = find_name n (all_repos ++ concat pages).
Proof.
  induction pages as [| p pages IH]; intros all_repos Hn; cbn [merge_from fold_left concat].
  - rewrite app_nil_r. auto.
  - destruct (@merge_first_seen all_repos p Hn) as [Hn1 Hf1].
    destruct (IH _ Hn1) as [Hn2 Hf2]. split; [exact Hn2|].
    intros n. unfold merge_from in Hf2. rewrite Hf2.
    rewrite app_assoc, !(find_name_app n _ (concat pages)), Hf1.
    reflexivity.
Qed.

Lemma in_slice_to (A : Type) (x : A) (l : list A) (n : Z) :
  In x (slice_to l n) -> In x l.
Proof.
  unfold slice_to. intros H. rewrite <- (firstn_skipn
    (if (n <? 0)%Z then (length l - Z.to_nat (- n))%nat else Z.to_nat n) l).
  apply in_or_app. left. destruct (n <? 0)%Z; exact H.
Qed.


Lemma merge_from_app (all_repos : list Repo) (a b : list (list Repo)) :
  merge_from all_repos (a ++ b) = merge_from (merge_from all_repos a) b.
Proof. unfold merge_from. apply fold_left_app. Qed.

(** What a run takes from the two listing endpoints, whatever it ends
    with: the answers at the front of each queue, each one asked for below
    the limit; a list that is returned is the merge of what is visible of
    these answers, cut to the limit. *)
Lemma list_repos_asked (limit : option Z) (org_name : pystr)
  (net net' : Net) (wd wd' : World) (r : result (option (list Repo))) :
  list_repos limit org_name net wd = (r, net', wd') ->
  exists asked1 asked2,
    org_repos_q net = asked1 ++ org_repos_q net'
    /\ user_repos_q net = asked2 ++ user_repos_q net'
    /\ (forall k, (k < length asked1)%nat ->
          limit_reached limit
            (merge_from [] (pages_of org_name (firstn k asked1) [])) = false)
    /\ (forall k, (k < length asked2)%nat ->
          limit_reached limit
            (merge_from [] (pages_of org_name asked1 (firstn k asked2)))
          = false)
    /\ forall repos,
         r = Ok (Some repos) ->
         repos
         = trimmed limit (merge_from [] (pages_of org_name asked1 asked2)).
Proof.
  assert (Hnone : forall qu x w,
             (x, set_user_q qu net, w) = (r, net', wd') ->
             (forall repos, x <> Ok (Some repos)) ->
             exists asked1 asked2,
               org_repos_q net = asked1 ++ org_repos_q net'
               /\ user_repos_q net = asked2 ++ user_repos_q net'
               /\ (forall k, (k < length asked1)%nat ->
                     limit_reached limit
                       (merge_from []
                          (pages_of org_name (firstn k asked1) [])) = false)
               /\ (forall k, (k < length asked2)%nat ->
                     limit_reached limit
                       (merge_from []
                          (pages_of org_name asked1 (firstn k asked2)))
                     = false)
               /\ forall repos,
                    r = Ok (Some repos) ->
                    repos
                    = trimmed limit
                        (merge_from [] (pages_of org_name asked1 asked2))).
  { intros qu x w H Hx; inversion H; subst. exists [], [].
    repeat split; try (cbn; intros; lia).
    intros repos E. contradiction (Hx repos). }
  unfold list_repos. destruct (requests_get (user_q net)) as [[u | e] qu];
    [|intros H; apply (Hnone _ _ _ H); discriminate].
  destruct (negb (status_code u =? 200)%Z);
    [intros H; apply (Hnone _ _ _ H); discriminate|].
  destruct (json u); [|intros H; apply (Hnone _ _ _ H); discriminate].
  clear Hnone. cbn [for_endpoints].
  destruct (limit_reached limit []) eqn:E0.
  { intros H; inversion H; subst. exists [], [].
    repeat split; try (cbn; intros; lia).
    intros repos E; inversion E; reflexivity. }
  destruct (fetch_pages limit org_name OrgRepos 1 [] _ wd)
    as [[r1 q1] wd1] eqn:E1.
  apply fetch_pages_asked in E1; [|exact E0].
  destruct E1 as [asked1 [Hq1 [Hk1 Hr1]]].
  cbn [endpoint_q set_user_q org_repos_q] in Hq1.
  assert (Hk1' : forall k, (k < length asked1)%nat ->
             limit_reached limit
               (merge_from [] (pages_of org_name (firstn k asked1) []))
             = false).
  { intros k Hk. unfold pages_of. cbn [map]. rewrite app_nil_r.
    apply Hk1, Hk. }
  destruct r1 as [all1 | e].
  2:{ intros H; inversion H; subst. exists asked1, [].
      repeat split; try (cbn; intros; lia); try discriminate; assumption. }
  rewrite (Hr1 all1 eq_refl). clear Hr1.
  set (all1' := merge_from [] (map (visible OrgRepos org_name) asked1)).
  destruct (limit_reached limit all1') eqn:E1r.
  { intros H; inversion H; subst. exists asked1, [].
    repeat split; try (cbn; intros; lia); try assumption.
    intros repos E; inversion E. unfold pages_of. cbn [map].
    rewrite app_nil_r. reflexivity. }
  destruct (fetch_pages limit org_name UserRepos 1 all1' _ wd1)
    as [[r2 q2] wd2] eqn:E2.
  apply fetch_pages_asked in E2; [|exact E1r].
  destruct E2 as [asked2 [Hq2 [Hk2 Hr2]]].
  cbn [endpoint_q set_endpoint_q set_user_q set_org_repos_q user_repos_q]
    in Hq2.
  assert (Hk2' : forall k, (k < length asked2)%nat ->
             limit_reached limit
               (merge_from [] (pages_of org_name asked1 (firstn k asked2)))
             = false).
  { intros k Hk. unfold pages_of. rewrite merge_from_app. apply Hk2, Hk. }
  destruct r2 as [all2 | e].
  2:{ intros H; inversion H; subst. exists asked1, asked2.
      repeat split; try discriminate; assumption. }
  intros H; inversion H; subst. exists asked1, asked2.
  repeat split; try assumption.
  intros repos E; inversion E. rewrite (Hr2 all2 eq_refl).
  unfold pages_of. rewrite merge_from_app. reflexivity.
Qed.

Lemma in_trimmed (limit : option Z) (all_repos : list Repo) (r : Repo) :
  In r (trimmed limit all_repos) -> In r all_repos.
Proof.
  unfold trimmed. destruct limit as [l |]; [|auto].
  destruct (limit_exceeded (Some l) all_repos); [apply in_slice_to | auto].
Qed.

(** C6: the list [get_all_org_repos] returns holds no name twice.  It is
    made of the answers the run took from the front of the two queues,
    [asked1] from the organisation's endpoint and then [asked2] from the
    user's: the repositories visible in them are merged answer after
    answer and the result is cut to the limit.  In the merged list every
    name is borne by the first entry that bears it in these answers, so
    that each entry returned is the one seen first under its name. *)
Theorem repository_names_unique
  (limit : option Z) (env : Env) (net net' : Net) (wd wd' : World)
  (repos : list Repo) :
  get_all_org_repos limit env net wd = (Ok (Some repos), net', wd') ->
  NoDup (names repos)
  /\ exists org_name asked1 asked2,
       env_value (ORG_NAME env) = Some org_name
       /\ org_repos_q net = asked1 ++ org_repos_q net'
       /\ user_repos_q net = asked2 ++ user_repos_q net'
       /\ let pages := pages_of org_name asked1 asked2 in
          repos = trimmed limit (merge_from [] pages)
          /\ (forall n, find_name n (merge_from [] pages)
                        = find_name n (concat pages))
          /\ forall r, In r repos ->
                       find_name (repo_name r) (concat pages) = Some r.
Proof.
  intros H. unfold get_all_org_repos in H.
  destruct (env_value (GITHUB_TOKEN env)); [|discriminate].
  destruct (env_value (ORG_NAME env)) as [org_name |]; [|discriminate].
  destruct (list_repos limit org_name net wd) as [[[r | e] net0] wd0] eqn:El.
  2:{ destruct (isRequestException e); discriminate. }
  inversion H; subst. split; [eapply list_repos_nodup, El|].
  apply list_repos_asked in El.
  destruct El as [asked1 [asked2 [Hq1 [Hq2 [_ [_ Hr]]]]]].
  specialize (Hr repos eq_refl).
  exists org_name, asked1, asked2. split; [reflexivity|].
  split; [exact Hq1|]. split; [exact Hq2|]. cbv zeta.
  destruct (@merge_from_first_seen (pages_of org_name asked1 asked2) []
              (NoDup_nil _)) as [Hn Hf].
  split; [exact Hr|]. split; [exact Hf|].
  intros r Hin. rewrite Hr in Hin. apply in_trimmed in Hin.
  rewrite <- Hf. apply find_name_in_nodup; assumption.
Qed.

End ListingProperties.

Example acme_listing :
  fst (fst (get_all_org_repos None acme_env acme_net world0))
  = Ok (Some [repo "api" "acme" "Python"; repo "web" "acme" "Go";
              repo "cli" "acme" "Python"]).
Proof. vm_compute. reflexivity. Qed.

Lemma repository_names_unique_example :
  let repos := [repo "api" "acme" "Python"; repo "web" "acme" "Go";
                repo "cli" "acme" "Python"] in
  let net' := snd (fst (get_all_org_repos None acme_env acme_net world0)) in
  NoDup (names repos)
  /\ exists org_name asked1 asked2,
       env_value (ORG_NAME acme_env) = Some org_name
       /\ org_repos_q acme_net = asked1 ++ org_repos_q net'
       /\ user_repos_q acme_net = asked2 ++ user_repos_q net'
       /\ let pages := pages_of org_name asked1 asked2 in
          repos = trimmed None (merge_from [] pages)
          /\ (forall n, find_name n (merge_from [] pages)
                        = find_name n (concat pages))
          /\ forall r, In r repos ->
                       find_name (repo_name r) (concat pages) = Some r.
Proof.
  apply (@repository_names_unique None acme_env acme_net
           (snd (fst (get_all_org_repos None acme_env acme_net world0)))
           world0 (snd (get_all_org_repos None acme_env acme_net world0))).
  vm_compute. reflexivity.
Defined.

(** An organisation whose name ends in "user": the address of its own
    endpoint holds "user/repos", and its pages are filtered by owner
    too. *)
Example owner_filter_on_org_endpoint :
  filters_owner (str "poweruser") OrgRepos = true
  /\ filters_owner (str "acme") OrgRepos = false
  /\ visible OrgRepos (str "poweruser")
       (Responds (mkResponse 200 [] (str "")
                    (Ok [repo "fork" "someone" "C"; repo "own" "poweruser" "C"])))
     = [repo "own" "poweruser" "C"].
Proof. repeat split; vm_compute; reflexivity. Qed.

(** *** The caller's limit *)

Section LimitFacts.

Variable org_name : pystr.
Variable L : Z.
Hypothesis L_pos : (0 < L)%Z.






End LimitFacts.

Section LimitLoop.

Variable org_name : pystr.
Variable L : Z.
Hypothesis L_pos : (0 < L)%Z.














End LimitLoop.

Section LimitZero.

Variable org_name : pystr.




End LimitZero.



Example limit_two_console :
  stdout (snd (get_all_org_repos (Some 2%Z) acme_env acme_net world0))
  = [FetchingPage 1 100; AddedNew 2 2]
  /\ user_repos_q
       (snd (fst (get_all_org_repos (Some 2%Z) acme_env acme_net world0)))
     = user_repos_q acme_net.
Proof. split; vm_compute; reflexivity. Qed.


(** ** ImportExtractor: what the patterns find *)

Section MatcherFacts.

Lemma run_ends : forall (r : regex) (A : Type) (st : mstate)
  (k : mstate -> option A) (a : A),
  run r st k = Some a -> exists st', ends r st st' /\ k st' = Some a.
Proof.
  induction r as [| | c | p | r1 IH1 r2 IH2 | r' IH | r' IH];
    intros A st k a; cbn [run].
  - intros H. exists st. split; [constructor | exact H].
  - intros H. exists st. split; [constructor|].
    destruct (prev st) as [c |]; [|exact H].
    destruct (Ascii.eqb c newline); [exact H | discriminate].
  - destruct (step_over st (Ascii.eqb c)) as [st' |] eqn:E; [|discriminate].
    intros H. exists st'. split; [constructor; exact E | exact H].
  - destruct (step_over st p) as [st' |] eqn:E; [|discriminate].
    intros H. exists st'. split; [constructor; exact E | exact H].
  - intros H. apply IH1 in H. destruct H as [st1 [H1 H]].
    apply IH2 in H. destruct H as [st' [H2 H]].
    exists st'. split; [econstructor; eauto | exact H].
  - generalize (length (rest st)). intros n. revert st.
    induction n as [| n IHn]; intros st H.
    + exists st. split; [constructor | exact H].
    + destruct (run r' st _) as [a0 |] eqn:E.
      * inversion H; subst a0. apply IH in E. destruct E as [st1 [H1 E]].
        destruct (length (rest st1) <? length (rest st)); [|discriminate].
        apply IHn in E. destruct E as [st' [H2 E]].
        exists st'. split; [econstructor; eauto | exact E].
      * exists st. split; [constructor | exact H].
  - intros H. apply IH in H. destruct H as [st1 [H1 H]].
    eexists. split; [constructor; exact H1 | exact H].
Qed.

Lemma step_over_text st ok st' :
  step_over st ok = Some st' ->
  exists c, rest st = c :: rest st' /\ ok c = true /\ group1 st' = group1 st.
Proof.
  unfold step_over. destruct (rest st) as [| c s]; [discriminate|].
  destruct (ok c) eqn:E; [|discriminate]. intros H; inversion H; subst.
  exists c. auto.
Qed.

Lemma ends_text r st st' :
  ends r st st' -> exists u, rest st = u ++ rest st' /\ lang r u.
Proof.
  induction 1 as [st | st | c st st' H | p st st' H
                  | r1 r2 st st1 st' _ [u1 [E1 L1]] _ [u2 [E2 L2]]
                  | r st | r st st1 st' _ [u1 [E1 L1]] _ [u2 [E2 L2]]
                  | r st st1 _ [u [E L]]].
  - exists []. split; [reflexivity | constructor].
  - exists []. split; [reflexivity | constructor].
  - apply step_over_text in H. destruct H as [x [E [Hx _]]].
    apply Ascii.eqb_eq in Hx. subst x. exists [c]. split; [exact E | constructor].
  - apply step_over_text in H. destruct H as [x [E [Hx _]]].
    exists [x]. split; [exact E | constructor; exact Hx].
  - exists (u1 ++ u2). rewrite E1, E2, app_assoc.
    split; [reflexivity | constructor; assumption].
  - exists []. split; [reflexivity | constructor].
  - exists (u1 ++ u2). rewrite E1, E2, app_assoc.
    split; [reflexivity | constructor; assumption].
  - exists u. cbn [rest]. split; [exact E | constructor; exact L].
Qed.

Lemma ends_group_free r st st' :
  ends r st st' -> has_group r = false -> group1 st' = group1 st.
Proof.
  induction 1 as [st | st | c st st' H | p st st' H
                  | r1 r2 st st1 st' _ IH1 _ IH2
                  | r st | r st st1 st' _ IH1 _ IH2
                  | r st st1 _ IH]; cbn [has_group]; intros Hg;
    try reflexivity; try discriminate.
  - apply step_over_text in H. destruct H as [x [_ [_ E]]]. exact E.
  - apply step_over_text in H. destruct H as [x [_ [_ E]]]. exact E.
  - apply orb_false_iff in Hg. destruct Hg as [H1 H2].
    rewrite IH2, IH1 by assumption. reflexivity.
  - rewrite IH2, IH1 by assumption. reflexivity.
Qed.

Lemma ends_captures r g :
  captures r g -> forall st st', ends r st st' -> lang g (group1 st').
Proof.
  induction 1 as [g | r1 r2 g _ IH Hg | r1 r2 g _ IH]; intros st st' H;
    inversion H; subst.
  - match goal with H1 : ends g _ _ |- _ => apply ends_text in H1;
      destruct H1 as [u [E L]] end.
    cbn [group1]. rewrite E, length_app, Nat.add_sub.
    rewrite firstn_app, Nat.sub_diag, firstn_all. cbn. rewrite app_nil_r.
    exact L.
  - match goal with H2 : ends r2 _ _ |- _ =>
      rewrite (ends_group_free H2 Hg) end.
    eapply IH; eauto.
  - eapply IH; eauto.
Qed.

Lemma findall_from_in (r : regex) (g : pystr) : forall s before skip,
  In g (findall_from r before skip s) ->
  exists b s' after, match_here r b s' = Some (g, after).
Proof.
  induction s as [| c s IH]; intros before skip; cbn [findall_from].
  - destruct skip; [|intros []].
    destruct (match_here r before []) as [[g0 after] |] eqn:E; [|intros []].
    intros [<- | []]. eauto.
  - destruct skip as [| skip]; [|apply IH].
    destruct (match_here r before (c :: s)) as [[g0 after] |] eqn:E;
      [|apply IH].
    intros [<- | H]; [eauto | eapply IH; eauto].
Qed.

(** What [re.findall] returns for a pattern is a text of its group. *)
Lemma findall_captured (r gr : regex) (line g : pystr) :
  captures r gr -> In g (findall r line) -> lang gr g.
Proof.
  intros Hc H. unfold findall in H. apply findall_from_in in H.
  destruct H as [b [s' [after H]]]. unfold match_here in H.
  apply run_ends in H. destruct H as [st' [He H]]. inversion H; subst.
  eapply ends_captures; eauto.
Qed.

End MatcherFacts.

Section NameFacts.

(** A word character is no blank, no comma and no dot; a blank is no
    comma. *)
Lemma isword_plain (c : ascii) :
  isword c = true ->
  isspace c = false /\ Ascii.eqb c ","%char = false /\ Ascii.eqb c dot = false.
Proof.
  destruct c as [[] [] [] [] [] [] [] []]; vm_compute; intros H;
    try discriminate; auto.
Qed.

Lemma isspace_plain (c : ascii) :
  isspace c = true -> Ascii.eqb c ","%char = false.
Proof.
  destruct c as [[] [] [] [] [] [] [] []]; vm_compute; intros H;
    try discriminate; auto.
Qed.

Lemma forallb_none (p q : ascii -> bool) (s : pystr) :
  (forall c, p c = true -> q c = false) ->
  forallb p s = true -> existsb q s = false.
Proof.
  intros Hpq. induction s as [| c s IH]; [reflexivity|]. cbn. intros H.
  apply andb_true_iff in H. destruct H as [Hc Hs].
  rewrite (Hpq c Hc), IH by exact Hs. reflexivity.
Qed.

Lemma word_no_comma (s : pystr) :
  forallb isword s = true -> existsb (fun x => Ascii.eqb x ","%char) s = false.
Proof. apply forallb_none. intros c H. apply isword_plain in H. tauto. Qed.

Lemma word_no_dot (s : pystr) :
  forallb isword s = true -> existsb (fun x => Ascii.eqb x dot) s = false.
Proof. apply forallb_none. intros c H. apply isword_plain in H. tauto. Qed.

Lemma word_no_space (s : pystr) :
  forallb isword s = true -> existsb isspace s = false.
Proof. apply forallb_none. intros c H. apply isword_plain in H. tauto. Qed.

Lemma blank_no_comma (s : pystr) :
  forallb isspace s = true -> existsb (fun x => Ascii.eqb x ","%char) s = false.
Proof. apply forallb_none. exact isspace_plain. Qed.

Lemma no_space_ends (s : pystr) :
  existsb isspace s = false -> first_space s = false /\ last_space s = false.
Proof.
  intros H. split.
  - destruct s as [| c s]; [reflexivity|]. cbn in *.
    apply orb_false_iff in H. tauto.
  - unfold last_space. destruct (rev s) as [| c t] eqn:E; [reflexivity|].
    cbn. destruct (isspace c) eqn:Ec; [|reflexivity].
    assert (Hin : In c s) by (apply in_rev; rewrite E; left; reflexivity).
    assert (Hx : existsb isspace s = true).
    { apply existsb_exists. exists c. auto. }
    rewrite Hx in H. discriminate.
Qed.

Lemma lstrip_blanks (s t : pystr) :
  forallb isspace s = true -> first_space t = false -> lstrip (s ++ t) = t.
Proof.
  intros Hs Ht. induction s as [| c s IH]; cbn [app].
  - apply lstrip_id, Ht.
  - cbn in Hs. apply andb_true_iff in Hs. destruct Hs as [Hc Hs].
    cbn [lstrip]. rewrite Hc. apply IH, Hs.
Qed.

(** Stripping a word between blanks gives the word. *)
Lemma strip_padded (s1 W s2 : pystr) :
  forallb isspace s1 = true -> forallb isspace s2 = true -> word W ->
  strip (s1 ++ W ++ s2) = W.
Proof.
  intros H1 H2 [Hne Hw].
  destruct (no_space_ends _ (word_no_space _ Hw)) as [Hf Hl].
  unfold strip. rewrite lstrip_blanks; [|exact H1|].
  2:{ rewrite first_space_app. destruct W; [contradiction | exact Hf]. }
  unfold rstrip. rewrite rev_app_distr, lstrip_blanks.
  - apply rev_involutive.
  - rewrite forallb_forall in *. intros x Hx. apply H2, in_rev, Hx.
  - exact Hl.
Qed.

Lemma split_once_absent (c : ascii) (s : pystr) :
  existsb (fun x => Ascii.eqb x c) s = false -> split_once [c] s = None.
Proof.
  intros H. pose proof (contains_char c s) as Hc. rewrite H in Hc.
  unfold contains in Hc. destruct (split_once [c] s); [discriminate|].
  reflexivity.
Qed.

Lemma split_max_absent (c : ascii) (s : pystr) (n : nat) :
  existsb (fun x => Ascii.eqb x c) s = false -> split_max n [c] s = [s].
Proof.
  intros H. destruct n; cbn [split_max]; [reflexivity|].
  rewrite split_once_absent by exact H. reflexivity.
Qed.

(** The first segment of a word is the word. *)
Lemma top_level_of_word (W : pystr) :
  word W -> item (split (str ".") W) 0 = W.
Proof.
  intros [_ Hw]. rewrite split_head. change (str ".") with [dot].
  rewrite split_once_absent; [reflexivity | apply word_no_dot, Hw].
Qed.


Lemma padded_names_word (s1 W s2 : pystr) :
  forallb isspace s1 = true -> forallb isspace s2 = true -> word W ->
  names_word (s1 ++ W ++ s2).
Proof.
  intros H1 H2 Hw. unfold names_word.
  rewrite strip_padded, top_level_of_word; assumption.
Qed.

(** *** The shape of the captured texts *)

Lemma lang_star_cls (p : ascii -> bool) (x : pystr) :
  lang (Star (Cls p)) x -> forallb p x = true.
Proof.
  intros H. remember (Star (Cls p)) as r eqn:Er.
  induction H as [| | | | | | r u v Hu _ _ IH |]; try discriminate.
  - reflexivity.
  - inversion Er; subst r. inversion Hu; subst.
    cbn. rewrite IH by reflexivity.
    match goal with Hc : p _ = true |- _ => rewrite Hc end. reflexivity.
Qed.

Lemma lang_plus_cls (p : ascii -> bool) (x : pystr) :
  lang (Plus (Cls p)) x -> x <> [] /\ forallb p x = true.
Proof.
  unfold Plus. intros H. inversion H; subst.
  match goal with
  | H1 : lang (Cls p) _, H2 : lang (Star (Cls p)) _ |- _ =>
      inversion H1; subst; apply lang_star_cls in H2
  end.
  split; [discriminate|]. cbn.
  match goal with Hc : p _ = true |- _ => rewrite Hc end. assumption.
Qed.

Lemma lang_word (x : pystr) : lang (Plus w) x -> word x.
Proof. apply lang_plus_cls. Qed.

(** What follows the first name of a dotted name: nothing, or a dot and
    more; word characters and dots only. *)
Lemma lang_dot_tail (t : pystr) :
  lang (Star (Seq (Chr "."%char) (Plus w))) t ->
  (t = [] \/ first_is dot t = true)
  /\ forallb (fun c => isword c || Ascii.eqb c dot) t = true.
Proof.
  intros H. remember (Star (Seq (Chr "."%char) (Plus w))) as r eqn:Er.
  induction H as [| | | | | | r u v Hu _ _ IH |]; try discriminate.
  - split; [left; reflexivity | reflexivity].
  - inversion Er; subst r. destruct (IH eq_refl) as [_ Hv].
    inversion Hu; subst.
    match goal with
    | H1 : lang (Chr _) _, H2 : lang (Plus w) _ |- _ =>
        inversion H1; subst; apply lang_word in H2; destruct H2 as [_ Hw]
    end.
    split; [right; reflexivity|].
    cbn [app forallb]. rewrite forallb_app, Hv, andb_true_r.
    cbn. rewrite forallb_forall in *. intros c Hc.
    rewrite (Hw c Hc). reflexivity.
Qed.


Lemma lang_comma_tail (t : pystr) :
  lang (Star (seqs [Star ws; Chr ","%char; Star ws; Plus w])) t ->
  comma_tail t.
Proof.
  intros H. remember (Star (seqs [Star ws; Chr ","%char; Star ws; Plus w]))
    as r eqn:Er.
  induction H as [| | | | | | r u v Hu _ _ IH |]; try discriminate.
  - constructor.
  - inversion Er; subst r. specialize (IH eq_refl). cbn [seqs] in Hu.
    inversion Hu as [| | | | r1 r2 s1 x1 Hs1 Hx1 | | |]; subst.
    inversion Hx1 as [| | | | r1 r2 cm x2 Hcm Hx2 | | |]; subst.
    inversion Hcm; subst.
    inversion Hx2 as [| | | | r1 r2 s2 x3 Hs2 Hx3 | | |]; subst.
    inversion Hx3 as [| | | | r1 r2 W x4 HW Hx4 | | |]; subst.
    inversion Hx4; subst.
    apply lang_star_cls in Hs1, Hs2. apply lang_word in HW.
    rewrite app_nil_r, <- !app_assoc. cbn [app].
    constructor; assumption.
Qed.

Lemma comma_pieces (t : pystr) :
  comma_tail t ->
  forall n s0 W,
    forallb isspace s0 = true -> word W ->
    (length (s0 ++ W ++ t) <= n)%nat ->
    Forall names_word (split_max n (str ",") (s0 ++ W ++ t)).
Proof.
  change (str ",") with [","%char].
  induction 1 as [| s1 s2 W' t H1 H2 HW' _ IH]; intros n s0 W H0 HW Hn.
  - rewrite split_max_absent.
    + constructor; [|constructor]. apply padded_names_word; auto.
    + rewrite app_nil_r, existsb_app, (blank_no_comma _ H0),
        (word_no_comma _ (proj2 HW)). reflexivity.
  - replace (s0 ++ W ++ s1 ++ ","%char :: s2 ++ W' ++ t)
      with ((s0 ++ W ++ s1) ++ ","%char :: (s2 ++ W' ++ t)) in *
      by (rewrite <- !app_assoc; reflexivity).
    destruct n as [| n].
    { rewrite length_app in Hn. cbn [length] in Hn. lia. }
    cbn [split_max]. rewrite split_once_char_at.
    + constructor; [apply padded_names_word; auto|].
      apply IH; auto. rewrite length_app in Hn. cbn [length] in Hn. lia.
    + rewrite !existsb_app, (blank_no_comma _ H0),
        (word_no_comma _ (proj2 HW)), (blank_no_comma _ H1). reflexivity.
Qed.

(** Every piece of a captured list of names holds a name. *)
Lemma comma_list_pieces (found : pystr) :
  lang comma_list found -> Forall names_word (split (str ",") found).
Proof.
  intros H. unfold comma_list in H. inversion H; subst.
  match goal with
  | H1 : lang (Plus w) _, H2 : lang (Star _) _ |- _ =>
      apply lang_word in H1; apply lang_comma_tail in H2;
      pose proof (@comma_pieces _ H2 (length (u ++ v)) [] u eq_refl H1) as Hp
  end.
  unfold split. apply Hp. cbn [app]. lia.
Qed.

(** A captured dotted name is one piece, and its first segment is a
    name. *)
Lemma dotted_pieces (found : pystr) :
  lang dotted found -> Forall names_word (split (str ",") found).
Proof.
  intros H. unfold dotted in H. inversion H; subst.
  match goal with
  | H1 : lang (Plus w) _, H2 : lang (Star _) _ |- _ =>
      apply lang_word in H1; apply lang_dot_tail in H2;
      destruct H1 as [Hne Hw]; destruct H2 as [Ht Hall]
  end.
  assert (Hplain : forallb (fun c => isword c || Ascii.eqb c dot) (u ++ v)
                   = true).
  { rewrite forallb_app, Hall, andb_true_r. rewrite forallb_forall in *.
    intros c Hc. rewrite (Hw c Hc). reflexivity. }
  assert (Hchar : forall c, isword c || Ascii.eqb c dot = true ->
            isspace c = false /\ Ascii.eqb c ","%char = false).
  { intros c Hc. apply orb_true_iff in Hc. destruct Hc as [Hc | Hc].
    - apply isword_plain in Hc. tauto.
    - apply Ascii.eqb_eq in Hc. subst c. split; reflexivity. }
  unfold split. change (str ",") with [","%char].
  rewrite split_max_absent.
  2:{ eapply forallb_none; [|exact Hplain]. intros c Hc. apply Hchar, Hc. }
  constructor; [|constructor]. unfold names_word.
  assert (Hsp : existsb isspace (u ++ v) = false).
  { eapply forallb_none; [|exact Hplain]. intros c Hc. apply Hchar, Hc. }
  destruct (no_space_ends _ Hsp) as [Hf Hl]. rewrite strip_id by assumption.
  rewrite split_head. change (str ".") with [dot].
  destruct Ht as [-> | Ht].
  - rewrite app_nil_r, split_once_absent by (apply word_no_dot, Hw).
    split; assumption.
  - destruct v as [| d v']; [discriminate|]. cbn in Ht.
    apply Ascii.eqb_eq in Ht. subst d.
    rewrite split_once_char_at by (apply word_no_dot, Hw).
    split; assumption.
Qed.

End NameFacts.

(** The group of a pattern, found by its shape. *)
Ltac find_group :=
  idtac;
  first [ apply captures_group
        | apply captures_left; [find_group | reflexivity]
        | apply captures_right; find_group ].

Section ExtractedNames.

(** Each of the five patterns captures a list of names or a dotted
    name. *)
Lemma import_patterns_capture :
  Forall (fun pattern => captures pattern comma_list
                         \/ captures pattern dotted)
         import_patterns.
Proof.
  unfold import_patterns, from_import. cbn [seqs].
  repeat (apply Forall_cons; [first [left; find_group | right; find_group]|]).
  apply Forall_nil.
Qed.

Lemma add_modules_words (found : pystr) (imports : list pystr) :
  Forall names_word (split (str ",") found) ->
  Forall word imports -> Forall word (add_modules imports found).
Proof.
  unfold add_modules. generalize (split (str ",") found) as pieces.
  intros pieces. revert imports.
  induction pieces as [| module pieces IH]; intros imports Hp Hi;
    cbn [fold_left]; [exact Hi|].
  inversion Hp; subst. apply IH; [assumption|]. cbv zeta.
  match goal with Hm : names_word module |- _ => unfold names_word in Hm end.
  destruct (item (split (str ".") (strip module)) 0) as [| c t];
    [exact Hi|].
  apply set_add_forall; assumption.
Qed.

Lemma add_line_imports_words (imports : list pystr) (line : pystr) :
  Forall word imports -> Forall word (add_line_imports imports line).
Proof.
  unfold add_line_imports. intros H.
  destruct (startswith (strip line) (str "#")); [exact H|].
  pose proof import_patterns_capture as Hc. revert imports H.
  induction Hc as [| pattern patterns Hp _ IH]; intros imports H;
    cbn [fold_left]; [exact H|].
  apply IH.
  assert (Hf : forall found, In found (findall pattern line) ->
             Forall names_word (split (str ",") found)).
  { intros found Hin. destruct Hp as [Hp | Hp].
    - apply comma_list_pieces. eapply findall_captured; eauto.
    - apply dotted_pieces. eapply findall_captured; eauto. }
  revert imports H Hf. generalize (findall pattern line) as founds.
  induction founds as [| found founds IHf]; intros imports H Hf;
    cbn [fold_left]; [exact H|].
  apply IHf; [|intros f Hin; apply Hf; right; exact Hin].
  apply add_modules_words; [apply Hf; left; reflexivity | exact H].
Qed.

End ExtractedNames.

(** *** The match the matcher finds first *)

Section GreedyFacts.
























End GreedyFacts.

(** *** Import statements and what the patterns find in them *)

Section StatementFacts.














End StatementFacts.

(** *** What is reported for a statement *)

Section ReportedNames.















End ReportedNames.

Section FromStatements.










End FromStatements.

Section TextLines.



End TextLines.




(** * Further properties of the code *)

(** ** RequirementsParser: edges and round trip *)

Lemma git_sentinel_never_example :
  version (mkSpec (str "git+https://example.com/x.git") (str "url")
                  (str "git+https://example.com/x.git"))
  <> str "git".
Proof.
  exact (@git_sentinel_never (str "git+https://example.com/x.git#egg=foo")
           (mkSpec (str "git+https://example.com/x.git") (str "url")
                   (str "git+https://example.com/x.git")) eq_refl).
Defined.

Section ParserEdges.

Lemma split_hash_head (line : pystr) :
  item (split (str "#") line) 0 = before_hash line.
Proof.
  rewrite split_head. change (str "#") with [hash].
  induction line as [| c s IH]; [reflexivity|].
  rewrite split_once_char. cbn [before_hash].
  destruct (Ascii.eqb c hash); [reflexivity|].
  destruct (split_once [hash] s) as [[a b] |]; rewrite <- IH; reflexivity.
Qed.

Lemma strip_nil_iff (s : pystr) : strip s = [] <-> forallb isspace s = true.
Proof.
  split.
  - intros E. destruct (strip_split s) as [w1 [w2 [Hs [H1 H2]]]].
    rewrite E in Hs. cbn [app] in Hs. rewrite Hs, forallb_app, H1, H2.
    reflexivity.
  - intros H. unfold strip.
    assert (El : lstrip s = []).
    { induction s as [| c s IH]; [reflexivity|]. cbn in H |- *.
      apply andb_true_iff in H. destruct H as [Hc Hs]. rewrite Hc.
      apply IH, Hs. }
    rewrite El. reflexivity.
Qed.

Lemma parse_none_uncomment (line : pystr) :
  parse_requirement_line line = None <-> uncomment line = [].
Proof.
  unfold parse_requirement_line. cbv zeta.
  destruct (uncomment line) as [| c t]; [tauto|].
  split; [|discriminate].
  destruct (startswith (c :: t) (str "git+") || startswith (c :: t) (str "http")).
  - destruct (1 <? length (split (str "#egg=") (c :: t))); discriminate.
  - destruct (match_operator operators (c :: t)); discriminate.
Qed.

(** X1: [parse_requirement_line] returns None exactly for the lines that
    hold nothing but blanks before their first '#': the empty line, the
    blank line and the line that is only a comment. *)
Theorem parse_none_iff_blank (line : pystr) :
  parse_requirement_line line = None
  <-> forallb isspace (before_hash line) = true.
Proof.
  rewrite parse_none_uncomment. unfold uncomment.
  rewrite split_hash_head. apply strip_nil_iff.
Qed.

Lemma operator_clean (operator : pystr) :
  In operator operators ->
  has_hash operator = false /\ first_space operator = false
  /\ last_space operator = false /\ operator <> [].
Proof.
  intros Hin. each_operator Hin; repeat split; discriminate.
Qed.

Lemma has_hash_app (a b : pystr) : has_hash (a ++ b) = has_hash a || has_hash b.
Proof. apply existsb_app. Qed.

(** X2: the three fields of a parsed specification hold no '#' and no
    blank at either end; the version and the raw text are never empty, and
    the raw text is the line without its comment and surrounding blanks. *)
Theorem parsed_fields_clean (line : pystr) (spec : DependencySpec) :
  parse_requirement_line line = Some spec ->
  clean (name spec) /\ clean (version spec) /\ clean (raw spec)
  /\ version spec <> [] /\ raw spec = uncomment line /\ raw spec <> [].
Proof.
  intros H. apply parse_cases in H. cbv zeta in H.
  pose proof (uncomment_no_hash line) as Hh.
  destruct (uncomment_ends line) as [Hf Hl].
  remember (uncomment line) as body eqn:Eb. clear Eb.
  assert (Hbody : clean body) by (repeat split; assumption).
  destruct H as [Hne [[_ ->] | [[_ [op [a [b [Hm [Hs ->]]]]]] | [_ [_ ->]]]]];
    cbn [name version raw].
  - repeat split; try assumption; discriminate.
  - apply matched_operator_some in Hm. destruct Hm as [Hin _].
    destruct (operator_clean Hin) as [Hoh [Hof [Hol Hon]]].
    pose proof (split_once_some _ _ Hs) as E.
    assert (Hparts : has_hash a = false /\ has_hash b = false).
    { unfold clean in Hbody. rewrite E in Hh. unfold has_hash in *.
      rewrite !existsb_app in Hh. split_orb. auto. }
    destruct Hparts as [Hha Hhb].
    destruct (strip_ends a) as [Ha1 Ha2]. destruct (strip_ends b) as [Hb1 Hb2].
    split; [|split; [|split; [exact Hbody|]]].
    + repeat split; try assumption. apply existsb_strip, Hha.
    + repeat split.
      * rewrite has_hash_app, Hoh. apply existsb_strip, Hhb.
      * rewrite first_space_app. destruct op; [contradiction | exact Hof].
      * rewrite last_space_app. destruct (strip b); assumption.
    + split; [|split; [reflexivity | exact Hne]].
      destruct op; [contradiction | discriminate].
  - repeat split; try assumption; discriminate.
Qed.

Lemma parsed_fields_clean_example :
  clean (str "numpy") /\ clean (str ">=1.20") /\ clean (str "numpy >= 1.20")
  /\ str ">=1.20" <> [] /\ str "numpy >= 1.20" = uncomment (str " numpy >= 1.20 # fast")
  /\ str "numpy >= 1.20" <> [].
Proof.
  exact (@parsed_fields_clean (str " numpy >= 1.20 # fast")
           (mkSpec (str "numpy") (str ">=1.20") (str "numpy >= 1.20")) eq_refl).
Defined.

(** X3: splitting and stripping lose blanks only.  For the sentinels
    "url" and "latest" the raw text is the name; otherwise the raw text is
    the name, blanks, the operator, blanks, and what follows the operator
    in the version. *)
Theorem raw_rebuilt_from_fields (line : pystr) (spec : DependencySpec) :
  parse_requirement_line line = Some spec ->
  ((version spec = str "url" \/ version spec = str "latest")
   /\ raw spec = name spec)
  \/ exists operator rest w1 w2,
       In operator operators
       /\ version spec = operator ++ rest
       /\ forallb isspace w1 = true /\ forallb isspace w2 = true
       /\ raw spec = name spec ++ w1 ++ operator ++ w2 ++ rest.
Proof.
  intros H. apply parse_cases in H. cbv zeta in H.
  destruct (uncomment_ends line) as [Hf Hl].
  remember (uncomment line) as body eqn:Eb. clear Eb.
  destruct H as [Hne [[_ ->] | [[_ [op [a [b [Hm [Hs ->]]]]]] | [_ [_ ->]]]]];
    cbn [name version raw]; [left; auto | | left; auto].
  right. apply matched_operator_some in Hm. destruct Hm as [Hin _].
  destruct (operator_clean Hin) as [_ [_ [_ Hon]]].
  pose proof (split_once_some _ _ Hs) as E.
  assert (Ha : exists w1, a = strip a ++ w1 /\ forallb isspace w1 = true).
  { destruct a as [| c a]; [exists []; split; reflexivity|].
    apply strip_front. rewrite E in Hf. exact Hf. }
  assert (Hb : exists w2, b = w2 ++ strip b /\ forallb isspace w2 = true).
  { destruct b as [| c b]; [exists []; split; reflexivity|].
    apply strip_back. rewrite E in Hl. rewrite !last_space_app in Hl.
    destruct op; [contradiction|]. exact Hl. }
  destruct Ha as [w1 [Ea Hw1]]. destruct Hb as [w2 [Eb Hw2]].
  exists op, (strip b), w1, w2. repeat split; try assumption.
  rewrite E at 1. rewrite Ea at 1. rewrite Eb at 1.
  rewrite <- !app_assoc. reflexivity.
Qed.

End ParserEdges.

Lemma raw_rebuilt_from_fields_example :
  ((version (mkSpec (str "numpy") (str ">=1.20") (str "numpy >= 1.20"))
    = str "url"
    \/ version (mkSpec (str "numpy") (str ">=1.20") (str "numpy >= 1.20"))
       = str "latest")
   /\ raw (mkSpec (str "numpy") (str ">=1.20") (str "numpy >= 1.20"))
      = name (mkSpec (str "numpy") (str ">=1.20") (str "numpy >= 1.20")))
  \/ exists operator rest w1 w2,
       In operator operators
       /\ version (mkSpec (str "numpy") (str ">=1.20") (str "numpy >= 1.20"))
          = operator ++ rest
       /\ forallb isspace w1 = true /\ forallb isspace w2 = true
       /\ raw (mkSpec (str "numpy") (str ">=1.20") (str "numpy >= 1.20"))
          = name (mkSpec (str "numpy") (str ">=1.20") (str "numpy >= 1.20"))
            ++ w1 ++ operator ++ w2 ++ rest.
Proof.
  exact (@raw_rebuilt_from_fields (str "numpy >= 1.20")
           (mkSpec (str "numpy") (str ">=1.20") (str "numpy >= 1.20")) eq_refl).
Defined.

Section RequirementFiles.

(** A line kept by the test of line 573 is never refused by the parser. *)
Lemma requirement_line_parses (line : pystr) :
  is_requirement (strip line) = true ->
  exists spec, parse_requirement_line (strip line) = Some spec
               /\ raw spec = uncomment (strip line).
Proof.
  intros Hk.
  destruct (parse_requirement_line (strip line)) as [spec |] eqn:Ep.
  - exists spec. split; [reflexivity|]. apply parsed_fields_clean in Ep. tauto.
  - exfalso. apply parse_none_iff_blank in Ep.
    destruct (strip_ends line) as [Hf _].
    destruct (strip line) as [| c t]; [discriminate|].
    unfold is_requirement in Hk. change (str "#") with [hash] in Hk.
    rewrite startswith_char in Hk. cbn [before_hash] in Ep.
    destruct (Ascii.eqb c hash); [discriminate|].
    cbn in Ep, Hf. rewrite Hf in Ep. discriminate.
Qed.

Lemma packages_fold (lines : list pystr) : forall packages,
  map raw
    (fold_left
       (fun packages line =>
          let line := strip line in
          if is_requirement line then
            match parse_requirement_line line with
            | Some package_info => packages ++ [package_info]
            | None => packages
            end
          else packages) lines packages)
  = map raw packages
    ++ map uncomment (filter is_requirement (map strip lines)).
Proof.
  induction lines as [| l lines IH]; intros packages; cbn [fold_left map filter].
  - rewrite app_nil_r. reflexivity.
  - cbv zeta. destruct (is_requirement (strip l)) eqn:Ek.
    + destruct (requirement_line_parses l Ek) as [spec [Ep Er]].
      rewrite Ep, IH, map_app. cbn [map]. rewrite Er, <- app_assoc.
      reflexivity.
    + apply IH.
Qed.

(** X4: the package list of a requirements file (lines 570-576) has one
    entry for each line that, once stripped, is not empty and does not
    start with '#', in the order of the file; the entry's raw text is that
    line without its comment.  The test [if package_info] never drops a
    line. *)
Theorem one_package_per_requirement_line (requirements_content : pystr) :
  let lines :=
    filter is_requirement (map strip (splitlines requirements_content)) in
  map raw (requirements_packages_of requirements_content)
  = map uncomment lines
  /\ length (requirements_packages_of requirements_content) = length lines.
Proof.
  cbv zeta.
  assert (E : map raw (requirements_packages_of requirements_content)
              = map uncomment
                  (filter is_requirement
                     (map strip (splitlines requirements_content)))).
  { unfold requirements_packages_of. rewrite packages_fold. reflexivity. }
  split; [exact E|].
  rewrite <- (length_map raw), E, length_map. reflexivity.
Qed.

End RequirementFiles.

Section OwnerFilter.






End OwnerFilter.


(** ** BranchTreeResolver: what it returns, asks and raises *)

Section WalkFacts.

Lemma requests_get_spec (B : Type) (q q' : list (outcome B)) (o : outcome B) :
  requests_get q = (o, q') ->
  (exists asked, q = asked ++ q' /\ (length asked <= 1)%nat)
  /\ forall r, o = Responds r -> q = Responds r :: q'.
Proof.
  destruct q as [| o0 q0]; cbn; intros H; inversion H; subst.
  - split; [exists []; split; [reflexivity | cbn; lia] | discriminate].
  - split; [exists [o]; split; [reflexivity | cbn; lia]|].
    intros r ->. reflexivity.
Qed.

Lemma walk_step_refl (net : Net) : walk_step net net.
Proof. split; [destruct net; reflexivity | exists []; reflexivity]. Qed.

Lemma walk_step_trans (a b c : Net) :
  walk_step a b -> walk_step b c -> walk_step a c.
Proof.
  intros [E1 [x1 H1]] [E2 [x2 H2]]. split.
  - rewrite E2 at 1. rewrite E1. destruct a; reflexivity.
  - exists (x1 ++ x2). rewrite H1, H2, app_assoc. reflexivity.
Qed.

Lemma walk_step_get (net : Net) (o : outcome (list ContentItem)) q :
  requests_get (contents_q net) = (o, q) -> walk_step net (set_contents_q q net).
Proof.
  intros H. apply requests_get_spec in H. destruct H as [[asked [E _]] _].
  split; [destruct net; reflexivity|]. exists asked. exact E.
Qed.

Lemma walked_file_earlier (net net' : Net) (f : FileEntry) :
  walk_step net net' -> walked_file (contents_q net') f ->
  walked_file (contents_q net) f.
Proof.
  intros [_ [asked E]] [r [l [i [Hin H]]]]. exists r, l, i.
  split; [|exact H]. rewrite E. apply in_or_app. right. exact Hin.
Qed.

Lemma directory_files_spec dir_path net wd r net' wd' :
  get_directory_python_files dir_path net wd = (r, net', wd') ->
  wd' = wd /\ walk_step net net'
  /\ forall files, r = Ok files ->
       forall f, In f files -> walked_file (contents_q net) f.
Proof.
  unfold get_directory_python_files.
  destruct (requests_get (contents_q net)) as [o q] eqn:Eg.
  pose proof (walk_step_get _ Eg) as Hstep.
  apply requests_get_spec in Eg. destruct Eg as [_ Hhead].
  assert (Hnil : forall (x : result (list FileEntry)),
             x = Ok [] \/ (exists e, x = Raise e) ->
             (x, set_contents_q q net, wd) = (r, net', wd') ->
             wd' = wd /\ walk_step net net'
             /\ forall files, r = Ok files ->
                  forall f, In f files -> walked_file (contents_q net) f).
  { intros x Hx H; inversion H; subst. split; [reflexivity|].
    split; [exact Hstep|]. intros files Hf f Hin.
    destruct Hx as [-> | [e ->]]; inversion Hf; subst. destruct Hin. }
  destruct o as [dir_response | e].
  2:{ destruct (caught_by_walk e); apply Hnil; eauto. }
  destruct (Z.eqb_spec (status_code dir_response) 200) as [Es | Es];
    cbn [negb]; [|apply Hnil; auto].
  destruct (json dir_response) as [dir_contents | e] eqn:Ej.
  2:{ destruct (caught_by_walk e); apply Hnil; eauto. }
  intros H; inversion H; subst. split; [reflexivity|]. split; [exact Hstep|].
  intros files Hf f Hin. inversion Hf; subst.
  apply in_map_iff in Hin. destruct Hin as [item [<- Hin]].
  apply filter_In in Hin. destruct Hin as [Hin Hpy].
  exists dir_response, dir_contents, item.
  rewrite (Hhead dir_response eq_refl). repeat split; auto. left; reflexivity.
Qed.

Lemma walk_root_spec items : forall acc net wd r net' wd',
  walk_root items acc net wd = (r, net', wd') ->
  wd' = wd /\ walk_step net net'
  /\ forall files, r = Ok files ->
       forall f, In f files ->
         In f acc
         \/ (exists item, In item items /\ is_python_file item = true
                          /\ f = as_blob item)
         \/ walked_file (contents_q net) f.
Proof.
  induction items as [| item items IH]; intros acc net wd r net' wd';
    cbn [walk_root].
  - intros H; inversion H; subst. split; [reflexivity|].
    split; [apply walk_step_refl|]. intros files Hf f Hin.
    inversion Hf; subst. left. exact Hin.
  - assert (Hskip : walk_root items acc net wd = (r, net', wd') ->
              wd' = wd /\ walk_step net net'
              /\ forall files, r = Ok files ->
                   forall f, In f files ->
                     In f acc
                     \/ (exists item0, In item0 (item :: items)
                                       /\ is_python_file item0 = true
                                       /\ f = as_blob item0)
                     \/ walked_file (contents_q net) f).
    { intros H. apply IH in H. destruct H as [Hw [Hs Hf]].
      split; [exact Hw|]. split; [exact Hs|]. intros files E f Hin.
      destruct (Hf files E f Hin) as [H | [[i [Hi H]] | H]]; auto.
      right; left. exists i. split; [right; exact Hi | exact H]. }
    destruct (is_python_file item) eqn:Epy.
    { intros H. apply IH in H. destruct H as [Hw [Hs Hf]].
      split; [exact Hw|]. split; [exact Hs|]. intros files E f Hin.
      destruct (Hf files E f Hin) as [H | [[i [Hi H]] | H]]; auto.
      - apply in_app_iff in H. destruct H as [H | [<- | []]]; auto.
        right; left. exists item. split; [left; reflexivity | auto].
      - right; left. exists i. split; [right; exact Hi | exact H]. }
    destruct (opt_eqb (item_type item) (str "dir")); [|exact Hskip].
    destruct (match item_name item with
              | Some n => set_mem n important_dirs
              | None => false
              end); [|exact Hskip].
    destruct (get_directory_python_files (item_path item) net wd)
      as [[[dir_files | e0] net0] wd0] eqn:E;
      apply directory_files_spec in E; destruct E as [-> [Hs0 Hf0]].
    + intros H. apply IH in H. destruct H as [Hw [Hs Hf]].
      split; [exact Hw|]. split; [eapply walk_step_trans; eauto|].
      intros files E f Hin.
      destruct (Hf files E f Hin) as [H | [[i [Hi H]] | H]].
      * apply in_app_iff in H. destruct H as [H | H]; auto.
        right; right. eapply Hf0; eauto.
      * right; left. exists i. split; [right; exact Hi | exact H].
      * right; right. eapply walked_file_earlier; eauto.
    + intros H; inversion H; subst. split; [reflexivity|].
      split; [exact Hs0|]. intros files E; discriminate.
Qed.

Lemma probe_dirs_spec names : forall acc net wd r net' wd',
  probe_dirs names acc net wd = (r, net', wd') ->
  wd' = wd /\ walk_step net net'
  /\ forall files, r = Ok files ->
       forall f, In f files -> In f acc \/ walked_file (contents_q net) f.
Proof.
  induction names as [| n names IH]; intros acc net wd r net' wd';
    cbn [probe_dirs].
  - intros H; inversion H; subst. split; [reflexivity|].
    split; [apply walk_step_refl|]. intros files Hf f Hin.
    inversion Hf; subst. left. exact Hin.
  - destruct (get_directory_python_files (Some n) net wd)
      as [[[dir_files | e0] net0] wd0] eqn:E;
      apply directory_files_spec in E; destruct E as [-> [Hs0 Hf0]].
    + intros H. apply IH in H. destruct H as [Hw [Hs Hf]].
      split; [exact Hw|]. split; [eapply walk_step_trans; eauto|].
      intros files E f Hin. destruct (Hf files E f Hin) as [H | H].
      * apply in_app_iff in H. destruct H as [H | H]; auto.
        right. eapply Hf0; eauto.
      * right. eapply walked_file_earlier; eauto.
    + intros H; inversion H; subst. split; [reflexivity|].
      split; [exact Hs0|]. intros files E; discriminate.
Qed.

(** The fallback returns Python files of the listings it was sent, and
    touches the queue of directory listings only. *)
Lemma alternative_spec net wd r net' wd' :
  get_python_files_alternative net wd = (r, net', wd') ->
  walk_step net net'
  /\ forall files, r = Ok files ->
       forall f, In f files -> walked_file (contents_q net) f.
Proof.
  unfold get_python_files_alternative.
  destruct (requests_get (contents_q net)) as [o q] eqn:Eg.
  pose proof (walk_step_get _ Eg) as Hstep.
  apply requests_get_spec in Eg. destruct Eg as [_ Hhead].
  set (net0 := set_contents_q q net) in *.
  assert (Hnil : forall (x : result (list FileEntry)) n w,
             walk_step net n ->
             x = Ok [] \/ (exists e, x = Raise e) ->
             (x, n, w) = (r, net', wd') ->
             walk_step net net'
             /\ forall files, r = Ok files ->
                  forall f, In f files -> walked_file (contents_q net) f).
  { intros x n w Hn Hx H; inversion H; subst. split; [exact Hn|].
    intros files Hf f Hin.
    destruct Hx as [-> | [e ->]]; inversion Hf; subst. destruct Hin. }
  assert (Hh : forall (st : Net * World) e,
             walk_step net (fst st) ->
             (if caught_by_walk e
              then (Ok (@nil FileEntry), fst st, snd st)
              else (Raise e, fst st, snd st)) = (r, net', wd') ->
             walk_step net net'
             /\ forall files, r = Ok files ->
                  forall f, In f files -> walked_file (contents_q net) f).
  { intros st e Hst. destruct (caught_by_walk e); apply Hnil; eauto. }
  destruct o as [root_response | e]; [|apply Hh; exact Hstep].
  destruct (handle_rate_limiting root_response wd) as [[[|] | e] wd0];
    [apply Hnil; auto | | apply Hh; exact Hstep].
  destruct (Z.eqb_spec (status_code root_response) 200) as [Es | Es];
    cbn [negb]; [|apply Hnil; auto].
  destruct (json root_response) as [root_contents | e] eqn:Ej;
    [|apply Hh; exact Hstep].
  destruct (walk_root root_contents [] net0 wd0)
    as [[[files1 | e] net1] wd1] eqn:E1;
    apply walk_root_spec in E1; destruct E1 as [-> [Hs1 Hf1]].
  2:{ apply Hh. eapply walk_step_trans; eauto. }
  assert (Hroot : forall f, In f files1 -> walked_file (contents_q net) f).
  { intros f Hin. destruct (Hf1 files1 eq_refl f Hin) as [[] | [[i [Hi [Hp ->]]] | H]].
    - exists root_response, root_contents, i.
      rewrite (Hhead root_response eq_refl). repeat split; auto.
      left; reflexivity.
    - eapply walked_file_earlier; eauto. }
  destruct (length files1 <? 5).
  2:{ intros H; inversion H; subst.
      split; [eapply walk_step_trans; eauto|].
      intros files E; inversion E; subst. exact Hroot. }
  destruct (probe_dirs _ files1 net1 wd0) as [[[files2 | e] net2] wd2] eqn:E2;
    apply probe_dirs_spec in E2; destruct E2 as [-> [Hs2 Hf2]].
  2:{ apply Hh. cbn [fst]. eapply walk_step_trans; [|exact Hs2].
      eapply walk_step_trans; eauto. }
  intros H; inversion H; subst.
  assert (Hs : walk_step net net').
  { eapply walk_step_trans; [|exact Hs2]. eapply walk_step_trans; eauto. }
  split; [exact Hs|]. intros files E; inversion E; subst. intros f Hin.
  destruct (Hf2 files eq_refl f Hin) as [H1 | H1]; [apply Hroot, H1|].
  apply (@walked_file_earlier net net1); [|exact H1].
  exact (walk_step_trans Hstep Hs1).
Qed.

End WalkFacts.

Section TreeFacts.

Lemma tree_step_walk (net net' : Net) : walk_step net net' -> tree_step net net' [] [].
Proof.
  intros [E [asked H]].
  assert (Eb : branch_q net' = branch_q net) by (rewrite E; reflexivity).
  assert (Et : tree_q net' = tree_q net) by (rewrite E; reflexivity).
  unfold tree_step. rewrite Eb, Et. repeat split; try reflexivity.
  - exists asked; exact H.
  - rewrite E at 1. destruct net; reflexivity.
Qed.

Lemma tree_step_trans (a b c : Net) r1 t1 r2 t2 :
  tree_step a b r1 t1 -> tree_step b c r2 t2 ->
  tree_step a c (r1 ++ r2) (t1 ++ t2).
Proof.
  intros [B1 [T1 [[x1 C1] E1]]] [B2 [T2 [[x2 C2] E2]]]. unfold tree_step.
  rewrite B1, T1, C1, B2, T2, C2, <- !app_assoc.
  split; [reflexivity|]. split; [reflexivity|].
  split; [exists (x1 ++ x2); rewrite <- app_assoc; reflexivity|].
  rewrite E2 at 1. rewrite E1. destruct a; reflexivity.
Qed.

(** Two steps of the resolution, one after the other. *)
Ltac join_steps H1 H2 :=
  let Ht := fresh in
  pose proof (tree_step_trans H1 H2) as Ht;
  rewrite ?app_nil_r in Ht; exact Ht.

Lemma tree_step_refl (net : Net) : tree_step net net [] [].
Proof. apply tree_step_walk, walk_step_refl. Qed.

Lemma found_in_earlier (net net' : Net) refs trees (f : FileEntry) :
  tree_step net net' refs trees -> found_in net' f -> found_in net f.
Proof.
  intros [_ [T [[asked C] _]]] [[r [d [Hin H]]] | [r [l [i [Hin H]]]]].
  - left. exists r, d. split; [|exact H]. rewrite T.
    apply in_or_app. right. exact Hin.
  - right. exists r, l, i. split; [|exact H]. rewrite C.
    apply in_or_app. right. exact Hin.
Qed.

Lemma return_alternative_spec net wd r net' wd' :
  return_alternative net wd = (r, net', wd') ->
  tree_step net net' [] [] /\ pass_ok net r
  /\ forall e, r = Raise e -> caught_by_walk e = false.
Proof.
  unfold return_alternative.
  destruct (get_python_files_alternative net wd)
    as [[[files | e] net0] wd0] eqn:E;
    pose proof (alternative_spec _ _ E) as [Hs Hf];
    intros H; inversion H; subst; (split; [apply tree_step_walk, Hs|]).
  - split; [|discriminate]. intros files0 E0 f Hin. inversion E0; subst.
    right. eapply Hf; eauto.
  - split; [intros files0 E0; discriminate|].
    intros e0 E0. inversion E0; subst. eapply alternative_raises, E.
Qed.

Lemma tree_step_get_tree (net : Net) (o : outcome TreeData) q :
  requests_get (tree_q net) = (o, q) ->
  exists trees, tree_step net (set_tree_q q net) [] trees
                /\ (length trees <= 1)%nat
                /\ (tree_q net = [] -> exists e, o = Fails e).
Proof.
  intros H. destruct (tree_q net) as [| o0 q0] eqn:E; cbn in H;
    inversion H; subst.
  - exists []. split; [|split; [cbn; lia | eauto]].
    unfold tree_step. destruct net; cbn in *. subst.
    repeat split; try reflexivity. exists []; reflexivity.
  - exists [o]. split; [|split; [cbn; lia | discriminate]].
    unfold tree_step. destruct net; cbn in *. subst.
    repeat split; try reflexivity. exists []; reflexivity.
Qed.

Lemma try_tree_spec net wd r net' wd' :
  try_tree net wd = (r, net', wd') ->
  exists trees,
    tree_step net net' [] trees /\ (length trees <= 1)%nat /\ pass_ok net r.
Proof.
  unfold try_tree.
  destruct (requests_get (tree_q net)) as [o q] eqn:Eg.
  pose proof (requests_get_spec _ Eg) as [_ Hhead].
  destruct (tree_step_get_tree _ Eg) as [trees [Hstep [Hlen _]]].
  set (net0 := set_tree_q q net) in *.
  assert (Hend : forall x, (forall files, x <> Ok (Return files)) ->
             (x, net0, wd') = (r, net', wd') ->
             exists trees,
               tree_step net net' [] trees /\ (length trees <= 1)%nat
               /\ pass_ok net r).
  { intros x Hx H; inversion H; subst. exists trees.
    split; [exact Hstep|]. split; [exact Hlen|].
    intros files E. contradiction (Hx files). }
  assert (Halt : forall w, return_alternative net0 w = (r, net', wd') ->
             exists trees,
               tree_step net net' [] trees /\ (length trees <= 1)%nat
               /\ pass_ok net r).
  { intros w H. apply return_alternative_spec in H.
    destruct H as [Hs [Hok _]]. exists trees.
    split; [join_steps Hstep Hs|]. split; [exact Hlen|].
    intros files E f Hin. eapply found_in_earlier; [exact Hstep|].
    eapply Hok; eauto. }
  destruct o as [tree_response | e].
  2:{ intros H. inversion H; subst. eapply Hend; [|reflexivity]. discriminate. }
  destruct (handle_rate_limiting tree_response wd) as [[[|] | e] wd0].
  - intros H. inversion H; subst. eapply Hend; [|reflexivity]. discriminate.
  - destruct (Z.eqb_spec (status_code tree_response) 200) as [Es | Es];
      cbn [negb]; [|apply Halt].
    destruct (json tree_response) as [tree_data | e] eqn:Ej.
    2:{ intros H. inversion H; subst. eapply Hend; [|reflexivity].
        discriminate. }
    destruct (truncated tree_data) eqn:Et; [apply Halt|].
    intros H; inversion H; subst. exists trees.
    split; [exact Hstep|]. split; [exact Hlen|].
    intros files E f Hin. inversion E; subst.
    apply filter_In in Hin. destruct Hin as [Hin Hpy].
    left. exists tree_response, tree_data.
    rewrite (Hhead tree_response eq_refl). repeat split; auto.
    left; reflexivity.
  - intros H. inversion H; subst. eapply Hend; [|reflexivity]. discriminate.
Qed.

Lemma fetch_tree_spec net wd r net' wd' :
  fetch_tree net wd = (r, net', wd') ->
  exists trees,
    tree_step net net' [] trees /\ (length trees <= 1)%nat /\ pass_ok net r.
Proof.
  unfold fetch_tree.
  destruct (try_tree net wd) as [[[a | e] net0] wd0] eqn:E;
    apply try_tree_spec in E; destruct E as [trees [Hs [Hlen Hok]]].
  - intros H; inversion H; subst. exists trees. auto.
  - destruct (isRequestException e).
    + intros H. apply return_alternative_spec in H.
      destruct H as [Hs1 [Hok1 _]]. exists trees.
      split; [join_steps Hs Hs1|].
      split; [exact Hlen|]. intros files E f Hin.
      eapply found_in_earlier; [exact Hs|]. eapply Hok1; eauto.
    + intros H; inversion H; subst. exists trees. auto.
Qed.

Lemma tree_step_get_ref (net : Net) (o : outcome BranchData) q :
  requests_get (branch_q net) = (o, q) ->
  exists refs, tree_step net (set_branch_q q net) refs []
               /\ (length refs <= 1)%nat
               /\ (refs = [] -> exists e, o = Fails e).
Proof.
  intros H. destruct (branch_q net) as [| o0 q0] eqn:E; cbn in H;
    inversion H; subst.
  - exists []. split; [|split; [cbn; lia | eauto]].
    unfold tree_step. destruct net; cbn in *. subst.
    repeat split; try reflexivity. exists []; reflexivity.
  - exists [o]. split; [|split; [cbn; lia | discriminate]].
    unfold tree_step. destruct net; cbn in *. subst.
    repeat split; try reflexivity. exists []; reflexivity.
Qed.

Lemma resolve_ref_spec net wd r net' wd' :
  resolve_ref net wd = (r, net', wd') ->
  exists refs trees,
    tree_step net net' refs trees
    /\ (length trees <= length refs)%nat /\ (length refs <= 1)%nat
    /\ pass_ok net r.
Proof.
  unfold resolve_ref.
  destruct (requests_get (branch_q net)) as [o q] eqn:Eg.
  destruct (tree_step_get_ref _ Eg) as [refs [Hstep [Hlen Hnil]]].
  set (net0 := set_branch_q q net) in *.
  assert (Hend : forall x, (forall f files, x = Ok (Return files) -> ~ In f files) ->
             (x, net0, wd') = (r, net', wd') ->
             exists refs trees,
               tree_step net net' refs trees
               /\ (length trees <= length refs)%nat /\ (length refs <= 1)%nat
               /\ pass_ok net r).
  { intros x Hx H; inversion H; subst. exists refs, [].
    split; [exact Hstep|]. split; [cbn; lia|]. split; [exact Hlen|].
    intros files E f Hin. contradiction (Hx f files E). }
  assert (Hno : forall x : result attempt_end,
             x = Ok (Return []) \/ x = Ok NextAttempt \/ (exists e, x = Raise e) ->
             forall f files, x = Ok (Return files) -> ~ In f files).
  { intros x [-> | [-> | [e ->]]] f files E; inversion E; subst. intros []. }
  destruct o as [ref_response | e].
  2:{ intros H; inversion H; subst. eapply Hend; [|reflexivity].
      apply Hno. eauto. }
  assert (Hone : length refs = 1%nat).
  { destruct refs as [| x [| y l]]; cbn in Hlen; [|reflexivity | lia].
    destruct (Hnil eq_refl) as [e He]. discriminate. }
  destruct (handle_rate_limiting ref_response wd) as [[[|] | e] wd0].
  - intros H; inversion H; subst. eapply Hend; [|reflexivity]. apply Hno. auto.
  - destruct (negb (status_code ref_response =? 200)%Z).
    { intros H; inversion H; subst. eapply Hend; [|reflexivity].
      apply Hno. auto. }
    destruct (json ref_response) as [branch_data | e].
    2:{ intros H; inversion H; subst. eapply Hend; [|reflexivity].
        apply Hno. eauto. }
    destruct (commit_sha branch_data) as [[| c sha] |].
    1,3: intros H; inversion H; subst; (eapply Hend; [|reflexivity]);
         apply Hno; auto.
    intros H. apply fetch_tree_spec in H.
    destruct H as [trees [Hs [Hl Hok]]]. exists refs, trees.
    split; [join_steps Hstep Hs|].
    split; [lia|]. split; [lia|]. intros files E f Hin.
    eapply found_in_earlier; [exact Hstep|]. eapply Hok; eauto.
  - intros H; inversion H; subst. eapply Hend; [|reflexivity].
    apply Hno. eauto.
Qed.

Lemma attempts_spec todo : forall net wd r net' wd',
  attempts todo net wd = (r, net', wd') ->
  exists refs trees,
    tree_step net net' refs trees
    /\ (length trees <= length refs)%nat /\ (length refs <= length todo)%nat
    /\ (forall files, r = Ok files -> forall f, In f files -> found_in net f)
    /\ (forall e, r = Raise e ->
          isRequestException e = false /\ isJSONDecodeError e = false).
Proof.
  induction todo as [| attempt todo IH]; intros net wd r net' wd';
    cbn [attempts].
  - intros H. pose proof (alternative_spec _ _ H) as [Hs Hf].
    exists [], []. split; [apply tree_step_walk, Hs|].
    split; [cbn; lia|]. split; [cbn; lia|]. split.
    + intros files E f Hin. right. eapply Hf; eauto.
    + intros e E. subst r. apply alternative_raises in H.
      apply orb_false_iff in H. exact H.
  - destruct (resolve_ref net wd) as [[[[files |] | e] net0] wd0] eqn:E;
      apply resolve_ref_spec in E;
      destruct E as [refs [trees [Hs [Hl1 [Hl2 Hok]]]]].
    + intros H; inversion H; subst. exists refs, trees.
      split; [exact Hs|]. split; [exact Hl1|]. split; [cbn; lia|].
      split; [|discriminate]. intros files0 E f Hin. inversion E; subst.
      eapply Hok; eauto.
    + intros H. apply IH in H.
      destruct H as [refs2 [trees2 [Hs2 [Hl3 [Hl4 [Hf He]]]]]].
      exists (refs ++ refs2), (trees ++ trees2).
      split; [apply (tree_step_trans Hs Hs2)|]. rewrite !length_app.
      split; [lia|]. split; [cbn; lia|]. split; [|exact He].
      intros files E f Hin. eapply found_in_earlier; [exact Hs|].
      eapply Hf; eauto.
    + destruct (isRequestException e || isJSONDecodeError e) eqn:Ec.
      * intros H. apply IH in H.
        destruct H as [refs2 [trees2 [Hs2 [Hl3 [Hl4 [Hf He]]]]]].
        exists (refs ++ refs2), (trees ++ trees2).
        split; [apply (tree_step_trans Hs Hs2)|]. rewrite !length_app.
        split; [lia|]. split; [cbn; lia|]. split; [|exact He].
        intros files E f Hin. eapply found_in_earlier; [exact Hs|].
        eapply Hf; eauto.
      * intros H; inversion H; subst. exists refs, trees.
        split; [exact Hs|]. split; [exact Hl1|]. split; [cbn; lia|].
        split; [discriminate|]. intros e0 E0. inversion E0; subst.
        apply orb_false_iff in Ec. exact Ec.
Qed.

End TreeFacts.

(** X8: every entry [get_branch_tree] returns has the type "blob" and is a
    Python file it was sent: an entry of type blob with a path ending in
    ".py" of a recursive tree that is not truncated, or the image of an
    entry of type file with a name ending in ".py" of a directory listing,
    in both cases from the body of a response with status 200. *)
Theorem branch_tree_returns_python_files
  (net net' : Net) (wd wd' : World) (files : list FileEntry) :
  get_branch_tree net wd = (Ok files, net', wd') ->
  forall f, In f files ->
    entry_type f = Some (str "blob")
    /\ (tree_file (tree_q net) f \/ walked_file (contents_q net) f).
Proof.
  intros H f Hin. unfold get_branch_tree in H. apply attempts_spec in H.
  destruct H as [refs [trees [_ [_ [_ [Hf _]]]]]].
  specialize (Hf files eq_refl f Hin). split; [|exact Hf].
  destruct Hf as [[r [d [_ [_ [_ [_ [_ Hb]]]]]]] | [r [l [i [_ [_ [_ [_ [_ ->]]]]]]]]].
  - unfold is_python_blob in Hb. apply andb_true_iff in Hb.
    destruct Hb as [Hb _]. unfold opt_eqb in Hb.
    destruct (entry_type f) as [t |]; [|discriminate].
    apply pystr_eqb_eq in Hb. subst t. reflexivity.
  - reflexivity.
Qed.

Lemma branch_tree_returns_python_files_example :
  entry_type main_py = Some (str "blob")
  /\ (tree_file (tree_q (net_truncated [] [Responds ref_ok])) main_py
      \/ walked_file (contents_q (net_truncated [] [Responds ref_ok]))
                     main_py).
Proof.
  exact (@branch_tree_returns_python_files
           (net_truncated [] [Responds ref_ok])
           (snd (fst (get_branch_tree (net_truncated [] [Responds ref_ok])
                                      world0)))
           world0
           (snd (get_branch_tree (net_truncated [] [Responds ref_ok]) world0))
           [main_py] eq_refl main_py (or_introl eq_refl)).
Defined.

(** X9: whatever it ends with, [get_branch_tree] takes at most three
    answers from the endpoint of branch references and no more answers
    from the endpoint of trees than from that of references; besides these
    it reads directory listings only, and leaves every other queue of the
    network as it was. *)
Theorem branch_tree_request_budget
  (net net' : Net) (wd wd' : World) (r : result (list FileEntry)) :
  get_branch_tree net wd = (r, net', wd') ->
  exists refs trees,
    tree_step net net' refs trees
    /\ (length trees <= length refs)%nat /\ (length refs <= 3)%nat.
Proof.
  intros H. unfold get_branch_tree in H. apply attempts_spec in H.
  destruct H as [refs [trees [Hs [H1 [H2 _]]]]]. exists refs, trees. auto.
Qed.

Lemma branch_tree_request_budget_example :
  exists refs trees,
    tree_step
      (net_ref [Fails RequestException; Fails RequestException;
                Fails ChunkedEncodingError; Responds ref_ok])
      (set_contents_q [] (net_ref [Responds ref_ok])) refs trees
    /\ (length trees <= length refs)%nat /\ (length refs <= 3)%nat.
Proof.
  apply (@branch_tree_request_budget
           (net_ref [Fails RequestException; Fails RequestException;
                     Fails ChunkedEncodingError; Responds ref_ok])
           (set_contents_q [] (net_ref [Responds ref_ok])) world0
           (snd (get_branch_tree
                   (net_ref [Fails RequestException; Fails RequestException;
                             Fails ChunkedEncodingError; Responds ref_ok])
                   world0))
           (fst (fst (get_branch_tree
                   (net_ref [Fails RequestException; Fails RequestException;
                             Fails ChunkedEncodingError; Responds ref_ok])
                   world0)))).
  vm_compute. reflexivity.
Defined.

(** X10: no exception of [requests] and no JSON decoding error leaves
    [get_branch_tree]: they are retried, or answered by the directory walk
    or by an empty list.  What can leave it is of another class, such as
    the ValueError of a quota header that is not a number. *)
Theorem branch_tree_raises_no_network_error
  (net net' : Net) (wd wd' : World) (e : exn) :
  get_branch_tree net wd = (Raise e, net', wd') ->
  isRequestException e = false /\ isJSONDecodeError e = false.
Proof.
  intros H. unfold get_branch_tree in H. apply attempts_spec in H.
  destruct H as [refs [trees [_ [_ [_ [_ He]]]]]]. apply He. reflexivity.
Qed.

Lemma branch_tree_raises_no_network_error_example :
  isRequestException ValueError = false /\ isJSONDecodeError ValueError = false.
Proof.
  exact (@branch_tree_raises_no_network_error
           (net_ref [Responds ref_bad_quota]) (net_ref []) world0 world0
           ValueError eq_refl).
Defined.

(** ** BranchLister *)

Section BranchListing.

Lemma branch_pages_full (full : list (Response (list BranchSummary))) :
  forall bodies all_branches q wd,
    Forall2 full_page full bodies ->
    branch_pages all_branches (map (@Responds _) full ++ q) wd
    = branch_pages (all_branches ++ concat bodies) q
                   (after_pauses (length full) wd).
Proof.
  induction full as [| response full IH]; intros bodies all_branches q wd H;
    inversion H as [| r body full' bodies' Hp Hrest]; subst.
  - cbn. rewrite app_nil_r. reflexivity.
  - destruct Hp as [Hl [Hs [Hj Hn]]]. cbn [map app branch_pages].
    rewrite Hl, Hs, Hj. cbn [Z.eqb Pos.eqb negb].
    destruct body as [| b0 page0]; [cbn in Hn; unfold per_page in Hn; lia|].
    cbv zeta. destruct (Nat.ltb_spec (length (b0 :: page0)) per_page); [lia|].
    rewrite (IH _ _ _ _ Hrest). cbn [concat length].
    rewrite app_assoc. unfold after_pauses. rewrite Nat.iter_succ_r.
    reflexivity.
Qed.

(** X11: when the server sends full pages and then a short one, all with
    status 200 and without a pause, [get_repository_branches] returns the
    branches of all these pages in their order, takes just these answers,
    and has paused half a second after each full page. *)
Theorem branches_of_all_pages
  (full : list (Response (list BranchSummary)))
  (bodies : list (list BranchSummary))
  (last : Response (list BranchSummary)) (last_page : list BranchSummary)
  (rest : list (outcome (list BranchSummary))) (wd : World) :
  Forall2 full_page full bodies ->
  lets_through last -> status_code last = 200%Z ->
  json last = Ok last_page -> (length last_page < per_page)%nat ->
  get_repository_branches (map (@Responds _) full ++ Responds last :: rest) wd
  = (Ok (concat bodies ++ last_page), rest, after_pauses (length full) wd).
Proof.
  intros Hfull Hl Hs Hj Hn. unfold get_repository_branches.
  rewrite (branch_pages_full _ _ _ Hfull). cbn [app branch_pages].
  rewrite Hl, Hs, Hj. cbn [Z.eqb Pos.eqb negb].
  destruct last_page as [| b0 page0]; [rewrite app_nil_r; reflexivity|].
  cbv zeta. destruct (Nat.ltb_spec (length (b0 :: page0)) per_page); [|lia].
  reflexivity.
Qed.

(** X12: a page answered with a status other than 200, after any number
    of full pages.  When the limiter answers False for it, the listing
    ends without an error: the branches of the full pages are returned as
    if they were all the branches, and no other answer is taken.  When the
    limiter pauses for it (a 403 sent with the quota spent), the answer is
    dropped and the listing goes on with the next answer and the branches
    gathered so far.  When the limiter raises, the exception leaves the
    function. *)
Theorem branches_partial_on_error
  (full : list (Response (list BranchSummary)))
  (bodies : list (list BranchSummary))
  (bad : Response (list BranchSummary))
  (rest : list (outcome (list BranchSummary))) (wd : World) :
  Forall2 full_page full bodies ->
  status_code bad <> 200%Z ->
  get_repository_branches (map (@Responds _) full ++ Responds bad :: rest) wd
  = match handle_rate_limiting bad (after_pauses (length full) wd) with
    | (Ok false, wd') => (Ok (concat bodies), rest, wd')
    | (Ok true, wd') => branch_pages (concat bodies) rest wd'
    | (Raise e, wd') => (Raise e, rest, wd')
    end.
Proof.
  intros Hfull Hs. unfold get_repository_branches.
  rewrite (branch_pages_full _ _ _ Hfull). cbn [app branch_pages].
  destruct (handle_rate_limiting bad _) as [[[|] | e] wd']; try reflexivity.
  destruct (Z.eqb_spec (status_code bad) 200); [contradiction|].
  reflexivity.
Qed.

(** X13: nothing is caught in [get_repository_branches]: when a request
    fails after any number of full pages, the exception leaves the
    function and the branches collected so far are lost; a response whose
    body is not JSON does the same. *)
Theorem branches_failure_raises
  (full : list (Response (list BranchSummary)))
  (bodies : list (list BranchSummary))
  (rest : list (outcome (list BranchSummary))) (wd : World) (e : exn) :
  Forall2 full_page full bodies ->
  get_repository_branches (map (@Responds _) full ++ Fails e :: rest) wd
  = (Raise e, rest, after_pauses (length full) wd)
  /\ forall broken,
       lets_through broken -> status_code broken = 200%Z ->
       json broken = Raise e ->
       get_repository_branches (map (@Responds _) full ++ Responds broken :: rest)
                               wd
       = (Raise e, rest, after_pauses (length full) wd).
Proof.
  intros Hfull. unfold get_repository_branches.
  rewrite !(branch_pages_full _ _ _ Hfull). split; [reflexivity|].
  intros broken Hl Hs Hj. rewrite (branch_pages_full _ _ _ Hfull).
  cbn [app branch_pages]. rewrite Hl, Hs, Hj. reflexivity.
Qed.

End BranchListing.

Lemma full_page_100 : full_page (branch_page 100) (branches_named 100).
Proof.
  split; [intros wd; reflexivity|]. split; [reflexivity|].
  split; [reflexivity|]. vm_compute. reflexivity.
Defined.

Lemma branches_of_all_pages_example :
  get_repository_branches
    (map (@Responds _) [branch_page 100; branch_page 100]
     ++ Responds (branch_page 3) :: [Responds (branch_page 100)]) world0
  = (Ok (concat [branches_named 100; branches_named 100] ++ branches_named 3),
     [Responds (branch_page 100)], after_pauses 2 world0).
Proof.
  exact (@branches_of_all_pages
           [branch_page 100; branch_page 100]
           [branches_named 100; branches_named 100]
           (branch_page 3) (branches_named 3) [Responds (branch_page 100)]
           world0
           (Forall2_cons _ _ full_page_100
              (Forall2_cons _ _ full_page_100 (Forall2_nil _)))
           (fun wd => eq_refl) eq_refl eq_refl
           (proj1 (Nat.ltb_lt 3 per_page) eq_refl)).
Defined.

Lemma branches_partial_on_error_example :
  get_repository_branches
    (map (@Responds _) [branch_page 100] ++ Responds branches_gone :: []) world0
  = (Ok (concat [branches_named 100]), [], after_pauses 1 world0).
Proof.
  apply (@branches_partial_on_error [branch_page 100] [branches_named 100]
           branches_gone [] world0
           (Forall2_cons _ _ full_page_100 (Forall2_nil _))).
  discriminate.
Defined.

(** The same page answered with 403 and the quota spent: after the pause
    the listing goes on, and takes the short page that follows. *)
Example branches_retry_after_pause :
  fst (fst (get_repository_branches
              [Responds (branch_page 100);
               Responds (mkResponse 403 quota_spent (str "") (Ok []));
               Responds (branch_page 3)] world0))
  = Ok (branches_named 100 ++ branches_named 3).
Proof. vm_compute. reflexivity. Qed.

Lemma branches_failure_raises_example :
  get_repository_branches
    (map (@Responds _) [branch_page 100] ++ Fails RequestException :: []) world0
  = (Raise RequestException, [], after_pauses 1 world0)
  /\ forall broken,
       lets_through broken -> status_code broken = 200%Z ->
       json broken = Raise RequestException ->
       get_repository_branches
         (map (@Responds _) [branch_page 100] ++ Responds broken :: []) world0
       = (Raise RequestException, [], after_pauses 1 world0).
Proof.
  exact (@branches_failure_raises [branch_page 100] [branches_named 100]
           [] world0 RequestException
           (Forall2_cons _ _ full_page_100 (Forall2_nil _))).
Defined.

(** ** File contents and ImportAnalyzer *)

Section FileFacts.

Variable b64decode_utf8 : pystr -> result pystr.

Lemma decode_file_content (response : Response FileData) :
  decode_file b64decode_utf8 response
  = match json response with
    | Ok (JsonObject content_data) =>
        decode_content b64decode_utf8 content_data
    | Ok JsonOther => None
    | Raise _ => None
    end.
Proof. reflexivity. Qed.

(** X14: [get_python_file_content] and [find_file_in_branch] do the same
    on the same answer of the network, with two exceptions, both for a
    response with status 200 that causes no pause and for which
    [find_file_in_branch] returns None: when the body is not JSON,
    [get_python_file_content] raises the decoding error; when the body is
    JSON but no object, it raises the AttributeError of the missing
    [get]. *)
Theorem file_content_like_find_file (net : Net) (wd : World) :
  get_python_file_content b64decode_utf8 net wd
  = find_file_in_branch b64decode_utf8 net wd
  \/ exists response q wd',
       file_q net = Responds response :: q
       /\ handle_rate_limiting response wd = (Ok false, wd')
       /\ status_code response = 200%Z
       /\ find_file_in_branch b64decode_utf8 net wd
          = (Ok None, set_file_q q net, wd')
       /\ ((exists e,
              json response = Raise e
              /\ get_python_file_content b64decode_utf8 net wd
                 = (Raise e, set_file_q q net, wd'))
           \/ (json response = Ok JsonOther
               /\ get_python_file_content b64decode_utf8 net wd
                  = (Raise OtherError, set_file_q q net, wd'))).
Proof.
  unfold get_python_file_content, find_file_in_branch.
  destruct (file_q net) as [| [response | e] q] eqn:Eq; cbn [requests_get];
    [left; reflexivity | | left; reflexivity].
  destruct (handle_rate_limiting response wd) as [[[|] | e] wd0] eqn:Eh;
    [left; reflexivity | | left; reflexivity].
  destruct (Z.eqb_spec (status_code response) 200) as [Es | Es]; cbn [negb];
    [|left; reflexivity].
  rewrite decode_file_content.
  destruct (json response) as [[content_data |] | e] eqn:Ej;
    [left; reflexivity | |];
    right; exists response, q, wd0; repeat split; eauto.
Qed.

(** A directory where a file was expected: the endpoint answers with a
    list, which [find_file_in_branch] takes for a missing file and
    [get_python_file_content] fails on. *)
Example file_content_of_a_directory :
  let net := set_file_q [Responds (mkResponse 200 [] (str "[]")
                                     (Ok JsonOther))] no_net in
  fst (fst (find_file_in_branch b64decode_utf8 net world0)) = Ok None
  /\ fst (fst (get_python_file_content b64decode_utf8 net world0))
     = Raise OtherError.
Proof. split; reflexivity. Qed.

Lemma file_step_refl (net : Net) : file_step net net [].
Proof. split; [destruct net; reflexivity | reflexivity]. Qed.

Lemma file_step_trans (a b c : Net) x1 x2 :
  file_step a b x1 -> file_step b c x2 -> file_step a c (x1 ++ x2).
Proof.
  intros [E1 H1] [E2 H2]. split.
  - rewrite E2 at 1. rewrite E1. destruct a; reflexivity.
  - rewrite H1, H2, app_assoc. reflexivity.
Qed.

Lemma file_text_earlier (net net' : Net) asked decode (text : pystr) :
  file_step net net' asked -> file_text decode (file_q net') text ->
  file_text decode (file_q net) text.
Proof.
  intros [_ E] [r [d [Hin H]]]. exists r, d. split; [|exact H].
  rewrite E. apply in_or_app. right. exact Hin.
Qed.

Lemma file_content_spec net wd r net' wd' :
  get_python_file_content b64decode_utf8 net wd = (r, net', wd') ->
  exists asked,
    file_step net net' asked /\ (length asked <= 1)%nat
    /\ forall text, r = Ok (Some text) ->
         file_text (decode_content b64decode_utf8) (file_q net) text.
Proof.
  unfold get_python_file_content.
  destruct (requests_get (file_q net)) as [o q] eqn:Eg.
  apply requests_get_spec in Eg. destruct Eg as [[asked [Ea Hl]] Hhead].
  assert (Hstep : file_step net (set_file_q q net) asked).
  { split; [destruct net; reflexivity | exact Ea]. }
  assert (Hend : forall x, (forall text, x <> Ok (Some text)) ->
             forall w, (x, set_file_q q net, w) = (r, net', wd') ->
             exists asked,
               file_step net net' asked /\ (length asked <= 1)%nat
               /\ forall text, r = Ok (Some text) ->
                    file_text (decode_content b64decode_utf8) (file_q net) text).
  { intros x Hx w H; inversion H; subst. exists asked.
    split; [exact Hstep|]. split; [exact Hl|].
    intros text E. contradiction (Hx text). }
  destruct o as [response | e]; [|apply Hend; discriminate].
  destruct (handle_rate_limiting response wd) as [[[|] | e] wd0];
    [apply Hend; discriminate | | apply Hend; discriminate].
  destruct (Z.eqb_spec (status_code response) 200) as [Es | Es]; cbn [negb];
    [|apply Hend; discriminate].
  destruct (json response) as [[content_data |] | e] eqn:Ej;
    [|apply Hend; discriminate | apply Hend; discriminate].
  intros H; inversion H; subst. exists asked.
  split; [exact Hstep|]. split; [exact Hl|].
  intros text E. inversion E. exists response, content_data.
  rewrite (Hhead response eq_refl). repeat split; auto. left; reflexivity.
Qed.

(** The set of pairs keeps its entries, takes the new ones, and holds no
    pair twice. *)
Lemma update_imports_spec (file_imports : list (pystr * bool)) :
  forall all_imports,
    (NoDup all_imports -> NoDup (update_imports all_imports file_imports))
    /\ forall p, In p (update_imports all_imports file_imports)
                 <-> In p all_imports \/ In p file_imports.
Proof.
  unfold update_imports.
  induction file_imports as [| x l IH]; intros all_imports; cbn [fold_left].
  - split; [auto|]. intros p. cbn. tauto.
  - destruct (in_dec import_dec x all_imports) as [Hx | Hx].
    + destruct (IH all_imports) as [Hn Hin]. split; [exact Hn|].
      intros p. rewrite Hin. cbn. split; [tauto|].
      intros [H | [<- | H]]; auto.
    + destruct (IH (all_imports ++ [x])) as [Hn Hin]. split.
      * intros H. apply Hn. apply NoDup_app; [exact H | repeat constructor; intros [] |].
        intros a Ha [<- | []]. contradiction.
      * intros p. rewrite Hin, in_app_iff. cbn. tauto.
Qed.

Lemma analyze_files_spec (python_files : list FileEntry) :
  forall all_imports net wd r net' wd',
    analyze_files b64decode_utf8 python_files all_imports net wd
    = (r, net', wd') ->
    exists asked,
      file_step net net' asked /\ (length asked <= length python_files)%nat
      /\ forall imports, r = Ok imports ->
           (NoDup all_imports -> NoDup imports)
           /\ forall p, In p imports ->
                In p all_imports
                \/ exists text,
                     file_text (decode_content b64decode_utf8) (file_q net) text
                     /\ In p (extract_imports_from_python_content text).
Proof.
  induction python_files as [| python_file files IH];
    intros all_imports net wd r net' wd'; cbn [analyze_files].
  - intros H; inversion H; subst. exists [].
    split; [apply file_step_refl|]. split; [cbn; lia|].
    intros imports E; inversion E; subst. auto.
  - assert (Hskip : forall n w asked0,
               file_step net n asked0 -> (length asked0 <= 1)%nat ->
               analyze_files b64decode_utf8 files all_imports n w
               = (r, net', wd') ->
               exists asked,
                 file_step net net' asked
                 /\ (length asked <= length (python_file :: files))%nat
                 /\ forall imports, r = Ok imports ->
                      (NoDup all_imports -> NoDup imports)
                      /\ forall p, In p imports ->
                           In p all_imports
                           \/ exists text,
                                file_text (decode_content b64decode_utf8)
                                          (file_q net) text
                                /\ In p (extract_imports_from_python_content
                                           text)).
    { intros n w asked0 Hs0 Hl0 H. apply IH in H.
      destruct H as [asked [Hs [Hl Hr]]]. exists (asked0 ++ asked).
      split; [apply (file_step_trans Hs0 Hs)|].
      split; [rewrite length_app; cbn [length]; lia|].
      intros imports E. destruct (Hr imports E) as [Hn Hp].
      split; [exact Hn|]. intros p Hin.
      destruct (Hp p Hin) as [H | [text [Ht H]]]; [left; exact H|].
      right. exists text. split; [|exact H].
      eapply file_text_earlier; eauto. }
    destruct (nonempty (entry_path python_file)).
    2:{ apply (Hskip net wd []); [apply file_step_refl | cbn; lia]. }
    destruct (get_python_file_content b64decode_utf8 net wd)
      as [[[content | e] net0] wd0] eqn:Ec;
      apply file_content_spec in Ec; destruct Ec as [asked0 [Hs0 [Hl0 Ht0]]].
    2:{ intros H; inversion H; subst. exists asked0.
        split; [exact Hs0|]. split; [cbn [length]; lia | discriminate]. }
    destruct content as [[| c s] |]; try (apply (Hskip net0 wd0 asked0); assumption).
    intros H. apply IH in H. destruct H as [asked [Hs [Hl Hr]]].
    exists (asked0 ++ asked). split; [apply (file_step_trans Hs0 Hs)|].
    split; [rewrite length_app; cbn [length]; lia|].
    intros imports E. destruct (Hr imports E) as [Hn Hp].
    destruct (update_imports_spec
                (extract_imports_from_python_content (c :: s)) all_imports)
      as [Hu1 Hu2].
    split; [auto|]. intros p Hin.
    destruct (Hp p Hin) as [H | [text [Ht H]]].
    + apply Hu2 in H. destruct H as [H | H]; [left; exact H|].
      right. exists (c :: s). split; [apply Ht0; reflexivity | exact H].
    + right. exists text. split; [|exact H].
      eapply file_text_earlier; eauto.
Qed.

Lemma firstn_le_length (A : Type) (n : nat) (l : list A) :
  (length (if n <? length l then firstn n l else l) <= n)%nat.
Proof.
  destruct (Nat.ltb_spec n (length l)); [rewrite length_firstn|]; lia.
Qed.

Lemma branch_tree_file_q net wd r net' wd' :
  get_branch_tree net wd = (r, net', wd') -> file_q net' = file_q net.
Proof.
  intros H. unfold get_branch_tree in H. apply attempts_spec in H.
  destruct H as [refs [trees [[_ [_ [_ E]]] _]]]. rewrite E. reflexivity.
Qed.

(** X15: whatever it ends with, [analyze_python_files_in_branch] takes at
    most fifty answers from the file endpoint. *)
Theorem analysis_reads_at_most_50_files
  (net net' : Net) (wd wd' : World) (r : result (list (pystr * bool))) :
  analyze_python_files_in_branch b64decode_utf8 net wd = (r, net', wd') ->
  exists asked,
    file_q net = asked ++ file_q net' /\ (length asked <= 50)%nat.
Proof.
  unfold analyze_python_files_in_branch.
  destruct (get_branch_tree net wd) as [[[[| f files] | e] net0] wd0] eqn:Et;
    apply branch_tree_file_q in Et.
  1,3: intros H; inversion H; subst; exists []; split;
       [rewrite Et; reflexivity | cbn; lia].
  cbv zeta. intros H. apply analyze_files_spec in H.
  destruct H as [asked [[_ Hq] [Hl _]]]. exists asked.
  split; [rewrite <- Et; exact Hq|].
  pose proof (firstn_le_length max_files (f :: files)) as Hm.
  unfold max_files in *. lia.
Qed.

Lemma nodup_fst (A B : Type) (g : A -> B) (l : list (A * B)) :
  NoDup l -> (forall p, In p l -> snd p = g (fst p)) -> NoDup (map fst l).
Proof.
  induction l as [| a l IH]; intros Hn Hg; cbn; [constructor|].
  inversion Hn; subst. constructor.
  - intros Hin. apply in_map_iff in Hin. destruct Hin as [b [Hb Hin]].
    assert (b = a).
    { destruct a as [a1 a2], b as [b1 b2]. cbn in Hb. subst b1.
      pose proof (Hg (a1, a2) (or_introl eq_refl)) as Ea.
      pose proof (Hg (a1, b2) (or_intror Hin)) as Eb. cbn in Ea, Eb.
      congruence. }
    subst b. contradiction.
  - apply IH; [assumption|]. intros p Hp. apply Hg. right. exact Hp.
Qed.

Lemma extract_flag (text : pystr) (p : pystr * bool) :
  In p (extract_imports_from_python_content text) ->
  snd p = set_mem (fst p) std_lib.
Proof.
  unfold extract_imports_from_python_content. intros H.
  apply in_map_iff in H. destruct H as [imp [<- _]]. reflexivity.
Qed.

(** X16: the list [analyze_python_files_in_branch] returns names no
    module twice; each of its pairs was extracted from the decoded text of
    a file answered with status 200, and its flag tells whether the module
    is in the fixed set [std_lib]. *)
Theorem analysis_reports_extracted_imports
  (net net' : Net) (wd wd' : World) (imports : list (pystr * bool)) :
  analyze_python_files_in_branch b64decode_utf8 net wd
  = (Ok imports, net', wd') ->
  NoDup (map fst imports)
  /\ forall imp is_std,
       In (imp, is_std) imports ->
       is_std = set_mem imp std_lib
       /\ exists text,
            file_text (decode_content b64decode_utf8) (file_q net) text
            /\ In (imp, is_std) (extract_imports_from_python_content text).
Proof.
  unfold analyze_python_files_in_branch.
  destruct (get_branch_tree net wd) as [[[[| f files] | e] net0] wd0] eqn:Et;
    apply branch_tree_file_q in Et; [| |discriminate].
  { intros H; inversion H; subst. split; [constructor | intros imp is_std []]. }
  cbv zeta. intros H. apply analyze_files_spec in H.
  destruct H as [asked [_ [_ Hr]]].
  destruct (Hr imports eq_refl) as [Hn Hp]. rewrite Et in Hp.
  assert (Hall : forall p, In p imports ->
            snd p = set_mem (fst p) std_lib
            /\ exists text,
                 file_text (decode_content b64decode_utf8) (file_q net) text
                 /\ In p (extract_imports_from_python_content text)).
  { intros p Hin. destruct (Hp p Hin) as [[] | [text [Ht Hx]]].
    split; [eapply extract_flag; eauto | eauto]. }
  split.
  - apply nodup_fst with (g := fun imp => set_mem imp std_lib).
    + apply Hn. constructor.
    + intros p Hin. apply Hall, Hin.
  - intros imp is_std Hin. apply (Hall (imp, is_std) Hin).
Qed.

End FileFacts.

Example file_content_raises_where_find_file_is_silent :
  find_file_in_branch decoded_as_is (set_file_q [Responds not_json] no_net)
                      world0
  = (Ok None, no_net, world0)
  /\ get_python_file_content decoded_as_is
       (set_file_q [Responds not_json] no_net) world0
     = (Raise RequestsJSONDecodeError, no_net, world0).
Proof. split; reflexivity. Qed.

Lemma analysis_reads_at_most_50_files_example :
  exists asked,
    file_q net_app = asked ++ file_q (set_file_q [] (set_tree_q [] (set_branch_q [] net_app)))
    /\ (length asked <= 50)%nat.
Proof.
  apply (@analysis_reads_at_most_50_files decoded_as_is net_app
           (set_file_q [] (set_tree_q [] (set_branch_q [] net_app)))
           world0
           (snd (analyze_python_files_in_branch decoded_as_is net_app world0))
           (fst (fst (analyze_python_files_in_branch decoded_as_is net_app
                        world0)))).
  vm_compute. reflexivity.
Defined.

Example analysis_of_app :
  fst (fst (analyze_python_files_in_branch decoded_as_is net_app world0))
  = Ok [(str "os", true); (str "sys", true); (str "numpy", false)].
Proof. vm_compute. reflexivity. Qed.

Lemma analysis_reports_extracted_imports_example :
  NoDup (map fst [(str "os", true); (str "sys", true); (str "numpy", false)])
  /\ forall imp is_std,
       In (imp, is_std)
          [(str "os", true); (str "sys", true); (str "numpy", false)] ->
       is_std = set_mem imp std_lib
       /\ exists text,
            file_text (decode_content decoded_as_is) (file_q net_app) text
            /\ In (imp, is_std) (extract_imports_from_python_content text).
Proof.
  apply (@analysis_reports_extracted_imports decoded_as_is net_app
           (snd (fst (analyze_python_files_in_branch decoded_as_is net_app
                        world0)))
           world0
           (snd (analyze_python_files_in_branch decoded_as_is net_app world0))).
  vm_compute. reflexivity.
Defined.

(** ** The scan of the repositories *)

Section ScanFacts.

Variable b64decode_utf8 : pystr -> result pystr.

Lemma analysis_names_unique net wd imports net' wd' :
  analyze_python_files_in_branch b64decode_utf8 net wd
  = (Ok imports, net', wd') ->
  NoDup (map fst imports).
Proof.
  unfold analyze_python_files_in_branch.
  destruct (get_branch_tree net wd) as [[[[| f files] | e] net0] wd0];
    [| |discriminate].
  { intros H; inversion H; subst. constructor. }
  cbv zeta. intros H. apply analyze_files_spec in H.
  destruct H as [asked [_ [_ Hr]]].
  destruct (Hr imports eq_refl) as [Hn Hp].
  apply nodup_fst with (g := fun imp => set_mem imp std_lib).
  - apply Hn. constructor.
  - intros p Hin. destruct (Hp p Hin) as [[] | [text [_ Hx]]].
    eapply extract_flag; eauto.
Qed.

Lemma nonempty_if (v : option pystr) :
  nonempty (if nonempty v then v else None) = nonempty v.
Proof. destruct v as [[| c s] |]; reflexivity. Qed.

Lemma packages_if (v : option pystr) :
  (if nonempty v then requirements_packages_of (or_empty v) else [])
  = requirements_packages_of (or_empty (if nonempty v then v else None)).
Proof. destruct v as [[| c s] |]; reflexivity. Qed.

Lemma check_branch_spec repo branch net wd b net' wd' :
  check_branch b64decode_utf8 repo branch net wd = (Ok (Some b), net', wd') ->
  python_evidence b /\ consistent_branch repo b.
Proof.
  unfold check_branch. cbv zeta.
  destruct (find_file_in_branch b64decode_utf8 net wd)
    as [[[requirements | e] net1] wd1]; [|discriminate].
  destruct (find_file_in_branch b64decode_utf8 net1 wd1)
    as [[[pyproject | e] net2] wd2]; [|discriminate].
  destruct (find_file_in_branch b64decode_utf8 net2 wd2)
    as [[[setup_py | e] net3] wd3]; [|discriminate].
  cbn [has_pyproject has_requirements has_setup_py info_name is_default
       requirements_content requirements_packages pyproject_content].
  destruct (opt_eqb (repo_language repo) (str "Python")
            || (nonempty pyproject || nonempty requirements
                || nonempty setup_py)); [|discriminate].
  destruct (analyze_python_files_in_branch b64decode_utf8 net3 wd3)
    as [[[imports | e] net4] wd4] eqn:Ea; [|discriminate].
  apply analysis_names_unique in Ea.
  destruct (negb (length imports =? 0)
            || (nonempty pyproject || nonempty requirements
                || nonempty setup_py)) eqn:Ev; [|discriminate].
  intros H; inversion H; subst. split.
  - unfold python_evidence. cbn.
    apply orb_true_iff in Ev. destruct Ev as [Ev | Ev]; [right | left; exact Ev].
    destruct imports; [discriminate | discriminate].
  - unfold consistent_branch. cbn.
    rewrite !nonempty_if, packages_if. repeat split. exact Ea.
Qed.

Lemma check_branches_spec repo todo : forall repo_data net wd repo_data' net' wd',
  check_branches b64decode_utf8 repo todo repo_data net wd
  = (Ok repo_data', net', wd') ->
  listing repo_data' = listing repo_data
  /\ full_name repo_data' = full_name repo_data
  /\ exists added,
       branches repo_data' = branches repo_data ++ added
       /\ Forall (fun b => python_evidence b /\ consistent_branch repo b) added
       /\ has_python_files repo_data'
          = has_python_files repo_data || negb (length added =? 0).
Proof.
  induction todo as [| branch todo IH]; intros repo_data net wd repo_data' net' wd';
    cbn [check_branches].
  - intros H; inversion H; subst. split; [reflexivity|].
    split; [reflexivity|]. exists []. rewrite app_nil_r, orb_false_r.
    split; [reflexivity|]. split; [constructor | reflexivity].
  - destruct (check_branch b64decode_utf8 repo branch net wd)
      as [[[[b |] | e] net0] wd0] eqn:Ec; [| |discriminate].
    + apply check_branch_spec in Ec. intros H. apply IH in H.
      cbn [listing full_name branches has_python_files] in H.
      destruct H as [H1 [H2 [added [H3 [H4 H5]]]]].
      split; [exact H1|]. split; [exact H2|]. exists (b :: added).
      split; [rewrite H3, <- app_assoc; reflexivity|].
      split; [constructor; assumption|].
      rewrite H5. cbn. rewrite orb_true_r. reflexivity.
    + apply IH.
Qed.

Lemma subseq_refl (A : Type) (l : list A) : subseq l l.
Proof. induction l; constructor; assumption. Qed.

Lemma scan_repos_spec env repos : forall python_repos sc wd out sc' wd',
  scan_repos b64decode_utf8 env repos python_repos sc wd = (Ok out, sc', wd') ->
  exists more,
    out = python_repos ++ more
    /\ subseq (map listing more) repos
    /\ Forall (fun repo_data =>
                 branches repo_data <> []
                 /\ has_python_files repo_data = true
                 /\ full_name repo_data = full_name_of env (listing repo_data)
                 /\ Forall (fun b => python_evidence b
                                     /\ consistent_branch (listing repo_data) b)
                           (branches repo_data))
              more.
Proof.
  induction repos as [| repo repos IH]; intros python_repos sc wd out sc' wd';
    cbn [scan_repos].
  - intros H; inversion H; subst. exists []. rewrite app_nil_r.
    split; [reflexivity|]. split; constructor.
  - destruct (get_repository_branches (branch_list_q sc) wd)
      as [[[found | e] q] wd0]; [|discriminate].
    destruct (check_branches b64decode_utf8 repo found _ (api sc) wd0)
      as [[[repo_data | e] net0] wd1] eqn:Ec; [|discriminate].
    apply check_branches_spec in Ec.
    cbn [listing full_name branches has_python_files app orb] in Ec.
    destruct Ec as [H1 [H2 [added [H3 [H4 H5]]]]].
    destruct (has_python_files repo_data) eqn:Ep;
      intros H; apply IH in H; destruct H as [more [Ho [Hs Hf]]].
    + exists (repo_data :: more).
      split; [rewrite Ho, <- app_assoc; reflexivity|].
      cbn [map]. rewrite H1. split; [apply subseq_take, Hs|].
      constructor; [|exact Hf]. rewrite H1, H2, H3.
      split; [|split; [exact Ep | split; [reflexivity | exact H4]]].
      destruct added; [discriminate H5 | discriminate].
    + exists more. split; [exact Ho|]. split; [apply subseq_skip, Hs | exact Hf].
Qed.

(** X17: the repositories [find_python_project_files] reports are
    repositories of the list it was given, in the order of that list, and
    each of them has at least one branch record; every branch record shows
    a project file or at least one import. *)
Theorem reported_repos_have_python_branches
  (env : Env) (repos : list Repo) (sc sc' : Scan) (wd wd' : World)
  (python_repos : list RepoData) :
  find_python_project_files b64decode_utf8 env repos sc wd
  = (Ok python_repos, sc', wd') ->
  subseq (map listing python_repos) repos
  /\ Forall (fun repo_data =>
               branches repo_data <> []
               /\ has_python_files repo_data = true
               /\ Forall python_evidence (branches repo_data))
            python_repos.
Proof.
  intros H. unfold find_python_project_files in H. apply scan_repos_spec in H.
  destruct H as [more [-> [Hs Hf]]]. cbn [app]. split; [exact Hs|].
  eapply Forall_impl; [|exact Hf]. cbn beta.
  intros repo_data [H1 [H2 [_ H4]]]. split; [exact H1|]. split; [exact H2|].
  eapply Forall_impl; [|exact H4]. intros b [Hb _]. exact Hb.
Qed.

(** X18: in every branch record [find_python_project_files] reports, the
    fields agree: [is_default] compares the branch's name with the
    repository's default branch, [has_requirements] and [has_pyproject]
    tell whether the text of the file is kept (and not empty), the packages
    are those of the text of requirements.txt, the analysis has run, and
    no module is named twice among the imports; the full name is the one
    of the listing, or ORG_NAME/name. *)
Theorem reported_records_are_consistent
  (env : Env) (repos : list Repo) (sc sc' : Scan) (wd wd' : World)
  (python_repos : list RepoData) :
  find_python_project_files b64decode_utf8 env repos sc wd
  = (Ok python_repos, sc', wd') ->
  Forall (fun repo_data =>
            full_name repo_data = full_name_of env (listing repo_data)
            /\ Forall (consistent_branch (listing repo_data))
                      (branches repo_data))
         python_repos.
Proof.
  intros H. unfold find_python_project_files in H. apply scan_repos_spec in H.
  destruct H as [more [-> [Hs Hf]]]. cbn [app].
  eapply Forall_impl; [|exact Hf]. cbn beta.
  intros repo_data [_ [_ [H3 H4]]]. split; [exact H3|].
  eapply Forall_impl; [|exact H4]. intros b [_ Hb]. exact Hb.
Qed.

End ScanFacts.

Example scan_of_api :
  fst (fst (find_python_project_files decoded_as_is acme_env
              [repo "api" "acme" "Python"] scan_api world0))
  = Ok [api_record].
Proof. vm_compute. reflexivity. Qed.

Lemma reported_repos_have_python_branches_example :
  subseq (map listing [api_record]) [repo "api" "acme" "Python"]
  /\ Forall (fun repo_data =>
               branches repo_data <> []
               /\ has_python_files repo_data = true
               /\ Forall python_evidence (branches repo_data))
            [api_record].
Proof.
  apply (@reported_repos_have_python_branches decoded_as_is acme_env
           [repo "api" "acme" "Python"] scan_api
           (snd (fst (find_python_project_files decoded_as_is acme_env
                        [repo "api" "acme" "Python"] scan_api world0)))
           world0
           (snd (find_python_project_files decoded_as_is acme_env
                   [repo "api" "acme" "Python"] scan_api world0))).
  vm_compute. reflexivity.
Defined.

Lemma reported_records_are_consistent_example :
  Forall (fun repo_data =>
            full_name repo_data = full_name_of acme_env (listing repo_data)
            /\ Forall (consistent_branch (listing repo_data))
                      (branches repo_data))
         [api_record].
Proof.
  apply (@reported_records_are_consistent decoded_as_is acme_env
           [repo "api" "acme" "Python"] scan_api
           (snd (fst (find_python_project_files decoded_as_is acme_env
                        [repo "api" "acme" "Python"] scan_api world0)))
           world0
           (snd (find_python_project_files decoded_as_is acme_env
                   [repo "api" "acme" "Python"] scan_api world0))).
  vm_compute. reflexivity.
Defined.

(** ** ImportExtractor: the names reported *)

(** X19: every module name the extractor reports is a name: one word
    character or more (letters, digits, underscore), nothing else. *)
Theorem extracted_names_are_words (content : pystr) :
  Forall (fun p => word (fst p))
         (extract_imports_from_python_content content).
Proof.
  unfold extract_imports_from_python_content. cbv zeta.
  apply Forall_map. cbn [fst].
  apply fold_left_inv; [|constructor].
  intros acc line. apply add_line_imports_words.
Qed.
